(** * Turn orchestration of the CRM sales agent: a shallow embedding

    Source files embedded here:
    - [app/agent/helpers.py]  : pure helpers (message text, context copy,
      reference extraction, response segments);
    - [app/agent/tools.py]    : the lead lookup used by the resolver, and the
      tools that write leads, notes and tasks;
    - [app/agent/workflow.py] : plan normalisation, the graph nodes and the
      graph itself.

    Conventions.
    - A Python [str] is a sequence of code points.  Code points are
      restricted to the range 0..255, one [ascii] each; the character
      classes below are Python's classes for [str] patterns on that range.
    - Python numbers are restricted to integers.
    - A Python [dict] is an association list in insertion order whose keys
      are pairwise distinct.
    - Every call that leaves the process (language models, the database)
      goes through an oracle that threads an abstract world; a call that
      raises returns [Raise]. *)

From Stdlib Require Import Ascii String List ZArith Lia Bool Arith
  DecimalString.
From stdpp Require Import base list strings sorting.
Import ListNotations.

Local Open Scope nat_scope.
Local Open Scope list_scope.

(** ** Python strings *)

Module PyStr.

(** A text is the list of its code points. *)
Definition text := list ascii.

Definition of_string (s : string) : text := list_ascii_of_string s.
Definition to_string (t : text) : string := string_of_list_ascii t.

Definition code (c : ascii) : nat := nat_of_ascii c.

Definition between (lo hi : nat) (c : ascii) : bool :=
  (lo <=? code c) && (code c <=? hi).

Definition is_char (d c : ascii) : bool := Ascii.eqb d c.

(** [0-9]; on code points below 256 this is also [\d]. *)
Definition is_digit (c : ascii) : bool := between 48 57 c.
Definition is_upper (c : ascii) : bool := between 65 90 c.
Definition is_lower (c : ascii) : bool := between 97 122 c.
(** [A-Za-z] *)
Definition is_letter (c : ascii) : bool := is_upper c || is_lower c.
(** [0-9a-fA-F] *)
Definition is_hex (c : ascii) : bool :=
  is_digit c || between 97 102 c || between 65 70 c.

(** [\w] of a [str] pattern: alphanumeric code points and the underscore. *)
Definition is_word (c : ascii) : bool :=
  is_digit c || is_letter c || is_char "_" c
  || (code c =? 170) || (code c =? 178) || (code c =? 179)
  || (code c =? 181) || (code c =? 185) || (code c =? 186)
  || between 188 190 c || between 192 214 c || between 216 246 c
  || between 248 255 c.

(** [\s], and the characters removed by [str.strip()]. *)
Definition is_space (c : ascii) : bool :=
  between 9 13 c || between 28 32 c || (code c =? 133) || (code c =? 160).

Fixpoint lstrip (t : text) : text :=
  match t with
  | c :: t' => if is_space c then lstrip t' else t
  | [] => []
  end.

Definition rstrip (t : text) : text := rev (lstrip (rev t)).

(** [s.strip()] *)
Definition strip (t : text) : text := rstrip (lstrip t).

Fixpoint text_eqb (a b : text) : bool :=
  match a, b with
  | [], [] => true
  | x :: a', y :: b' => Ascii.eqb x y && text_eqb a' b'
  | _, _ => false
  end.

(** [s.startswith(p)] *)
Fixpoint startswith (p t : text) : bool :=
  match p, t with
  | [], _ => true
  | x :: p', y :: t' => Ascii.eqb x y && startswith p' t'
  | _ :: _, [] => false
  end.

(** [s.endswith(p)] *)
Definition endswith (p t : text) : bool := startswith (rev p) (rev t).

(** [d in s] for a single character [d] *)
Definition contains_char (d : ascii) (t : text) : bool := existsb (is_char d) t.

(** [s.split(d, 1)] for a text that contains [d]: the parts before and
    after the first occurrence. *)
Fixpoint split_once (d : ascii) (t : text) : text * text :=
  match t with
  | [] => ([], [])
  | c :: t' =>
      if is_char d c then ([], t')
      else let '(a, b) := split_once d t' in (c :: a, b)
  end.

(** [s.replace(d, e)] for single characters *)
Definition replace_char (d e : ascii) (t : text) : text :=
  map (fun c => if is_char d c then e else c) t.

End PyStr.

(** ** The fragment of Python's [re] used by the sources

    A pattern is a sequence of atoms; matching is by backtracking, greedy
    repetitions first giving up the longest run, as in [re]. *)

Module Re.
Import PyStr.

Inductive atom : Type :=
| Chr (p : ascii -> bool)
    (** one character of a class; a literal is a one-element class *)
| Rep (p : ascii -> bool) (lo : nat) (hi : option nat)
    (** greedy [p{lo,hi}]; [hi = None] is unbounded *)
| WordB
    (** [\b] *)
| Eos.
    (** [$]: the end of the text, or just before a final newline *)

Definition pattern := list atom.

Definition Lit (c : ascii) : atom := Chr (is_char c).
Definition Star (p : ascii -> bool) : atom := Rep p 0 None.
Definition Plus (p : ascii -> bool) : atom := Rep p 1 None.
Definition Exactly (p : ascii -> bool) (n : nat) : atom := Rep p n (Some n).
Definition AtLeast (p : ascii -> bool) (n : nat) : atom := Rep p n None.

Definition word_opt (c : option ascii) : bool :=
  match c with Some x => is_word x | None => false end.

(** [\b] between the character before the position and the one after *)
Definition boundary (prev : option ascii) (t : text) : bool :=
  xorb (word_opt prev) (word_opt (head t)).

(** [$] holds at the start of [t] *)
Definition at_end (t : text) : bool :=
  match t with
  | [] => true
  | [c] => code c =? 10
  | _ => false
  end.

(** length of the longest prefix of [t] in class [p], capped by [hi] *)
Fixpoint run (p : ascii -> bool) (hi : option nat) (t : text) : nat :=
  match hi with
  | Some 0 => 0
  | _ =>
      match t with
      | c :: t' =>
          if p c then S (run p (match hi with Some h => Some (pred h) | None => None end) t')
          else 0
      | [] => 0
      end
  end.

(** the character before the position reached after [n] more characters:
    the last of them, or [prev] when [n = 0] *)
Definition prev_after (prev : option ascii) (t : text) (n : nat) : option ascii :=
  match last (firstn n t) with Some c => Some c | None => prev end.

(** try [k (lo + d)], then [k (lo + d - 1)], ..., down to [k lo] *)
Fixpoint longest_first {A} (k : nat -> option A) (lo d : nat) : option A :=
  match k (lo + d) with
  | Some x => Some x
  | None => match d with 0 => None | S d' => longest_first k lo d' end
  end.

(** Match the pattern at the start of [t]; [prev] is the character just
    before.  The result lists the number of characters taken by each
    atom. *)
Fixpoint match_here (r : pattern) (prev : option ascii) (t : text)
  : option (list nat) :=
  match r with
  | [] => Some []
  | Chr p :: r' =>
      match t with
      | c :: t' =>
          if p c then option_map (cons 1) (match_here r' (Some c) t')
          else None
      | [] => None
      end
  | Rep p lo hi :: r' =>
      let n := run p hi t in
      if n <? lo then None
      else longest_first
             (fun k => option_map (cons k)
                         (match_here r' (prev_after prev t k) (skipn k t)))
             lo (n - lo)
  | WordB :: r' =>
      if boundary prev t then option_map (cons 0) (match_here r' prev t)
      else None
  | Eos :: r' =>
      if at_end t then option_map (cons 0) (match_here r' prev t)
      else None
  end.

Definition total (lens : list nat) : nat := fold_right Nat.add 0 lens.

(** [re.search]: the leftmost position with a match; the result is the
    position and the characters taken by each atom. *)
Fixpoint search_from (r : pattern) (prev : option ascii) (t : text) (pos : nat)
  : option (nat * list nat) :=
  match match_here r prev t with
  | Some lens => Some (pos, lens)
  | None =>
      match t with
      | c :: t' => search_from r (Some c) t' (S pos)
      | [] => None
      end
  end.

Definition search (r : pattern) (t : text) : option (nat * list nat) :=
  search_from r None t 0.

(** [m.group(0)] of [re.search(r, t)] *)
Definition search_group0 (r : pattern) (t : text) : option text :=
  match search r t with
  | Some (pos, lens) => Some (firstn (total lens) (skipn pos t))
  | None => None
  end.

(** [re.sub(r, repl, t)]: every leftmost non-overlapping match is replaced
    by [repl] applied to the matched text and the atoms' lengths.
    [skip] counts the characters of the current match still to drop. *)
Fixpoint sub_go (r : pattern) (repl : text -> list nat -> text)
    (prev : option ascii) (t : text) (skip : nat) : text :=
  match skip, t with
  | S k, c :: t' => sub_go r repl (Some c) t' k
  | S _, [] => []
  | 0, _ =>
      match match_here r prev t with
      | Some lens =>
          repl (firstn (total lens) t) lens ++
          match total lens, t with
          | _, [] => []
          | 0, c :: t' => c :: sub_go r repl (Some c) t' 0
          | S k, c :: t' => sub_go r repl (Some c) t' k
          end
      | None =>
          match t with
          | c :: t' => c :: sub_go r repl (Some c) t' 0
          | [] => []
          end
      end
  end.

Definition sub (r : pattern) (repl : text -> list nat -> text) (t : text) : text :=
  sub_go r repl None t 0.

End Re.

(** ** [helpers.py]: reference extraction *)

Module Helpers.
Import PyStr Re.

(** [\b[0-9a-fA-F]{8}-[0-9a-fA-F]{4}-[0-9a-fA-F]{4}-[0-9a-fA-F]{4}-[0-9a-fA-F]{12}\b] *)
Definition UUID_PATTERN : pattern :=
  [ WordB; Exactly is_hex 8; Lit "-"; Exactly is_hex 4; Lit "-";
    Exactly is_hex 4; Lit "-"; Exactly is_hex 4; Lit "-";
    Exactly is_hex 12; WordB ].

(** [[A-Za-z0-9._%+-]] *)
Definition is_email_local (c : ascii) : bool :=
  is_letter c || is_digit c || is_char "." c || is_char "_" c
  || is_char "%" c || is_char "+" c || is_char "-" c.

(** [[A-Za-z0-9.-]] *)
Definition is_email_domain (c : ascii) : bool :=
  is_letter c || is_digit c || is_char "." c || is_char "-" c.

(** [[A-Za-z0-9._%+-]+@[A-Za-z0-9.-]+\.[A-Za-z]{2,}] *)
Definition EMAIL_PATTERN : pattern :=
  [ Plus is_email_local; Lit "@"; Plus is_email_domain; Lit ".";
    AtLeast is_letter 2 ].

(** [\D+] *)
Definition NON_DIGITS : pattern := [ Plus (fun c => negb (is_digit c)) ].

(** [re.sub(r"\D+", empty, text)] *)
Definition strip_non_digits (t : text) : text :=
  sub NON_DIGITS (fun _ _ => []) t.

(** [extract_ref_from_text] *)
Definition extract_ref_from_text (t : text) : option text :=
  match t with
  | [] => None
  | _ =>
      match search_group0 UUID_PATTERN t with
      | Some m => Some m
      | None =>
          match search_group0 EMAIL_PATTERN t with
          | Some m => Some m
          | None =>
              let digits := strip_non_digits t in
              if 8 <=? length digits then Some digits else None
          end
      end
  end.

End Helpers.

(** ** Python values and dictionaries *)

Module Py.
Import PyStr.

(** The values that reach slots: what [json.loads] and the [name=value]
    fallback produce.  Lists and dictionaries are the unhashable ones. *)
#[local] Unset Elimination Schemes.
Inductive value : Type :=
| VNone
| VBool (b : bool)
| VInt (z : Z)
| VStr (s : string)
| VList (items : list value)
| VDict (items : list (string * value)).
#[local] Set Elimination Schemes.

(** A [dict] with string keys, in insertion order. *)
Definition dict := list (string * value).

(** [bool(v)] *)
Definition truthy (v : value) : bool :=
  match v with
  | VNone => false
  | VBool b => b
  | VInt z => negb (z =? 0)%Z
  | VStr s => negb (String.eqb s EmptyString)
  | VList l => match l with [] => false | _ => true end
  | VDict d => match d with [] => false | _ => true end
  end.

(** [d.get(k)]: the value, or [None] when the key is absent *)
Fixpoint dget (d : dict) (k : string) : value :=
  match d with
  | [] => VNone
  | (k', v) :: d' => if String.eqb k k' then v else dget d' k
  end.

(** [k in d] *)
Definition dhas (d : dict) (k : string) : bool :=
  existsb (fun kv => String.eqb k (fst kv)) d.

(** [d[k] = v]: an existing key keeps its place, a new key goes last *)
Fixpoint dset (d : dict) (k : string) (v : value) : dict :=
  match d with
  | [] => [(k, v)]
  | (k', v') :: d' =>
      if String.eqb k k' then (k, v) :: d' else (k', v') :: dset d' k v
  end.

(** [d.update(e)] *)
Definition dupdate (d e : dict) : dict :=
  fold_left (fun acc kv => dset acc (fst kv) (snd kv)) e d.

(** [d.setdefault(k, v)] (the result is not used by the sources) *)
Definition dsetdefault (d : dict) (k : string) (v : value) : dict :=
  if dhas d k then d else dset d k v.

(** the keys of a well-formed dictionary are pairwise distinct *)
Definition dict_wf (d : dict) : Prop := NoDup (map fst d).

(** What hashing and [==] see of a hashable value: [True] and [False] hash
    and compare as [1] and [0]. *)
Inductive hval : Type :=
| HNone
| HInt (z : Z)
| HStr (s : string).

(** [hash(v)] succeeds on scalars and raises [TypeError] on lists and
    dictionaries; [None] stands for the raise. *)
Definition hashed (v : value) : option hval :=
  match v with
  | VNone => Some HNone
  | VBool b => Some (HInt (if b then 1 else 0)%Z)
  | VInt z => Some (HInt z)
  | VStr s => Some (HStr s)
  | VList _ | VDict _ => None
  end.


Definition hval_eqb (a b : hval) : bool :=
  match a, b with
  | HNone, HNone => true
  | HInt x, HInt y => (x =? y)%Z
  | HStr x, HStr y => String.eqb x y
  | _, _ => false
  end.

End Py.

(** ** [workflow.py]: plan normalisation *)

Module Plan.
Import PyStr Re Py.

(** An action as [parse_plan_actions_from_text] returns it:
    [{"intent": ..., "slots": [...]}]. *)
Record raw_action : Type := RawAction {
  ra_intent : value;
  ra_slots : list value
}.

(** [[,{]] *)
Definition is_comma_or_brace (c : ascii) : bool := is_char "," c || is_char "{" c.
(** [[A-Za-z_]] *)
Definition is_ident_start (c : ascii) : bool := is_letter c || is_char "_" c.
(** [[A-Za-z0-9_\-]] *)
Definition is_ident_char (c : ascii) : bool :=
  is_letter c || is_digit c || is_char "_" c || is_char "-" c.
(** the double quote character *)
Definition dquote : ascii := ascii_of_nat 34.
(** [.] under [re.DOTALL] *)
Definition any_char (c : ascii) : bool := true.

(** the pattern [( [,{] \s* ) ( [A-Za-z_] [A-Za-z0-9_\-]* ) \s* :], spaces
    added for reading *)
Definition BARE_KEY : pattern :=
  [ Chr is_comma_or_brace; Star is_space; Chr is_ident_start;
    Star is_ident_char; Star is_space; Lit ":" ].

(** the replacement: group 1, a double quote, group 2, a double quote, a
    colon *)
Definition quote_key (m : text) (lens : list nat) : text :=
  match lens with
  | [a; b; c; d; _; _] =>
      firstn (a + b) m ++ [dquote] ++ firstn (c + d) (skipn (a + b) m)
      ++ [dquote] ++ of_string ":"
  | _ => m
  end.

(** [re.sub] of the bare-key pattern by the replacement above *)
Definition quote_bare_keys (t : text) : text := sub BARE_KEY quote_key t.

(** [\{.*\bactions\b\s*:\s*\[.*\]\s*\}] under [re.DOTALL] *)
Definition ACTIONS_OBJECT : pattern :=
  [ Lit "{"; Star any_char; WordB;
    Lit "a"; Lit "c"; Lit "t"; Lit "i"; Lit "o"; Lit "n"; Lit "s"; WordB;
    Star is_space; Lit ":"; Star is_space; Lit "["; Star any_char; Lit "]";
    Star is_space; Lit "}" ].

(** [normalize_json_like] *)
Definition normalize_json_like (s : text) : text :=
  let t := strip s in
  let t :=
    if startswith (of_string "actions=") t
    then of_string "{" ++ [dquote] ++ of_string "actions" ++ [dquote]
         ++ of_string ":" ++ skipn 8 t ++ of_string "}"
    else t in
  let t :=
    if startswith (of_string "[") t && endswith (of_string "]") t
    then of_string "{" ++ [dquote] ++ of_string "actions" ++ [dquote]
         ++ of_string ": " ++ t ++ of_string "}"
    else t in
  let t := quote_bare_keys t in
  replace_char "'" dquote t.

Section Normalizer.

(** [json.loads]; [None] when it raises *)
Variable json_loads : text -> option value.
(** [json.dumps(d, ensure_ascii=False)]; [None] when it raises *)
Variable json_dumps : dict -> option text.

(** the object obtained by strict parsing, then by the repairs *)
Definition plan_object (text_ : text) : option value :=
  let raw := strip text_ in
  match json_loads raw with
  | Some obj => Some obj
  | None =>
      match search_group0 ACTIONS_OBJECT raw with
      | Some m => json_loads (normalize_json_like m)
      | None => json_loads (normalize_json_like raw)
      end
  end.

(** the [slots] entry of one action, brought to a list *)
Definition clean_slots (it : dict) : list value :=
  if dhas it "slots" then
    match dget it "slots" with
    | VList l => l
    | VDict d =>
        match json_dumps d with
        | Some s => [VStr (to_string s)]
        | None => []
        end
    | _ => []
    end
  else [].

(** the loop over [actions] *)
Fixpoint clean_actions (actions : list value) : list raw_action :=
  match actions with
  | [] => []
  | VDict it :: rest =>
      let intent := dget it "intent" in
      let slots := clean_slots it in
      if truthy intent then RawAction intent slots :: clean_actions rest
      else clean_actions rest
  | _ :: rest => clean_actions rest
  end.

(** [parse_plan_actions_from_text] *)
Definition parse_plan_actions_from_text (text_ : text) : list raw_action :=
  match plan_object text_ with
  | Some (VDict obj) =>
      match dget obj "actions" with
      | VList actions => clean_actions actions
      | _ => []
      end
  | _ => []
  end.

(** one turn of the loop of [slots_strings_to_dict] *)
Definition slot_step (out : dict) (s : value) : dict :=
  match s with
  | VStr s0 =>
      let txt := strip (of_string s0) in
      let fallback :=
        if contains_char "=" txt then
          let '(k, v) := split_once "=" txt in
          dset out (to_string (strip k)) (VStr (to_string (strip v)))
        else out in
      if startswith (of_string "{") txt && endswith (of_string "}") txt then
        let txt2 := replace_char "'" dquote (quote_bare_keys txt) in
        match json_loads txt2 with
        | Some (VDict data) => dupdate out data
        | _ => fallback
        end
      else fallback
  | _ => out
  end.

(** [slots_strings_to_dict] *)
Definition slots_strings_to_dict (slots_strings : list value) : dict :=
  fold_left slot_step slots_strings [].

End Normalizer.

End Plan.

(** ** Effects: exceptions, the outside world and a log of calls *)

Module Eff.

(** the result of a computation that may raise *)
Inductive res (A : Type) : Type :=
| Ok (a : A)
| Raise.
Arguments Ok {A} a.
Arguments Raise {A}.

(** the two places that call the planner *)
Inductive plan_site : Type := InitialPlan | Replan.

(** what the log records: a graph node starting, a planner call *)
Inductive event (N : Type) : Type :=
| EvNode (n : N)
| EvPlanner (site : plan_site).
Arguments EvNode {N} n.
Arguments EvPlanner {N} site.

Section Monad.
Variables W N : Type.

(** the outside world, and what happened so far in this turn *)
Record env : Type := Env { world : W; log : list (event N) }.

Definition M (A : Type) : Type := env -> res A * env.

Definition ret {A} (a : A) : M A := fun e => (Ok a, e).

Definition raise {A} : M A := fun e => (Raise, e).

Definition bind {A B} (m : M A) (k : A -> M B) : M B :=
  fun e => match m e with
           | (Ok a, e') => k a e'
           | (Raise, e') => (Raise, e')
           end.

(** [try: m / except Exception: ...]: the raise becomes [None]; what [m]
    did to the world before raising stays done *)
Definition try_ {A} (m : M A) : M (option A) :=
  fun e => match m e with
           | (Ok a, e') => (Ok (Some a), e')
           | (Raise, e') => (Ok None, e')
           end.

(** a call that leaves the process *)
Definition call {A} (f : W -> res A * W) : M A :=
  fun e => let '(r, w) := f (world e) in (r, Env w (log e)).

Definition emit (ev : event N) : M unit :=
  fun e => (Ok tt, Env (world e) (log e ++ [ev])).

End Monad.

Arguments ret {W N A} a.
Arguments raise {W N A}.
Arguments bind {W N A B} m k.
Arguments try_ {W N A} m.
Arguments call {W N A} f.
Arguments emit {W N} ev.
Arguments world {W N} e.
Arguments log {W N} e.
Arguments Env {W N} world log.

Declare Scope eff_scope.
Delimit Scope eff_scope with eff.
Notation "'let*' x ':=' m 'in' k" := (bind m (fun x => k))
  (at level 10, x name, m at level 100, k at level 200) : eff_scope.
Notation "'let*' ' p ':=' m 'in' k" := (bind m (fun p => k))
  (at level 10, p strict pattern, m at level 100, k at level 200) : eff_scope.

End Eff.

(** ** [tools.py]: looking a lead up by a reference *)

Module Tools.
Import PyStr Re Py Eff.
Local Open Scope eff_scope.

(** the lead as the conversation keeps it, and as a candidate of a
    disambiguation: [{lead_id, nome, email, empresa}] *)
Record lead_ctx : Type := LeadCtx {
  lead_id : value;
  nome : value;
  email : value;
  empresa : value
}.

(** the envelope every tool returns: [{message, data}] or
    [{error: {message, matches?}}]; no [matches] key is the empty list *)
Inductive tool_result : Type :=
| ToolOk (message : text) (data : dict)
| ToolError (message : text) (matches : list lead_ctx).

(** a row of [public.leads] *)
Record lead_row : Type := LeadRow {
  r_id : value;
  r_nome : value;
  r_email : value;
  r_telefone : value;
  r_empresa : value;
  r_status_codigo : value
}.

(** the [select] statements of the lead lookup, with their parameters *)
Inductive query : Type :=
| LeadById (ref : text)
| LeadByEmail (ref : text)
| LeadByPhone (digits : text)
| LeadsLike (like : text)
| LeadFullById (id : value).

Definition is_hex_or_dash (c : ascii) : bool := is_hex c || is_char "-" c.

(** [UUID_RE]: [^[0-9a-fA-F-]{36}$] *)
Definition UUID_RE : pattern := [ Exactly is_hex_or_dash 36; Eos ].

(** [normalize_phone] *)
Definition normalize_phone (s : text) : text :=
  sub [ Plus (fun c => negb (is_digit c)) ] (fun _ _ => []) s.

(** [is_uuid] *)
Definition is_uuid (s : text) : bool :=
  match s with
  | [] => false
  | _ => match match_here UUID_RE None s with Some _ => true | None => false end
  end.

(** [c.lower()] on code points below 256 *)
Definition lower_char (c : ascii) : ascii :=
  if is_upper c || (between 192 222 c && negb (code c =? 215))
  then ascii_of_nat (code c + 32) else c.

(** [s.lower()] *)
Definition lower (s : text) : text := map lower_char s.

Definition candidate (r : lead_row) : lead_ctx :=
  LeadCtx (r_id r) (r_nome r) (r_email r) (r_empresa r).

Section Database.
Variables W N : Type.

(** a connection, one [execute] and its [fetchall]; [Raise] when any of
    them raises *)
Variable db_select : W -> query -> res (list lead_row) * W.

Definition select (q : query) : M W N (list lead_row) := call (fun w => db_select w q).

(** [(row[0], []) if row else (None, [])] after [fetchone] *)
Definition one_or_none (rows : list lead_row) : option value * list lead_ctx :=
  match rows with
  | row :: _ => (Some (r_id row), [])
  | [] => (None, [])
  end.

(** [resolve_lead_id_by_ref] *)
Definition resolve_lead_id_by_ref (ref : text)
  : M W N (option value * list lead_ctx) :=
  match ref with
  | [] => ret (None, [])
  | _ =>
      let ref := strip ref in
      if is_uuid ref then
        let* rows := select (LeadById ref) in ret (one_or_none rows)
      else if contains_char "@" ref then
        let* rows := select (LeadByEmail ref) in ret (one_or_none rows)
      else
        let digits := normalize_phone ref in
        if 8 <=? length digits then
          let* rows := select (LeadByPhone digits) in ret (one_or_none rows)
        else
          let like := of_string "%" ++ lower ref ++ of_string "%" in
          let* rows := select (LeadsLike like) in
          match rows with
          | [row] => ret (Some (r_id row), [])
          | _ => ret (None, map candidate rows)
          end
  end.

Definition not_found : text :=
  of_string "Lead n" ++ [ascii_of_nat 227] ++ of_string "o encontrado".

Definition several_found : text := of_string "Mais de um lead corresponde".

(** [if lead_id:] *)
Definition found (lead : option value) : option value :=
  match lead with
  | Some v => if truthy v then Some v else None
  | None => None
  end.

(** the tool [get_lead] *)
Definition get_lead (ref : text) : M W N tool_result :=
  let* '(lead, matches) := resolve_lead_id_by_ref ref in
  match found lead with
  | Some id =>
      let* rows := select (LeadFullById id) in
      match rows with
      | [] => ret (ToolError not_found [])
      | row :: _ =>
          ret (ToolOk (of_string "Lead encontrado")
                 [ ("lead_id", r_id row); ("nome", r_nome row);
                   ("email", r_email row); ("telefone", r_telefone row);
                   ("empresa", r_empresa row);
                   ("status_codigo", r_status_codigo row) ])
      end
  | None =>
      match matches with
      | _ :: _ => ret (ToolError several_found matches)
      | [] => ret (ToolError not_found [])
      end
  end.

(** the tool [resolve_lead] *)
Definition resolve_lead (ref : text) : M W N tool_result :=
  let* '(lead, matches) := resolve_lead_id_by_ref ref in
  match found lead with
  | Some id => ret (ToolOk (of_string "Lead resolvido") [ ("lead_id", id) ])
  | None =>
      match matches with
      | _ :: _ => ret (ToolError several_found matches)
      | [] => ret (ToolError not_found [])
      end
  end.

End Database.

End Tools.

(** ** [tools.py]: the tools that write to the database *)

Module Crm.
Import PyStr Re Py Eff Tools.
Local Open Scope eff_scope.

(** a parameter of a statement *)
Inductive param : Type :=
| PNull
| PText (t : text)
| PBool (b : bool)
| PInt (z : Z)
| PValue (v : value).

(** what [cur.execute] gets: the text of the statement and its parameters *)
Record statement : Type := Statement { sql : text; params : list param }.

(** a row of a result, column by column *)
Definition row : Type := list value.

(** an [Optional[str]] as a parameter and as a value *)
Definition opt_param (o : option text) : param :=
  match o with Some t => PText t | None => PNull end.

Definition opt_value (o : option text) : value :=
  match o with Some t => VStr (to_string t) | None => VNone end.

(** [if x:] on an [Optional[str]] *)
Definition given (o : option text) : bool :=
  match o with Some (_ :: _) => true | _ => false end.

(** [sep.join(l)] *)
Fixpoint join (sep : text) (l : list text) : text :=
  match l with
  | [] => []
  | [x] => x
  | x :: rest => x ++ sep ++ join sep rest
  end.

(** [str(n)] for a length *)
Definition decimal (n : nat) : text :=
  of_string (NilEmpty.string_of_uint (Nat.to_uint n)).

Definition line_break : text := [ascii_of_nat 10].

(** the indentation of the statements written over several lines *)
Definition indent : text := of_string "                ".

Definition status_check : text :=
  of_string "select 1 from public.status_lead where codigo=%s".

Definition email_check : text :=
  of_string "select 1 from public.leads where lower(email)=lower(%s)".

Definition phone_check : text :=
  of_string "select 1 from public.leads where regexp_replace(telefone,'[^0-9]','','g')=%s".

Definition insert_lead : text :=
  line_break ++ indent
  ++ of_string "insert into public.leads (nome, email, telefone, empresa, origem, status_codigo)"
  ++ line_break ++ indent ++ of_string "values (%s,%s,%s,%s,%s,%s)"
  ++ line_break ++ indent ++ of_string "returning id"
  ++ line_break ++ indent.

Definition insert_note : text :=
  of_string "insert into public.notas_lead (lead_id, texto) values (%s,%s) returning id".

Definition insert_task : text :=
  line_break ++ indent
  ++ of_string "insert into public.tarefas_lead (lead_id, tipo, titulo, status, data_limite)"
  ++ line_break ++ indent ++ of_string "values (%s,%s,%s,'aberta',%s) returning id"
  ++ line_break ++ indent.

Definition close_task : text :=
  of_string "update public.tarefas_lead set status='concluida', concluido_em=now() where id=%s returning id".

(** the indentation of the statement of the lookup by name *)
Definition margin : text := of_string "        ".

(** the statements of [resolve_lead_id_by_ref], and the one of [get_lead] *)
Definition lead_by_id : text :=
  of_string "select id, nome, email, empresa from public.leads where id = %s".

Definition lead_by_email : text :=
  of_string "select id, nome, email, empresa from public.leads where lower(email)=lower(%s)".

Definition lead_by_phone : text :=
  of_string "select id, nome, email, empresa from public.leads where regexp_replace(telefone, '[^0-9]', '', 'g')=%s".

Definition leads_like : text :=
  line_break ++ margin ++ of_string "select id, nome, email, empresa"
  ++ line_break ++ margin ++ of_string "from public.leads"
  ++ line_break ++ margin
  ++ of_string "where lower(nome) like %s or lower(empresa) like %s"
  ++ line_break ++ margin ++ of_string "order by criado_em desc"
  ++ line_break ++ margin ++ of_string "limit 5"
  ++ line_break ++ margin.

Definition lead_full_by_id : text :=
  of_string "select id, nome, email, telefone, empresa, status_codigo from public.leads where id=%s".

(** what [cur.execute] gets for a lookup *)
Definition query_statement (q : query) : statement :=
  match q with
  | LeadById ref => Statement lead_by_id [PText ref]
  | LeadByEmail ref => Statement lead_by_email [PText ref]
  | LeadByPhone digits => Statement lead_by_phone [PText digits]
  | LeadsLike like => Statement leads_like [PText like; PText like]
  | LeadFullById id => Statement lead_full_by_id [PValue id]
  end.

(** the columns a lookup selects, in the order of its statement *)
Definition selected (q : query) (r : lead_row) : row :=
  match q with
  | LeadFullById _ =>
      [ r_id r; r_nome r; r_email r; r_telefone r; r_empresa r;
        r_status_codigo r ]
  | _ => [ r_id r; r_nome r; r_email r; r_empresa r ]
  end.

(** the statement that [resolve_lead_id_by_ref] sends for a reference, if
    it sends one *)
Definition lookup_query (ref : text) : option query :=
  match ref with
  | [] => None
  | _ =>
      let ref := strip ref in
      if is_uuid ref then Some (LeadById ref)
      else if contains_char "@" ref then Some (LeadByEmail ref)
      else
        let digits := normalize_phone ref in
        if 8 <=? length digits then Some (LeadByPhone digits)
        else Some (LeadsLike (of_string "%" ++ lower ref ++ of_string "%"))
  end.

(** the arguments of [create_lead]; [status_codigo] is ["novo"] when the
    caller gives none *)
Record new_lead : Type := NewLead {
  n_nome : text;
  n_email : option text;
  n_telefone : option text;
  n_empresa : option text;
  n_origem : option text;
  n_status_codigo : text
}.

(** the optional arguments of [update_lead], in the order of the code *)
Record lead_changes : Type := LeadChanges {
  c_email : option text;
  c_telefone : option text;
  c_empresa : option text;
  c_status_codigo : option text;
  c_qualificado : option bool;
  c_ultimo_contato_em : option text;
  c_proxima_acao_em : option text
}.

(** [if v is not None: sets.append(assignment); vals.append(v)] *)
Definition set_field {A} (assignment : string) (inj : A -> param)
    (v : option A) (acc : list text * list param) : list text * list param :=
  match v with
  | Some x => (fst acc ++ [of_string assignment], snd acc ++ [inj x])
  | None => acc
  end.

(** [sets] and [vals] of [update_lead] before [atualizado_em] is added *)
Definition update_sets (u : lead_changes) : list text * list param :=
  let acc := ([], []) in
  let acc := set_field "email=%s" PText (c_email u) acc in
  let acc := set_field "telefone=%s" PText (c_telefone u) acc in
  let acc := set_field "empresa=%s" PText (c_empresa u) acc in
  let acc := set_field "status_codigo=%s" PText (c_status_codigo u) acc in
  let acc := set_field "qualificado=%s" PBool (c_qualificado u) acc in
  let acc := set_field "ultimo_contato_em=%s" PText (c_ultimo_contato_em u) acc in
  set_field "proxima_acao_em=%s" PText (c_proxima_acao_em u) acc.

(** the statement of [update_lead]: [sets] joined by a space and a comma,
    and [vals] followed by [lead_id] *)
Definition update_statement (sets : list text) (vals : list param)
    (lead_id : text) : statement :=
  Statement
    (of_string "update public.leads set " ++ join (of_string " ,") sets
     ++ of_string " where id=%s returning id")
    (vals ++ [PText lead_id]).

(** [clauses] and [vals] of [list_tasks] *)
Definition task_filter (lead_id : option value) (status : option text)
  : list text * list param :=
  let acc := ([], []) in
  let acc :=
    match found lead_id with
    | Some id => (fst acc ++ [of_string "lead_id=%s"], snd acc ++ [PValue id])
    | None => acc
    end in
  if given status
  then (fst acc ++ [of_string "status=%s"], snd acc ++ [opt_param status])
  else acc.

(** [("where " + " and ".join(clauses)) if clauses else ""] *)
Definition where_ (clauses : list text) : text :=
  match clauses with
  | [] => []
  | _ => of_string "where " ++ join (of_string " and ") clauses
  end.

Definition tasks_page (where_text : text) (vals : list param)
    (limit offset : Z) : statement :=
  Statement
    (of_string "select id, lead_id, titulo, status, data_limite, criado_em from public.tarefas_lead "
     ++ where_text ++ of_string " order by criado_em desc limit %s offset %s")
    (vals ++ [PInt limit; PInt offset]).

Definition tasks_count (where_text : text) (vals : list param) : statement :=
  Statement
    (of_string "select count(" ++ of_string "*"
     ++ of_string ") from public.tarefas_lead " ++ where_text)
    vals.

(** [tipo not in ("ligacao", "email", "reuniao", "tarefa")] *)
Definition valid_tipo (tipo : text) : bool :=
  existsb (fun t => text_eqb tipo (of_string t))
          [ "ligacao"; "email"; "reuniao"; "tarefa" ]%string.

Section Cursor.
Variables W N : Type.

(** the lookups of [resolve_lead_id_by_ref] *)
Variable db_select : W -> query -> res (list lead_row) * W.
(** one [cur.execute] and the rows it has to fetch; [Raise] when the
    connection or the statement raises *)
Variable db_execute : W -> statement -> res (list row) * W.
(** [d.isoformat()]; [None] when the value has no such method *)
Variable isoformat : value -> option value.

#[local] Abbreviation M := (Eff.M W N).

Definition execute (q : text) (ps : list param) : M (list row) :=
  call (fun w => db_execute w (Statement q ps)).

(** [cur.fetchone()[0]]: raises when there is no row, or no column *)
Definition first_column (rows : list row) : M value :=
  match rows with
  | (v :: _) :: _ => ret v
  | _ => raise
  end.

(** the answers of a tool whose reference names no single lead *)
Definition unresolved (matches : list lead_ctx) : tool_result :=
  match matches with
  | _ :: _ => ToolError several_found matches
  | [] => ToolError not_found []
  end.

(** a lookup of [create_lead] that must find nothing *)
Definition taken (wanted : bool) (q : text) (p : param) : M bool :=
  if wanted then
    let* rows := execute q [p] in
    ret (match rows with [] => false | _ => true end)
  else ret false.

(** the tool [create_lead] *)
Definition create_lead (a : new_lead) : M tool_result :=
  match n_nome a with
  | [] =>
      ret (ToolError (of_string "Campo 'nome' " ++ [ascii_of_nat 233]
                      ++ of_string " obrigat" ++ [ascii_of_nat 243]
                      ++ of_string "rio.") [])
  | _ =>
      let* st := execute status_check [PText (n_status_codigo a)] in
      match st with
      | [] =>
          ret (ToolError (of_string "status_codigo inv" ++ [ascii_of_nat 225]
                          ++ of_string "lido: " ++ n_status_codigo a) [])
      | _ =>
          let* dup := taken (given (n_email a)) email_check
                            (opt_param (n_email a)) in
          if dup then
            ret (ToolError (of_string "J" ++ [ascii_of_nat 225]
                            ++ of_string " existe lead com este email.") [])
          else
            let* dup :=
              taken (given (n_telefone a)) phone_check
                    (PText (normalize_phone
                              (match n_telefone a with Some t => t | None => [] end))) in
            if dup then
              ret (ToolError (of_string "J" ++ [ascii_of_nat 225]
                              ++ of_string " existe lead com este telefone.") [])
            else
              let* rows :=
                execute insert_lead
                  [ PText (n_nome a); opt_param (n_email a);
                    opt_param (n_telefone a); opt_param (n_empresa a);
                    opt_param (n_origem a); PText (n_status_codigo a) ] in
              let* lead_id := first_column rows in
              ret (ToolOk (of_string "Lead criado")
                     [ ("lead_id", lead_id);
                       ("nome", VStr (to_string (n_nome a)));
                       ("email", opt_value (n_email a));
                       ("empresa", opt_value (n_empresa a)) ])
      end
  end.

(** the tool [update_lead] *)
Definition update_lead (lead_id : text) (u : lead_changes) : M tool_result :=
  if negb (is_uuid lead_id) then
    ret (ToolError (of_string "lead_id inv" ++ [ascii_of_nat 225]
                    ++ of_string "lido") [])
  else
    let '(sets, vals) := update_sets u in
    match sets with
    | [] => ret (ToolError (of_string "Nenhum campo para atualizar") [])
    | _ =>
        let sets := sets ++ [of_string "atualizado_em=now()"] in
        let* valid :=
          match c_status_codigo u with
          | Some st =>
              let* rows := execute status_check [PText st] in
              ret (match rows with [] => false | _ => true end)
          | None => ret true
          end in
        if valid then
          let q := update_statement sets vals lead_id in
          let* rows := execute (sql q) (params q) in
          match rows with
          | [] => ret (ToolError not_found [])
          | _ =>
              ret (ToolOk (of_string "Lead atualizado")
                     [ ("lead_id", VStr (to_string lead_id)) ])
          end
        else
          ret (ToolError
                 (of_string "status_codigo inv" ++ [ascii_of_nat 225]
                  ++ of_string "lido: "
                  ++ match c_status_codigo u with Some st => st | None => [] end)
                 [])
    end.

(** the tool [add_note_to_lead] *)
Definition add_note_to_lead (lead_ref_ou_id texto : text) : M tool_result :=
  match texto with
  | [] =>
      ret (ToolError (of_string "Texto " ++ [ascii_of_nat 233]
                      ++ of_string " obrigat" ++ [ascii_of_nat 243]
                      ++ of_string "rio") [])
  | _ =>
      let* '(lead, matches) := resolve_lead_id_by_ref W N db_select lead_ref_ou_id in
      match found lead with
      | None => ret (unresolved matches)
      | Some lead_id =>
          let* rows := execute insert_note [PValue lead_id; PText texto] in
          let* note_id := first_column rows in
          ret (ToolOk (of_string "Nota adicionada")
                 [ ("note_id", note_id); ("lead_id", lead_id) ])
      end
  end.

(** the tool [create_task]; [tipo] is ["tarefa"] when the caller gives
    none *)
Definition create_task (lead_ref_ou_id titulo : text)
    (data_limite : option text) (tipo : text) : M tool_result :=
  match titulo with
  | [] =>
      ret (ToolError (of_string "T" ++ [ascii_of_nat 237] ++ of_string "tulo "
                      ++ [ascii_of_nat 233] ++ of_string " obrigat"
                      ++ [ascii_of_nat 243] ++ of_string "rio") [])
  | _ =>
      if negb (valid_tipo tipo) then
        ret (ToolError (of_string "tipo inv" ++ [ascii_of_nat 225]
                        ++ of_string "lido") [])
      else
        let* '(lead, matches) := resolve_lead_id_by_ref W N db_select lead_ref_ou_id in
        match found lead with
        | None => ret (unresolved matches)
        | Some lead_id =>
            let* rows :=
              execute insert_task
                [ PValue lead_id; PText tipo; PText titulo;
                  opt_param data_limite ] in
            let* tarefa_id := first_column rows in
            ret (ToolOk (of_string "Tarefa criada")
                   [ ("tarefa_id", tarefa_id); ("lead_id", lead_id) ])
        end
  end.

(** the tool [complete_task] *)
Definition complete_task (tarefa_id : text) : M tool_result :=
  if negb (is_uuid tarefa_id) then
    ret (ToolError (of_string "tarefa_id inv" ++ [ascii_of_nat 225]
                    ++ of_string "lido") [])
  else
    let* rows := execute close_task [PText tarefa_id] in
    match rows with
    | [] =>
        ret (ToolError (of_string "Tarefa n" ++ [ascii_of_nat 227]
                        ++ of_string "o encontrada") [])
    | _ =>
        ret (ToolOk (of_string "Tarefa conclu" ++ [ascii_of_nat 237]
                     ++ of_string "da")
               [ ("tarefa_id", VStr (to_string tarefa_id));
                 ("status", VStr "concluida") ])
    end.

(** [r[i].isoformat() if r[i] else None] *)
Definition iso_or_none (v : value) : M value :=
  if truthy v then
    match isoformat v with Some d => ret d | None => raise end
  else ret VNone.

(** one item of [list_tasks]; a row with fewer than six columns raises *)
Definition task_item (r : row) : M value :=
  match r with
  | id :: lead_id :: titulo :: status :: data_limite :: criado_em :: _ =>
      let* limite := iso_or_none data_limite in
      let* criado := iso_or_none criado_em in
      ret (VDict [ ("tarefa_id", id); ("lead_id", lead_id);
                   ("titulo", titulo); ("status", status);
                   ("data_limite", limite); ("criado_em", criado) ])
  | _ => raise
  end.

Fixpoint task_items (rows : list row) : M (list value) :=
  match rows with
  | [] => ret []
  | r :: rest =>
      let* item := task_item r in
      let* items := task_items rest in
      ret (item :: items)
  end.

(** [list_tasks] once the lead, if any was asked for, is known *)
Definition list_tasks_of (lead_id : option value) (status : option text)
    (limit offset : Z) : M tool_result :=
  let '(clauses, vals) := task_filter lead_id status in
  let page := tasks_page (where_ clauses) vals limit offset in
  let* rows := execute (sql page) (params page) in
  let total_q := tasks_count (where_ clauses) vals in
  let* counted := execute (sql total_q) (params total_q) in
  let* total := first_column counted in
  let* items := task_items rows in
  ret (ToolOk (decimal (length items) ++ of_string " tarefas")
         [ ("items", VList items); ("total", total) ]).

(** the tool [list_tasks]; [limit] and [offset] are 20 and 0 when the
    caller gives none *)
Definition list_tasks (lead_ref_ou_id status : option text)
    (limit offset : Z) : M tool_result :=
  if given lead_ref_ou_id then
    let* '(lead, matches) :=
      resolve_lead_id_by_ref W N db_select
        (match lead_ref_ou_id with Some r => r | None => [] end) in
    match found lead with
    | None => ret (unresolved matches)
    | Some lead_id => list_tasks_of (Some lead_id) status limit offset
    end
  else list_tasks_of None status limit offset.

End Cursor.

End Crm.

(** ** [workflow.py] and [helpers.py]: the state of a turn *)

Module State.
Import PyStr Py Tools.

Inductive msg_kind : Type := Human | Assistant | System | ToolMsg.

(** a block of a multimodal content: [{"type": "text", "text": ...}] or
    anything else *)
Inductive block : Type :=
| TextBlock (t : text)
| OtherBlock.

Inductive content : Type :=
| CStr (t : text)
| CBlocks (bs : list block)
| CDict (d : dict).

Record message : Type := Message {
  m_kind : msg_kind;
  m_content : content;
  m_name : text
}.

(** [ResponseSegment]: one entry of [context.ai_responses] *)
Record segment : Type := Segment {
  seg_intent : string;
  seg_text : text;
  seg_ok : bool;
  seg_data : dict
}.

(** an entry of [context.pending_actions]: [{"intent": ..., "slots": ...}] *)
Record action : Type := Action {
  a_intent : string;
  a_slots : dict
}.

(** what the planner returns for the slots of an action *)
Inductive raw_slots : Type :=
| SlotBlobs (blobs : list value)
| SlotDict (d : dict).

(** an action of the plan as [plan_llm.invoke] returns it; intents are
    strings, as [PlanAction] declares *)
Record plan_action : Type := PlanAction {
  pa_intent : string;
  pa_slots : raw_slots
}.

(** [state["context"]].  A key that is absent reads as the empty list or as
    [False]; no code path tells the two apart. *)
Record ctx : Type := Ctx {
  pending_actions : list action;
  ai_responses : list segment;
  router_missing : list string;
  router_blocked : bool;
  need_lead_resolution : bool;
  lead_resolution_attempted : bool;
  replanned : bool;
  matches : list lead_ctx;
  planner_debug : list plan_action;
  planner_error : bool
}.

Definition empty_ctx : ctx := Ctx [] [] [] false false false false [] [] false.

(** [AgentState]; an absent [intent] or [lead_atual] is [None], absent
    [errors] and [messages] are empty.  [slots] is what
    [state.get("slots") or {}] reads, and [has_slots] tells whether the key
    is there: [state["slots"]] raises when it is not *)
Record state : Type := St {
  messages : list message;
  intent : option string;
  slots : dict;
  lead_atual : option lead_ctx;
  errors : list text;
  context : ctx;
  has_slots : bool
}.

Definition set_pending (c : ctx) (q : list action) : ctx :=
  Ctx q (ai_responses c) (router_missing c) (router_blocked c)
      (need_lead_resolution c) (lead_resolution_attempted c) (replanned c)
      (matches c) (planner_debug c) (planner_error c).

Definition set_ai_responses (c : ctx) (r : list segment) : ctx :=
  Ctx (pending_actions c) r (router_missing c) (router_blocked c)
      (need_lead_resolution c) (lead_resolution_attempted c) (replanned c)
      (matches c) (planner_debug c) (planner_error c).

Definition set_router (c : ctx) (missing : list string) (blocked : bool) : ctx :=
  Ctx (pending_actions c) (ai_responses c) missing blocked
      (need_lead_resolution c) (lead_resolution_attempted c) (replanned c)
      (matches c) (planner_debug c) (planner_error c).

Definition set_blocked (c : ctx) (blocked : bool) : ctx :=
  set_router c (router_missing c) blocked.

Definition set_need (c : ctx) (need : bool) : ctx :=
  Ctx (pending_actions c) (ai_responses c) (router_missing c) (router_blocked c)
      need (lead_resolution_attempted c) (replanned c)
      (matches c) (planner_debug c) (planner_error c).

Definition set_attempted (c : ctx) (b : bool) : ctx :=
  Ctx (pending_actions c) (ai_responses c) (router_missing c) (router_blocked c)
      (need_lead_resolution c) b (replanned c)
      (matches c) (planner_debug c) (planner_error c).

Definition set_replanned (c : ctx) (b : bool) : ctx :=
  Ctx (pending_actions c) (ai_responses c) (router_missing c) (router_blocked c)
      (need_lead_resolution c) (lead_resolution_attempted c) b
      (matches c) (planner_debug c) (planner_error c).

Definition set_matches (c : ctx) (m : list lead_ctx) : ctx :=
  Ctx (pending_actions c) (ai_responses c) (router_missing c) (router_blocked c)
      (need_lead_resolution c) (lead_resolution_attempted c) (replanned c)
      m (planner_debug c) (planner_error c).

Definition set_planner_debug (c : ctx) (d : list plan_action) : ctx :=
  Ctx (pending_actions c) (ai_responses c) (router_missing c) (router_blocked c)
      (need_lead_resolution c) (lead_resolution_attempted c) (replanned c)
      (matches c) d (planner_error c).

Definition set_planner_error (c : ctx) : ctx :=
  Ctx (pending_actions c) (ai_responses c) (router_missing c) (router_blocked c)
      (need_lead_resolution c) (lead_resolution_attempted c) (replanned c)
      (matches c) (planner_debug c) true.

(** the updates a node returns, applied to the state: a key that the node
    does not return keeps its value; [messages] are appended *)
Definition with_context (s : state) (c : ctx) : state :=
  St (messages s) (intent s) (slots s) (lead_atual s) (errors s) c (has_slots s).

Definition with_slots (s : state) (d : dict) : state :=
  St (messages s) (intent s) d (lead_atual s) (errors s) (context s) true.

Definition with_intent (s : state) (i : option string) : state :=
  St (messages s) i (slots s) (lead_atual s) (errors s) (context s) (has_slots s).

Definition with_lead (s : state) (l : lead_ctx) : state :=
  St (messages s) (intent s) (slots s) (Some l) (errors s) (context s)
     (has_slots s).

Definition with_errors (s : state) (e : list text) : state :=
  St (messages s) (intent s) (slots s) (lead_atual s) e (context s)
     (has_slots s).

Definition add_messages (s : state) (m : list message) : state :=
  St (messages s ++ m) (intent s) (slots s) (lead_atual s) (errors s) (context s)
     (has_slots s).

End State.

(** ** [workflow.py]: the queue of pending actions *)

Module Queue.
Import PyStr Py Tools State.

Definition in_list (x : string) (l : list string) : bool :=
  existsb (String.eqb x) l.

(** [intent in S] for the state's intent, [None] when absent *)
Definition in_set (i : option string) (l : list string) : bool :=
  match i with Some x => in_list x l | None => false end.

(** [intent == name] *)
Definition intent_is (i : option string) (name : string) : bool :=
  match i with Some x => String.eqb x name | None => false end.

Definition LEAD_INTENTS : list string :=
  [ "lead_criar"; "lead_obter"; "lead_buscar"; "lead_listar"; "lead_atualizar" ].
Definition NOTE_INTENTS : list string := [ "nota_adicionar"; "nota_listar" ].
Definition TASK_INTENTS : list string :=
  [ "tarefa_criar"; "tarefa_concluir"; "tarefa_listar" ].
Definition PROPOSAL_INTENTS : list string :=
  [ "proposta_rascunhar"; "proposta_adicionar_item"; "proposta_calcular_totais";
    "proposta_listar"; "proposta_exportar"; "proposta_atualizar_corpo" ].

Definition INTENTS_REQUIRING_LEAD : list string :=
  [ "lead_obter"; "lead_atualizar"; "nota_adicionar"; "nota_listar";
    "tarefa_criar"; "tarefa_listar"; "proposta_rascunhar"; "proposta_listar" ].

(** [REQUIRED_SLOTS.get(intent, [])] *)
Definition REQUIRED_SLOTS (i : string) : list string :=
  if String.eqb i "lead_criar" then [ "nome" ]
  else if String.eqb i "lead_obter" then [ "lead_ref_ou_id" ]
  else if String.eqb i "lead_buscar" then [ "consulta" ]
  else if String.eqb i "lead_atualizar" then [ "lead_ref_ou_id" ]
  else if String.eqb i "nota_adicionar" then [ "texto" ]
  else if String.eqb i "tarefa_criar" then [ "titulo" ]
  else if String.eqb i "tarefa_concluir" then [ "tarefa_id" ]
  else if String.eqb i "proposta_rascunhar" then [ "titulo" ]
  else if String.eqb i "proposta_adicionar_item"
       then [ "proposta_id"; "descricao"; "quantidade"; "preco_unitario" ]
  else if String.eqb i "proposta_calcular_totais" then [ "proposta_id" ]
  else if String.eqb i "proposta_exportar" then [ "proposta_id"; "formato" ]
  else if String.eqb i "proposta_atualizar_corpo" then [ "proposta_id"; "corpo_md" ]
  else [].

(** [lead_atual and lead_atual.get("lead_id")]: the lead already resolved *)
Definition resolved_lead (l : option lead_ctx) : option lead_ctx :=
  match l with
  | Some c => if truthy (lead_id c) then Some c else None
  | None => None
  end.

Definition has_lead (l : option lead_ctx) : bool :=
  match resolved_lead l with Some _ => true | None => false end.

(** the order of [sorted(slots.items())]: keys are distinct, so the order
    of the pairs is the order of their keys *)
Definition item_le (a b : string * value) : Prop := String.le (fst a) (fst b).

#[global] Instance item_le_dec : RelDecision item_le.
Proof. intros a b. unfold item_le. apply _. Defined.

(** [sorted(d.items())] *)
Definition sorted_items (d : dict) : dict := merge_sort item_le d.

(** hashing the items of the key: the first unhashable value raises *)
Fixpoint hashed_items (d : dict) : option (list (string * hval)) :=
  match d with
  | [] => Some []
  | (k, v) :: d' =>
      match hashed v, hashed_items d' with
      | Some h, Some hs => Some ((k, h) :: hs)
      | _, _ => None
      end
  end.

(** a dedup key as hashing and [==] see it *)
Definition key : Type := string * list (string * hval).

#[global] Instance hval_eq_dec : EqDecision hval.
Proof. solve_decision. Defined.

(** [k(x)] = [(x.get("intent"), tuple(sorted(x.get("slots").items())))],
    taken at the moment it is hashed; [None] when hashing raises *)
Definition dedup_key (x : action) : option key :=
  match hashed_items (sorted_items (a_slots x)) with
  | Some items => Some (a_intent x, items)
  | None => None
  end.

(** [keys = {k(x) for x in pending}] *)
Fixpoint queue_keys (pending : list action) : option (list key) :=
  match pending with
  | [] => Some []
  | x :: rest =>
      match dedup_key x, queue_keys rest with
      | Some k, Some ks => Some (k :: ks)
      | _, _ => None
      end
  end.

(** the loop [for act in new_actions: if k(act) not in keys: ...].  The
    result is the queue and whether the loop ran to its end; when a key
    cannot be hashed the loop raises and the queue keeps what was appended
    before. *)
Fixpoint merge_loop (keys : list key) (pending new_actions : list action)
  : list action * bool :=
  match new_actions with
  | [] => (pending, true)
  | act :: rest =>
      match dedup_key act with
      | None => (pending, false)
      | Some k =>
          if bool_decide (k ∈ keys) then merge_loop keys pending rest
          else merge_loop (k :: keys) (pending ++ [act]) rest
      end
  end.

(** lines 402-408 of [prepare_plan] *)
Definition merge_actions (pending new_actions : list action)
  : list action * bool :=
  match queue_keys pending with
  | Some keys => merge_loop keys pending new_actions
  | None => (pending, false)
  end.

(** lines 950-966 of [update_context]: the same merge, skipping the intents
    already reported in this turn *)
Fixpoint merge_loop_executed (executed : list string) (keys : list key)
    (pending new_actions : list action) : list action * bool :=
  match new_actions with
  | [] => (pending, true)
  | act :: rest =>
      if in_list (a_intent act) executed
      then merge_loop_executed executed keys pending rest
      else
        match dedup_key act with
        | None => (pending, false)
        | Some k =>
            if bool_decide (k ∈ keys)
            then merge_loop_executed executed keys pending rest
            else merge_loop_executed executed (k :: keys) (pending ++ [act]) rest
        end
  end.

Definition merge_actions_executed (executed : list string)
    (pending new_actions : list action) : list action * bool :=
  match queue_keys pending with
  | Some keys => merge_loop_executed executed keys pending new_actions
  | None => (pending, false)
  end.

(** [has_pending] *)
Definition has_pending (s : state) : bool :=
  match pending_actions (context s) with [] => false | _ => true end.

(** [push_ai_response] *)
Definition push_ai_response (c : ctx) (i : string) (t : text) (ok : bool)
    (data : dict) : ctx :=
  set_ai_responses c (ai_responses c ++ [Segment i t ok data]).

End Queue.

(** ** [workflow.py]: the nodes of the graph *)

Module Workflow.
Import PyStr Re Py Eff Tools State Queue Helpers.
Local Open Scope eff_scope.

(** the nodes of the graph, [END] included *)
Inductive node : Type :=
| parse_and_classify_node
| prepare_plan_node
| router
| resolve_lead_node
| leads_agent
| handle_notes_node
| handle_tasks_node
| proposals_agent
| update_context_node
| execute_pending_node
| respond_final_node
| END.

(** the tools called by the handlers and by the final answer *)
Inductive tool_name : Type :=
| add_note_to_lead
| list_notes
| create_task
| complete_task
| list_tasks
| list_lead_status.

(** [extract_text_content] *)
Definition extract_text_content (m : message) : text :=
  match m_content m with
  | CStr t => t
  | CBlocks bs =>
      match List.find (fun b => match b with TextBlock _ => true | _ => false end) bs with
      | Some (TextBlock t) => t
      | _ => []
      end
  | CDict _ => []
  end.

(** [ensure_context]: a copy of the context; the model has no sharing to
    copy *)
Definition ensure_context (s : state) : ctx := context s.

(** [lead_context_from_result] *)
Definition lead_context_from_result (r : option tool_result) : option lead_ctx :=
  match r with
  | Some (ToolOk _ data) =>
      if truthy (dget data "lead_id")
      then Some (LeadCtx (dget data "lead_id") (dget data "nome")
                         (dget data "email") (dget data "empresa"))
      else None
  | _ => None
  end.

(** [a or b] *)
Definition por (a b : value) : value := if truthy a then a else b.

Definition human (t : text) : message := Message Human (CStr t) [].
Definition system (t : text) : message := Message System (CStr t) [].
Definition ai (t : text) : message := Message Assistant (CStr t) [].

Definition is_human (m : message) : bool :=
  match m_kind m with Human => true | _ => false end.

(** the text of the latest [HumanMessage], empty when there is none *)
Definition last_human_text (ms : list message) : text :=
  match List.find is_human (rev ms) with
  | Some m => extract_text_content m
  | None => []
  end.

(** [messages[-1]] *)
Definition last_message (ms : list message) : option message := last ms.

Section Nodes.

(** the outside world *)
Variable W : Type.
(** [str(v)] for a value that is not a string *)
Variable py_str : value -> string.
(** [json.loads] and [ast.literal_eval]; [None] when they raise *)
Variable json_loads : text -> option value.
Variable literal_eval : text -> option value.
(** the prompts of [prompt.py] *)
Variables PARSER_SYSTEM_PROMPT PLAN_SYSTEM_PROMPT FINALIZER_SYSTEM_PROMPT : text.
(** [parser_llm.invoke]: the intent and the [name=value] strings *)
Variable parser_llm : W -> list message -> res (string * list text) * W.
(** [plan_llm.invoke]: the actions of the plan *)
Variable plan_llm : W -> list message -> res (list plan_action) * W.
(** [finalizer_model.invoke] *)
Variable finalizer_model : W -> list message -> res message * W.
(** the two ReAct subgraphs: the messages they add *)
Variable leads_agent_graph : W -> state -> res (list message) * W.
Variable proposals_agent_graph : W -> state -> res (list message) * W.
(** the database behind the lead lookup, and the other tools *)
Variable db_select : W -> query -> res (list lead_row) * W.
Variable tool_invoke : W -> tool_name -> dict -> res tool_result * W.
(** [date.today()] and the day after, in ISO format *)
Variable today_iso : W -> text.
Variable tomorrow_iso : W -> text.

#[local] Abbreviation M := (Eff.M W node).

(** [str(v)] *)
Definition str_of (v : value) : string :=
  match v with VStr x => x | _ => py_str v end.

Definition str_ (v : value) : text := of_string (str_of v).

Definition get_lead_tool (ref : text) : M tool_result := Tools.get_lead W node db_select ref.
Definition resolve_lead_tool (ref : text) : M tool_result :=
  Tools.resolve_lead W node db_select ref.

Definition invoke (t : tool_name) (args : dict) : M tool_result :=
  call (fun w => tool_invoke w t args).

(** [get_lead_context] *)
Definition get_lead_context (ref : value) : M (option lead_ctx) :=
  if truthy ref then
    let* r := try_ (get_lead_tool (str_ ref)) in
    ret (lead_context_from_result r)
  else ret None.

(** the [name=value] strings of the classifier, as a dictionary *)
Definition slots_of_pairs (pairs : list text) : dict :=
  fold_left
    (fun d p =>
       if contains_char "=" p then
         let '(k, v) := split_once "=" p in
         dset d (to_string (strip k)) (VStr (to_string (strip v)))
       else d)
    pairs [].

(** node [parse_and_classify] *)
Definition parse_and_classify (s : state) : M state :=
  let* '(i, pairs) :=
    call (fun w => parser_llm w (system PARSER_SYSTEM_PROMPT :: messages s)) in
  ret (with_slots (with_intent s (Some i)) (slots_of_pairs pairs)).

(** [primary_intent and intent_a == primary_intent] *)
Definition same_as_primary (primary : option string) (i : string) : bool :=
  match primary with
  | Some p => negb (String.eqb p EmptyString) && String.eqb i p
  | None => false
  end.

(** the slots of a planned action as a dictionary *)
Definition norm_slots_of (raw : raw_slots) : dict :=
  match raw with
  | SlotDict d => d
  | SlotBlobs blobs => Plan.slots_strings_to_dict json_loads blobs
  end.

(** the default currency and the injection of the resolved lead *)
Definition with_defaults (lead : option lead_ctx) (i : string) (d : dict) : dict :=
  let d :=
    if String.eqb i "proposta_rascunhar" && negb (dhas d "moeda")
    then dset d "moeda" (VStr "BRL") else d in
  if in_list i INTENTS_REQUIRING_LEAD && negb (truthy (dget d "lead_ref_ou_id"))
  then match resolved_lead lead with
       | Some l => dset d "lead_ref_ou_id" (VStr (str_of (lead_id l)))
       | None => d
       end
  else d.

(** the loop of [prepare_plan] over the actions of the plan *)
Fixpoint plan_new_actions (primary : option string) (lead : option lead_ctx)
    (plan : list plan_action) : list action :=
  match plan with
  | [] => []
  | a :: rest =>
      let i := pa_intent a in
      if same_as_primary primary i then plan_new_actions primary lead rest
      else if String.eqb i "lead_criar" && has_lead lead
      then plan_new_actions primary lead rest
      else Action i (with_defaults lead i (norm_slots_of (pa_slots a)))
           :: plan_new_actions primary lead rest
  end.

(** the first [lead_criar] of the queue and the queue without it *)
Fixpoint pop_lead_criar (q : list action) : option (action * list action) :=
  match q with
  | [] => None
  | a :: rest =>
      if String.eqb (a_intent a) "lead_criar" then Some (a, rest)
      else match pop_lead_criar rest with
           | Some (x, rest') => Some (x, a :: rest')
           | None => None
           end
  end.

(** an entry of [planner_debug]: [{"intent": x.intent, "slots":
    list(x.slots or [])}], so the slot strings as they are, and of a
    dictionary its keys *)
Definition debug_entry (x : plan_action) : plan_action :=
  PlanAction (pa_intent x)
    (SlotBlobs match pa_slots x with
               | SlotBlobs blobs => blobs
               | SlotDict d => map (fun kv => VStr (fst kv)) d
               end).

(** steps 1 and 2 of [prepare_plan]: the context after planning and the
    freshly merged queue *)
Definition plan_and_merge (s : state) : M (ctx * list action) :=
  let c := ensure_context s in
  let pending := pending_actions c in
  let* _ := emit (EvPlanner InitialPlan) in
  let* r := try_ (call (fun w => plan_llm w (system PLAN_SYSTEM_PROMPT :: messages s))) in
  let '(c, pending) :=
    match r with
    | Some plan =>
        let c := set_planner_debug c (map debug_entry plan) in
        let new_actions := plan_new_actions (intent s) (lead_atual s) plan in
        let '(pending, completed) := merge_actions pending new_actions in
        (if completed then c else set_planner_error c, pending)
    | None => (set_planner_error c, pending)
    end in
  let c := match pending with [] => c | _ => set_pending c pending end in
  ret (c, pending).

(** the current intent needs a lead and none is referred to or resolved *)
Definition needs_lead (s : state) : bool :=
  in_set (intent s) INTENTS_REQUIRING_LEAD
  && negb (truthy (dget (slots s) "lead_ref_ou_id") || has_lead (lead_atual s)).

(** node [prepare_plan] *)
Definition prepare_plan (s : state) : M state :=
  let* '(c, pending) := plan_and_merge s in
  if needs_lead s then
    match pop_lead_criar pending with
    | Some (lead_action, rest) =>
        ret (with_slots
               (with_intent (with_context s (set_pending c rest)) (Some "lead_criar"))
               (a_slots lead_action))
    | None => ret (with_context s c)
    end
  else ret (with_context s c).

(** [value in (None, empty string, empty list)] *)
Definition is_blank (v : value) : bool :=
  match v with
  | VNone => true
  | VStr s => String.eqb s EmptyString
  | VList [] => true
  | _ => false
  end.

(** the loop of [router_node] over the required slots *)
Definition missing_required (s : state) (required : list string) : list string :=
  List.filter
    (fun name =>
       if String.eqb name "lead_ref_ou_id"
          && (truthy (dget (slots s) name) || has_lead (lead_atual s))
       then false
       else is_blank (dget (slots s) name))
    required.

(** [sorted(set(missing))] *)
Definition sorted_set (l : list string) : list string :=
  merge_sort String.le (remove_dups l).

(** [', '.join(l)] *)
Fixpoint join_comma (l : list string) : text :=
  match l with
  | [] => []
  | [x] => of_string x
  | x :: rest => of_string x ++ of_string ", " ++ join_comma rest
  end.

(** [str(intent)] *)
Definition intent_text (i : option string) : text :=
  match i with Some x => of_string x | None => of_string "None" end.

(** node [router_node] *)
Definition router_node (s : state) : state :=
  let i := intent s in
  let c := ensure_context s in
  let required :=
    match i with Some x => REQUIRED_SLOTS x | None => REQUIRED_SLOTS EmptyString end in
  let missing := missing_required s required in
  let '(slots', missing) :=
    if in_set i INTENTS_REQUIRING_LEAD
       && negb (truthy (dget (slots s) "lead_ref_ou_id"))
    then match resolved_lead (lead_atual s) with
         | Some l =>
             (dset (slots s) "lead_ref_ou_id" (VStr (str_of (lead_id l))), missing)
         | None => (slots s, missing ++ ["lead_ref_ou_id"])
         end
    else (slots s, missing) in
  let '(errors', c) :=
    match missing with
    | _ :: _ =>
        let e := of_string "Para " ++ intent_text i ++ of_string " preciso de: "
                 ++ join_comma (sorted_set missing) ++ of_string "." in
        let c := set_router c (sorted_set missing) true in
        let c :=
          if in_set i INTENTS_REQUIRING_LEAD
             && in_list "lead_ref_ou_id" missing
             && negb (lead_resolution_attempted c)
          then set_need c true else c in
        (errors s ++ [e], c)
    | [] => (errors s, set_need (set_router c [] false) false)
    end in
  let c :=
    if in_set i INTENTS_REQUIRING_LEAD
       && truthy (dget slots' "lead_ref_ou_id")
       && negb (has_lead (lead_atual s))
       && negb (lead_resolution_attempted c)
    then set_need c true else c in
  with_errors (with_context (with_slots s slots') c) errors'.

(** [route_intent]: the node after the router *)
Definition route_intent (s : state) : node :=
  if need_lead_resolution (context s) then resolve_lead_node
  else if in_set (intent s) LEAD_INTENTS then leads_agent
  else if in_set (intent s) NOTE_INTENTS then handle_notes_node
  else if in_set (intent s) TASK_INTENTS then handle_tasks_node
  else if in_set (intent s) PROPOSAL_INTENTS then proposals_agent
  else respond_final_node.

(** the context of a resolution that ends unblocked *)
Definition unblocked (c : ctx) : ctx := set_blocked (set_need c false) false.

(** the context of a resolution that ends on several candidates *)
Definition ambiguous (c : ctx) (ms : list lead_ctx) : ctx :=
  set_blocked (set_need (set_matches c ms) false) true.

(** [resp.get("error") and resp["error"].get("matches")] *)
Definition matches_of (r : option tool_result) : list lead_ctx :=
  match r with
  | Some (ToolError _ ms) => ms
  | _ => []
  end.

(** the state after a successful resolution *)
Definition resolved (s : state) (c : ctx) (slots' : dict) (l : lead_ctx) : state :=
  with_context (with_lead (with_slots s slots') l) (unblocked c).

(** step 4 of [resolve_lead]: the name and the company of the slots *)
Definition name_term (d : dict) : text :=
  let parts :=
    (if truthy (dget d "nome") then [str_ (dget d "nome")] else [])
    ++ (if truthy (dget d "empresa") then [str_ (dget d "empresa")] else []) in
  strip (match parts with
         | [] => []
         | [x] => x
         | x :: y :: _ => x ++ of_string " " ++ y
         end).

(** steps 4 and 5 of [resolve_lead] *)
Definition resolve_by_name (s : state) (c : ctx) : M state :=
  let d := slots s in
  let term := name_term d in
  match term with
  | [] => ret (with_slots (with_context s (unblocked c)) d)
  | _ =>
      let* resp := try_ (resolve_lead_tool term) in
      let* found :=
        match resp with
        | Some (ToolOk _ data) =>
            if truthy (dget data "lead_id") then
              let id := str_of (dget data "lead_id") in
              let* l := get_lead_context (VStr id) in
              ret (option_map (fun l => (id, l)) l)
            else ret None
        | _ => ret None
        end in
      match found with
      | Some (id, l) => ret (resolved s c (dset d "lead_ref_ou_id" (VStr id)) l)
      | None =>
          match matches_of resp with
          | _ :: _ => ret (with_context s (ambiguous c (matches_of resp)))
          | [] => ret (with_slots (with_context s (unblocked c)) d)
          end
      end
  end.

(** step 3 of [resolve_lead], then the rest *)
Definition resolve_by_text (s : state) (c : ctx) : M state :=
  let text_ :=
    match last_message (messages s) with
    | Some m => extract_text_content m
    | None => []
    end in
  match extract_ref_from_text text_ with
  | Some ref_direct =>
      let* resp := try_ (get_lead_tool ref_direct) in
      match lead_context_from_result resp with
      | Some l =>
          ret (resolved s c
                 (dset (slots s) "lead_ref_ou_id" (VStr (str_of (lead_id l)))) l)
      | None => resolve_by_name s c
      end
  | None => resolve_by_name s c
  end.

(** node [resolve_lead] *)
Definition resolve_lead (s : state) : M state :=
  let c := set_attempted (ensure_context s) true in
  if has_lead (lead_atual s) then ret (with_context s (unblocked c))
  else
    let ref_slot := dget (slots s) "lead_ref_ou_id" in
    if truthy ref_slot then
      let* resp := try_ (get_lead_tool (str_ ref_slot)) in
      match lead_context_from_result resp with
      | Some l =>
          ret (resolved s c
                 (dset (slots s) "lead_ref_ou_id" (VStr (str_of (lead_id l)))) l)
      | None =>
          match matches_of resp with
          | _ :: _ => ret (with_context s (ambiguous c (matches_of resp)))
          | [] => resolve_by_text s c
          end
      end
    else resolve_by_text s c.

(** node [execute_pending] *)
Definition execute_pending (s : state) : state :=
  let c := ensure_context s in
  match pending_actions c with
  | [] => s
  | action :: rest =>
      let act_slots := a_slots action in
      let act_slots :=
        if truthy (dget act_slots "lead_ref_ou_id") then act_slots
        else match resolved_lead (lead_atual s) with
             | Some la => dset act_slots "lead_ref_ou_id" (VStr (str_of (lead_id la)))
             | None => act_slots
             end in
      with_slots
        (with_intent (with_context s (set_pending c rest)) (Some (a_intent action)))
        act_slots
  end.

(** [slots.get("lead_ref_ou_id") or (lead_atual.get("lead_id") if lead_atual
    else None)] *)
Definition lead_ref_of (s : state) : value :=
  por (dget (slots s) "lead_ref_ou_id")
      (match lead_atual s with Some l => lead_id l | None => VNone end).

(** a handler's answer: one [AIMessage], and the context when it changed *)
Definition say (s : state) (t : text) : state := add_messages s [ai t].

Definition report (s : state) (i : string) (seg_t : text) (ok : bool)
    (data : dict) (msg : text) : state :=
  add_messages
    (with_context s (push_ai_response (ensure_context s) i seg_t ok data))
    [ai msg].

(** [result.get("data", {}).get("items", [])]; the tools return a list *)
Definition items_of (r : tool_result) : list value :=
  match r with
  | ToolOk _ data => match dget data "items" with VList l => l | _ => [] end
  | ToolError _ _ => []
  end.

Definition count_of (l : list value) : value := VInt (Z.of_nat (length l)).

Definition data_of (r : tool_result) : dict :=
  match r with ToolOk _ data => data | ToolError _ _ => [] end.

(** node [handle_notes] *)
Definition handle_notes (s : state) : M state :=
  match intent s with
  | None => raise
  | Some i =>
      if negb (has_slots s) then raise else
      let lead_ref := lead_ref_of s in
      if negb (truthy lead_ref)
      then ret (say s (of_string "Preciso de um lead para trabalhar com notas."))
      else if String.eqb i "nota_adicionar" then
        let texto := dget (slots s) "texto" in
        if negb (truthy texto) then ret (say s (of_string "Preciso do texto da nota."))
        else
          let* result :=
            invoke add_note_to_lead
              [ ("lead_ref_ou_id", VStr (str_of lead_ref)); ("texto", texto) ] in
          match result with
          | ToolError msg _ =>
              ret (report s i msg false [ ("lead_ref", VStr (str_of lead_ref)) ] msg)
          | ToolOk _ _ =>
              ret (report s i (of_string "Nota registrada com sucesso.") true
                     [ ("lead_ref", VStr (str_of lead_ref)) ]
                     (of_string "Nota registrada com sucesso."))
          end
      else if String.eqb i "nota_listar" then
        let* result :=
          invoke list_notes [ ("lead_ref_ou_id", VStr (str_of lead_ref)) ] in
        match result with
        | ToolError msg _ =>
            ret (report s i msg false [ ("lead_ref", VStr (str_of lead_ref)) ] msg)
        | ToolOk _ _ =>
            let items := items_of result in
            let msg := (of_string "Encontrei ") ++ str_ (count_of items) ++ (of_string " notas.") in
            ret (report s i msg true
                   [ ("lead_ref", VStr (str_of lead_ref)); ("total", count_of items) ]
                   msg)
        end
      else ret (say s ((of_string "Intent n" ++ [ascii_of_nat 227] ++ of_string "o suportado: ") ++ of_string i))
  end.

(** [\d{4}-\d{2}-\d{2}] *)
Definition ISO_DATE : pattern :=
  [ Exactly is_digit 4; Lit "-"; Exactly is_digit 2; Lit "-"; Exactly is_digit 2 ].

(** [re.fullmatch] of a pattern whose atoms have a fixed length *)
Definition fullmatch (r : pattern) (t : text) : bool :=
  match match_here r None t with
  | Some lens => total lens =? length t
  | None => false
  end.

(** the optional fields of the payload of [create_task] *)
Definition task_payload (s : state) (lead_ref : value) (today tomorrow : text) : dict :=
  let d := slots s in
  let payload :=
    [ ("lead_ref_ou_id", VStr (str_of lead_ref)); ("titulo", dget d "titulo") ] in
  let payload :=
    if truthy (dget d "tipo") then dset payload "tipo" (dget d "tipo") else payload in
  match dget d "data_limite" with
  | VStr dl =>
      let x := lower (strip (of_string dl)) in
      if text_eqb x (of_string "amanha") || text_eqb x (of_string "amanh" ++ [ascii_of_nat 227])
      then dset payload "data_limite" (VStr (to_string tomorrow))
      else if text_eqb x (of_string "hoje")
      then dset payload "data_limite" (VStr (to_string today))
      else if fullmatch ISO_DATE x
      then dset payload "data_limite" (VStr (to_string x))
      else payload
  | _ => payload
  end.

(** [str(items[0]["tarefa_id"])]; raises when the first item has no such
    key *)
Definition first_task_id (items : list value) : M (option value) :=
  match items with
  | [] => ret None
  | VDict it :: _ =>
      if dhas it "tarefa_id" then ret (Some (VStr (str_of (dget it "tarefa_id"))))
      else raise
  | _ :: _ => raise
  end.

(** the task to conclude: the slot, or the latest open task of the lead *)
Definition task_to_complete (s : state) : M value :=
  let tarefa_id := dget (slots s) "tarefa_id" in
  if truthy tarefa_id then ret tarefa_id
  else
    let lead_ref := lead_ref_of s in
    if truthy lead_ref then
      let* listar :=
        invoke list_tasks
          [ ("lead_ref_ou_id", VStr (str_of lead_ref)); ("status", VStr "aberta") ] in
      match listar with
      | ToolError _ _ => ret tarefa_id
      | ToolOk _ _ =>
          let* first := first_task_id (items_of listar) in
          ret (match first with Some v => v | None => tarefa_id end)
      end
    else ret tarefa_id.

Definition tasks_found (s : state) (i : string) (result : tool_result) : state :=
  let items := items_of result in
  let msg := (of_string "Encontrei ") ++ str_ (count_of items) ++ (of_string " tarefas.") in
  report s i msg true [ ("total", count_of items) ] msg.

(** node [handle_tasks] *)
Definition handle_tasks (s : state) : M state :=
  match intent s with
  | None => raise
  | Some i =>
      if negb (has_slots s) then raise else
      if String.eqb i "tarefa_criar" then
        let lead_ref := lead_ref_of s in
        if negb (truthy lead_ref)
        then ret (say s (of_string "Preciso de um lead para criar a tarefa."))
        else if negb (truthy (dget (slots s) "titulo"))
        then ret (say s (of_string "Preciso do t" ++ [ascii_of_nat 237] ++ of_string "tulo da tarefa."))
        else
          let* today := call (fun w => (Ok (today_iso w), w)) in
          let* tomorrow := call (fun w => (Ok (tomorrow_iso w), w)) in
          let payload := task_payload s lead_ref today tomorrow in
          let* result := invoke create_task payload in
          match result with
          | ToolError msg _ => ret (report s i msg false payload msg)
          | ToolOk _ data =>
              let tarefa_id := dget data "tarefa_id" in
              ret (report s i (of_string "Tarefa criada") true
                     [ ("tarefa_id", VStr (str_of tarefa_id)) ]
                     ((of_string "Tarefa criada com sucesso. ID: ") ++ str_ tarefa_id))
          end
      else if String.eqb i "tarefa_concluir" then
        let* tarefa_id := task_to_complete s in
        if negb (truthy tarefa_id)
        then ret (say s (of_string "Preciso do ID da tarefa para concluir."))
        else
          let data := [ ("tarefa_id", VStr (str_of tarefa_id)) ] in
          let* result := invoke complete_task data in
          match result with
          | ToolError msg _ => ret (report s i msg false data msg)
          | ToolOk _ _ =>
              ret (report s i (of_string "Tarefa conclu" ++ [ascii_of_nat 237] ++ of_string "da") true data
                     (of_string "Tarefa conclu" ++ [ascii_of_nat 237] ++ of_string "da com sucesso."))
          end
      else if String.eqb i "tarefa_listar" then
        let lead_ref := lead_ref_of s in
        let payload :=
          if truthy lead_ref then [ ("lead_ref_ou_id", VStr (str_of lead_ref)) ] else [] in
        let status := dget (slots s) "status" in
        let payload := if truthy status then dset payload "status" status else payload in
        let* result := invoke list_tasks payload in
        match result with
        | ToolError msg _ =>
            if truthy (dget payload "lead_ref_ou_id")
               && startswith (of_string "lead n" ++ [ascii_of_nat 227] ++ of_string "o encontrado") (lower msg)
            then
              let fallback_payload :=
                if truthy (dget payload "status")
                then [ ("status", dget payload "status") ] else [] in
              let* result2 := invoke list_tasks fallback_payload in
              match result2 with
              | ToolOk _ _ => ret (tasks_found s i result2)
              | ToolError _ _ => ret (report s i msg false payload msg)
              end
            else ret (report s i msg false payload msg)
        | ToolOk _ _ => ret (tasks_found s i result)
        end
      else ret (say s ((of_string "Intent n" ++ [ascii_of_nat 227] ++ of_string "o suportado: ") ++ of_string i))
  end.

(** the nodes [leads_agent] and [proposals_agent]: the subgraphs share only
    [messages] with the graph *)
Definition run_leads_agent (s : state) : M state :=
  let* ms := call (fun w => leads_agent_graph w s) in ret (add_messages s ms).

Definition run_proposals_agent (s : state) : M state :=
  let* ms := call (fun w => proposals_agent_graph w s) in ret (add_messages s ms).

(** the pattern of a call [UUID('...')] *)
Definition UUID_CALL : pattern :=
  [ Lit "U"; Lit "U"; Lit "I"; Lit "D"; Lit "("; Lit "'";
    Star (fun c => negb (is_char "'" c)); Lit "'"; Lit ")" ].

(** the replacement: the quoted text alone *)
Definition unwrap_uuid (m : text) (lens : list nat) : text :=
  match lens with
  | [_; _; _; _; _; _; n; _; _] => (of_string "'") ++ firstn n (skipn 6 m) ++ (of_string "'")
  | _ => m
  end.

Definition in_texts (t : text) (l : list text) : bool := existsb (text_eqb t) l.

(** the key under which a segment of [ai_responses] is known *)
Definition segment_key (seg : segment) : option text :=
  let data := seg_data seg in
  let i := seg_intent seg in
  if String.eqb i "lead_criar" && truthy (dget data "lead_id")
  then Some ((of_string "lead:") ++ str_ (dget data "lead_id"))
  else if String.eqb i "proposta_rascunhar" && truthy (dget data "proposta_id")
  then Some ((of_string "draft:") ++ str_ (dget data "proposta_id"))
  else if String.eqb i "proposta_adicionar_item"
          && truthy (dget data "proposta_id") && truthy (dget data "item_id")
  then Some ((of_string "item:") ++ str_ (dget data "proposta_id") ++ (of_string ":")
             ++ str_ (dget data "item_id"))
  else if String.eqb i "proposta_calcular_totais" && truthy (dget data "proposta_id")
  then Some ((of_string "totals:") ++ str_ (dget data "proposta_id") ++ (of_string ":")
             ++ str_ (dget data "subtotal") ++ (of_string ":") ++ str_ (dget data "total"))
  else None.

Definition existing_keys (c : ctx) : list text :=
  omap segment_key (ai_responses c).

(** the segment that the result [d] of the tool [name] gives rise to: its
    key, intent, text and data *)
Definition tool_segment (name : text) (d : dict)
  : option (text * string * text * dict) :=
  if text_eqb name (of_string "create_lead") && truthy (dget d "lead_id")
  then Some ((of_string "lead:") ++ str_ (dget d "lead_id"), "lead_criar",
             (of_string "Lead criado (id: ") ++ str_ (dget d "lead_id") ++ (of_string ")"),
             [ ("lead_id", dget d "lead_id") ])
  else if text_eqb name (of_string "draft_proposal") && truthy (dget d "proposta_id")
  then Some ((of_string "draft:") ++ str_ (dget d "proposta_id"), "proposta_rascunhar",
             (of_string "Proposta rascunhada (id: ") ++ str_ (dget d "proposta_id") ++ (of_string ")"),
             [ ("proposta_id", dget d "proposta_id"); ("lead_id", dget d "lead_id") ])
  else if text_eqb name (of_string "add_proposal_item")
          && truthy (dget d "proposta_id") && truthy (dget d "item_id")
  then Some ((of_string "item:") ++ str_ (dget d "proposta_id") ++ (of_string ":")
             ++ str_ (dget d "item_id"), "proposta_adicionar_item",
             (of_string "Item adicionado"),
             [ ("proposta_id", dget d "proposta_id"); ("item_id", dget d "item_id") ])
  else if text_eqb name (of_string "calculate_proposal_totals")
          && match dget d "proposta_id" with VNone => false | _ => true end
  then Some ((of_string "totals:") ++ str_ (dget d "proposta_id") ++ (of_string ":")
             ++ str_ (dget d "subtotal") ++ (of_string ":") ++ str_ (dget d "total"),
             "proposta_calcular_totais",
             (of_string "Totais atualizados: subtotal=") ++ str_ (dget d "subtotal")
             ++ (of_string " total=") ++ str_ (dget d "total"),
             [ ("proposta_id", dget d "proposta_id"); ("subtotal", dget d "subtotal");
               ("total", dget d "total"); ("desconto_pct", dget d "desconto_pct") ])
  else None.

(** the content of a [ToolMessage] read as a dictionary and its [data]:
    [None] when reading raises or gives no dictionary *)
Definition tool_data (m : message) : option dict :=
  let parsed :=
    match m_content m with
    | CDict d => Some (VDict d)
    | CStr raw => literal_eval (sub UUID_CALL unwrap_uuid raw)
    | CBlocks _ => None
    end in
  match parsed with
  | Some (VDict d0) =>
      match dget d0 "data" with
      | VDict d => Some d
      | v => if truthy v then None else Some []
      end
  | _ => None
  end.

(** what the scan of the messages carries along *)
Record scan : Type := Scan {
  sc_lead : option lead_ctx;
  sc_slots : dict;
  sc_ctx : ctx;
  sc_keys : list text
}.

(** the lead of a tool result becomes the lead of the scan when it has
    none yet; the reference slot is filled when it is absent *)
Definition note_lead (a : scan) (lead_ref : value) : M scan :=
  match sc_lead a with
  | None =>
      if truthy lead_ref then
        let* l := get_lead_context lead_ref in
        match l with
        | Some l' =>
            ret (Scan (Some l')
                   (dsetdefault (sc_slots a) "lead_ref_ou_id"
                      (VStr (str_of (lead_id l'))))
                   (sc_ctx a) (sc_keys a))
        | None => ret a
        end
      else ret a
  | Some _ => ret a
  end.

(** the segment of a tool result is appended unless its key is known *)
Definition add_segment (a : scan) (name : text) (d : dict) : scan :=
  match tool_segment name d with
  | Some (k, i, t, data) =>
      if in_texts k (sc_keys a) then a
      else Scan (sc_lead a) (sc_slots a)
             (push_ai_response (sc_ctx a) i t true data)
             (sc_keys a ++ [k])
  | None => a
  end.

(** one message of the scan *)
Definition scan_message (a : scan) (m : message) : M scan :=
  match m_kind m, tool_data m with
  | ToolMsg, Some d =>
      let* a := note_lead a (por (dget d "lead_id") (dget d "lead_ref_ou_id")) in
      ret (add_segment a (m_name m) d)
  | _, _ => ret a
  end.

Fixpoint scan_messages (a : scan) (ms : list message) : M scan :=
  match ms with
  | [] => ret a
  | m :: rest => let* a := scan_message a m in scan_messages a rest
  end.

(** step 3.1 of [update_context] on one action of the queue *)
Definition inject_lead (l : lead_ctx) (a : action) : action :=
  let id := str_of (lead_id l) in
  let d := a_slots a in
  let d :=
    if in_list (a_intent a) INTENTS_REQUIRING_LEAD
       && (truthy (lead_id l) && negb (String.eqb id EmptyString))
       && negb (truthy (dget d "lead_ref_ou_id"))
    then dset d "lead_ref_ou_id" (VStr id) else d in
  let d :=
    if String.eqb (a_intent a) "proposta_rascunhar" && negb (dhas d "moeda")
    then dset d "moeda" (VStr "BRL") else d in
  Action (a_intent a) d.

Definition replan_hint (id : text) : text :=
  (of_string "Contexto de replanejamento: o lead j" ++ [ascii_of_nat 225] ++ of_string " foi criado (lead_id=") ++ id
  ++ (of_string "). Extraia as demais a" ++ [ascii_of_nat 231] ++ [ascii_of_nat 245] ++ of_string "es pedidas originalmente (ex.: nota, tarefa, proposta), mantendo os slots citados. N" ++ [ascii_of_nat 227] ++ of_string "o inclua a cria" ++ [ascii_of_nat 231] ++ [ascii_of_nat 227] ++ of_string "o do lead novamente.").

(** the intents already reported in this turn *)
Definition executed_intents (c : ctx) : list string :=
  List.filter (fun n => negb (String.eqb n EmptyString))
              (map seg_intent (ai_responses c)).

(** step 4 of [update_context]: the supplementary planning *)
Definition replan (s : state) (c : ctx) (new_lead : option lead_ctx) : M ctx :=
  match pending_actions c, replanned c with
  | [], false =>
      let user_text := last_human_text (messages s) in
      let lead := match new_lead with Some l => Some l | None => lead_atual s end in
      let hint :=
        match resolved_lead lead with
        | Some l => [ human (replan_hint (str_ (lead_id l))) ]
        | None => []
        end in
      let planner_msgs :=
        [ system PLAN_SYSTEM_PROMPT ] ++ hint
        ++ match user_text with [] => messages s | _ => [ human user_text ] end in
      let* _ := emit (EvPlanner Replan) in
      let* r := try_ (call (fun w => plan_llm w planner_msgs)) in
      match r with
      | Some plan =>
          let new_actions := plan_new_actions (intent s) lead plan in
          let '(q, completed) :=
            merge_actions_executed (executed_intents c) (pending_actions c)
                                   new_actions in
          if completed then ret (set_replanned (set_pending c q) true) else ret c
      | None => ret c
      end
  | _, _ => ret c
  end.

(** node [update_context] *)
Definition update_context (s : state) : M state :=
  let c := ensure_context s in
  let* a :=
    scan_messages (Scan None (slots s) c (existing_keys c)) (rev (messages s)) in
  let* new_lead :=
    match sc_lead a with
    | Some l => ret (Some l)
    | None =>
        if truthy (dget (sc_slots a) "lead_ref_ou_id")
        then get_lead_context (dget (sc_slots a) "lead_ref_ou_id")
        else ret None
    end in
  let c := sc_ctx a in
  let c :=
    match new_lead with
    | Some l => set_pending c (map (inject_lead l) (pending_actions c))
    | None => c
    end in
  let* c := replan s c new_lead in
  let s := with_context (with_slots s (sc_slots a)) c in
  ret (match new_lead with Some l => with_lead s l | None => s end).

(** [", ".join([str(it.get("codigo")) for it in items])]; [None] when an
    item is no dictionary and [it.get] raises *)
Fixpoint codes_of (items : list value) : option (list text) :=
  match items with
  | [] => Some []
  | VDict it :: rest =>
      option_map (cons (str_ (dget it "codigo"))) (codes_of rest)
  | _ :: _ => None
  end.

Fixpoint join_texts (sep : text) (l : list text) : text :=
  match l with
  | [] => []
  | [x] => x
  | x :: rest => x ++ sep ++ join_texts sep rest
  end.

(** the texts of the segments, split by [ok] *)
Definition segment_texts (ok : bool) (l : list segment) : list text :=
  map (fun g => strip (seg_text g))
      (List.filter
         (fun g => match strip (seg_text g) with
                   | [] => false
                   | _ => Bool.eqb (seg_ok g) ok
                   end) l).

Definition bullets (l : list text) : text :=
  join_texts [ascii_of_nat 10] (map (fun t => (of_string "- ") ++ t) l).

Definition final_input (user_text : text) (actions_txt errors_txt : list text) : text :=
  join_texts [ascii_of_nat 10; ascii_of_nat 10]
    ((match user_text with [] => [] | _ => [ (of_string "Prompt do usu" ++ [ascii_of_nat 225] ++ of_string "rio: ") ++ user_text ] end)
     ++ (match actions_txt with
         | [] => []
         | _ => [ (of_string "A" ++ [ascii_of_nat 231] ++ [ascii_of_nat 245] ++ of_string "es executadas:") ++ [ascii_of_nat 10] ++ bullets actions_txt ]
         end)
     ++ (match errors_txt with
         | [] => []
         | _ => [ (of_string "Falhas:") ++ [ascii_of_nat 10] ++ bullets errors_txt ]
         end)).

(** the deterministic answer to [listar_status_lead] *)
Definition respond_status (s : state) (i : string) : M state :=
  let failed :=
    report s i (of_string "N" ++ [ascii_of_nat 227] ++ of_string "o foi poss" ++ [ascii_of_nat 237] ++ of_string "vel listar os status de lead agora.") false []
           (of_string "N" ++ [ascii_of_nat 227] ++ of_string "o foi poss" ++ [ascii_of_nat 237] ++ of_string "vel listar os status de lead agora.") in
  let* r := try_ (invoke list_lead_status []) in
  match r with
  | Some (ToolError msg _) => ret (report s i msg false [] msg)
  | Some (ToolOk m data) =>
      let items := items_of (ToolOk m data) in
      match codes_of items with
      | Some codes =>
          let codigos :=
            match items with [] => (of_string "nenhum") | _ => join_texts (of_string ", ") codes end in
          let total_ := dget data "total" in
          let msg := (of_string "Status de lead v" ++ [ascii_of_nat 225] ++ of_string "lidos (") ++ str_ total_ ++ (of_string "): ")
                     ++ codigos ++ (of_string ".") in
          ret (report s i msg true [ ("total", total_) ] msg)
      | None => ret failed
      end
  | None => ret failed
  end.

(** node [respond_final] *)
Definition respond_final (s : state) : M state :=
  let c := ensure_context s in
  let ai_resps := ai_responses c in
  if intent_is (intent s) "listar_status_lead"
  then respond_status s "listar_status_lead"
  else
    let user_text := last_human_text (messages s) in
    let actions_txt := segment_texts true ai_resps in
    let errors_txt := segment_texts false ai_resps in
    match actions_txt, errors_txt with
    | [], [] =>
        match last_message (messages s) with
        | Some m => ret (say (with_context s c) (extract_text_content m))
        | None => raise
        end
    | _, _ =>
        let* final_msg :=
          call (fun w =>
                  finalizer_model w
                    [ system FINALIZER_SYSTEM_PROMPT;
                      human (final_input user_text actions_txt errors_txt) ]) in
        ret (say (with_context s (set_ai_responses c []))
                 (extract_text_content final_msg))
    end.

(** ** The graph *)

(** one node and the edge that leaves it *)
Definition step (n : node) (s : state) : M (node * state) :=
  match n with
  | parse_and_classify_node =>
      let* s' := parse_and_classify s in ret (prepare_plan_node, s')
  | prepare_plan_node => let* s' := prepare_plan s in ret (router, s')
  | router => let s' := router_node s in ret (route_intent s', s')
  | resolve_lead_node => let* s' := resolve_lead s in ret (router, s')
  | leads_agent => let* s' := run_leads_agent s in ret (update_context_node, s')
  | handle_notes_node => let* s' := handle_notes s in ret (update_context_node, s')
  | handle_tasks_node => let* s' := handle_tasks s in ret (update_context_node, s')
  | proposals_agent =>
      let* s' := run_proposals_agent s in ret (update_context_node, s')
  | update_context_node =>
      let* s' := update_context s in
      ret (if has_pending s' then execute_pending_node else respond_final_node, s')
  | execute_pending_node => ret (router, execute_pending s)
  | respond_final_node => let* s' := respond_final s in ret (END, s')
  | END => ret (END, s)
  end.

(** the first [fuel] nodes of a turn; every node that starts is logged *)
Fixpoint run (fuel : nat) (n : node) (s : state) : M (node * state) :=
  match fuel, n with
  | 0, _ => ret (n, s)
  | _, END => ret (END, s)
  | S fuel', _ =>
      let* _ := emit (EvNode n) in
      let* '(n', s') := step n s in
      run fuel' n' s'
  end.

(** a turn: the graph from its entry, on the state loaded for the turn *)
Definition turn (fuel : nat) (s : state) : M (node * state) :=
  run fuel parse_and_classify_node s.

End Nodes.

End Workflow.

(** ** Facts about the pattern matcher *)

Module ReFacts.
Import PyStr Re.

Definition within (hi : option nat) (n : nat) : Prop :=
  match hi with Some h => n <= h | None => True end.

Definition all_in (p : ascii -> bool) (t : text) : Prop :=
  Forall (fun c => p c = true) t.

(** [accepts r prev t lens]: the pattern [r] matches at the start of [t],
    its atoms taking [lens] characters, [prev] being the character just
    before.  This is the meaning of a pattern, with no search order. *)
Fixpoint accepts (r : pattern) (prev : option ascii) (t : text)
    (lens : list nat) : Prop :=
  match r, lens with
  | [], [] => True
  | Chr p :: r', n :: ls =>
      n = 1 /\ exists c t', t = c :: t' /\ p c = true /\ accepts r' (Some c) t' ls
  | Rep p lo hi :: r', n :: ls =>
      lo <= n /\ within hi n /\ n <= length t /\ all_in p (firstn n t) /\
      accepts r' (prev_after prev t n) (skipn n t) ls
  | WordB :: r', n :: ls =>
      n = 0 /\ boundary prev t = true /\ accepts r' prev t ls
  | Eos :: r', n :: ls =>
      n = 0 /\ at_end t = true /\ accepts r' prev t ls
  | _, _ => False
  end.

Lemma run_le p hi t : run p hi t <= length t.
Proof.
  revert hi; induction t as [|c t IH]; intros hi; simpl.
  - destruct hi as [[|h]|]; simpl; lia.
  - destruct hi as [[|h]|]; simpl; try lia; destruct (p c); simpl;
      try lia; specialize (IH (Some h)) || specialize (IH None); simpl in *; lia.
Qed.

Lemma run_within p hi t : within hi (run p hi t).
Proof.
  revert hi; induction t as [|c t IH]; intros hi.
  - destruct hi as [[|h]|]; simpl; lia || exact I.
  - destruct hi as [[|h]|]; simpl; try lia; try exact I.
    destruct (p c); simpl; [|lia].
    specialize (IH (Some h)); simpl in IH; lia.
Qed.

Lemma run_all_in p hi t k : k <= run p hi t -> all_in p (firstn k t).
Proof.
  unfold all_in.
  revert hi k; induction t as [|c t IH]; intros hi k Hk.
  - rewrite firstn_nil; constructor.
  - destruct k as [|k]; [constructor|].
    destruct hi as [[|h]|]; simpl in Hk; try lia.
    + destruct (p c) eqn:Hc; [|lia]. simpl.
      constructor; [done|]. apply (IH (Some h)). lia.
    + destruct (p c) eqn:Hc; [|lia]. simpl.
      constructor; [done|]. apply (IH None). lia.
Qed.

(** the run is the longest admissible prefix *)
Lemma run_longest p hi t k :
  k <= length t -> within hi k -> all_in p (firstn k t) -> k <= run p hi t.
Proof.
  unfold all_in.
  revert hi k; induction t as [|c t IH]; intros hi k Hlen Hw HF.
  - simpl in Hlen. lia.
  - destruct k as [|k]; [lia|]. simpl in HF, Hlen.
    apply Forall_cons in HF as [Hc HF].
    destruct hi as [[|h]|]; simpl in Hw |- *; try lia; rewrite Hc.
    + specialize (IH (Some h) k). simpl in IH.
      assert (k <= run p (Some h) t) by (apply IH; [lia|lia|done]). lia.
    + assert (k <= run p None t) by (apply IH; [lia|done|done]). lia.
Qed.

Lemma longest_first_Some {A} (k : nat -> option A) lo d x :
  longest_first k lo d = Some x ->
  exists j, lo <= j <= lo + d /\ k j = Some x.
Proof.
  induction d as [|d IH]; simpl.
  - destruct (k (lo + 0)) eqn:E; [|done]. intros [= <-].
    exists (lo + 0). split; [lia|done].
  - destruct (k (lo + S d)) eqn:E.
    + intros [= <-]. exists (lo + S d). split; [lia|done].
    + intros H. destruct (IH H) as (j & Hj & Hk). exists j. split; [lia|done].
Qed.

Lemma longest_first_None {A} (k : nat -> option A) lo d :
  longest_first k lo d = None ->
  forall j, lo <= j <= lo + d -> k j = None.
Proof.
  induction d as [|d IH]; simpl.
  - destruct (k (lo + 0)) eqn:E; [done|]. intros _ j Hj.
    replace j with (lo + 0) by lia. done.
  - destruct (k (lo + S d)) eqn:E; [done|]. intros H j Hj.
    destruct (decide (j = lo + S d)) as [->|]; [done|].
    apply (IH H). lia.
Qed.

(** Soundness of the matcher: what it reports is a match. *)
Lemma match_here_sound r : forall prev t lens,
  match_here r prev t = Some lens -> accepts r prev t lens.
Proof.
  induction r as [|a r IH]; intros prev t lens; simpl.
  - by intros [= <-].
  - destruct a as [p|p lo hi| |].
    + destruct t as [|c t]; [done|]. destruct (p c) eqn:Hc; [|done].
      destruct (match_here r (Some c) t) as [ls|] eqn:E; [|done].
      intros [= <-]. split; [done|]. exists c, t. auto.
    + destruct (run p hi t <? lo) eqn:Hlo; [done|].
      apply Nat.ltb_ge in Hlo. intros H.
      apply longest_first_Some in H as (j & Hj & Hk).
      destruct (match_here r (prev_after prev t j) (skipn j t)) as [ls|] eqn:E;
        [|done].
      injection Hk as <-.
      assert (Hjr : j <= run p hi t) by lia.
      pose proof (run_le p hi t) as Hrl.
      split; [lia|]. split.
      { pose proof (run_within p hi t) as Hw. destruct hi; simpl in *; [lia|done]. }
      split; [lia|]. split; [by apply run_all_in with hi|]. by apply IH.
    + destruct (boundary prev t) eqn:Hb; [|done].
      destruct (match_here r prev t) as [ls|] eqn:E; [|done].
      intros [= <-]. auto.
    + destruct (at_end t) eqn:Hb; [|done].
      destruct (match_here r prev t) as [ls|] eqn:E; [|done].
      intros [= <-]. auto.
Qed.

(** Completeness of the matcher: where the pattern matches at all, the
    matcher reports a match. *)
Lemma match_here_complete r : forall prev t lens,
  accepts r prev t lens -> exists lens', match_here r prev t = Some lens'.
Proof.
  induction r as [|a r IH]; intros prev t lens; simpl.
  - by exists [].
  - destruct a as [p|p lo hi| |]; destruct lens as [|n ls]; try done.
    + intros (-> & c & t' & -> & Hc & Hacc). rewrite Hc.
      destruct (IH _ _ _ Hacc) as [l' ->]. by eexists.
    + intros (Hlo & Hw & Hlen & HF & Hacc).
      pose proof (run_longest p hi t n Hlen Hw HF) as Hn.
      destruct (run p hi t <? lo) eqn:E; [apply Nat.ltb_lt in E; lia|].
      match goal with |- exists l, ?x = Some l => destruct x as [l|] eqn:El end;
        [by eexists|].
      pose proof (longest_first_None _ _ _ El n) as Hnone.
      destruct (IH _ _ _ Hacc) as [l' Hl'].
      assert (Hr : lo <= n <= lo + (run p hi t - lo)) by lia.
      specialize (Hnone Hr). cbv beta in Hnone.
      rewrite Hl' in Hnone. discriminate Hnone.
    + intros (-> & Hb & Hacc). rewrite Hb.
      destruct (IH _ _ _ Hacc) as [l' ->]. by eexists.
    + intros (-> & Hb & Hacc). rewrite Hb.
      destruct (IH _ _ _ Hacc) as [l' ->]. by eexists.
Qed.

Lemma accepts_total r : forall prev t lens,
  accepts r prev t lens -> total lens <= length t.
Proof.
  induction r as [|a r IH]; intros prev t lens; destruct lens as [|n ls];
    simpl; try done; try lia.
  destruct a as [p|p lo hi| |].
  - intros (-> & c & t' & -> & _ & Hacc). apply IH in Hacc. simpl. lia.
  - intros (_ & _ & Hlen & _ & Hacc). apply IH in Hacc.
    rewrite length_skipn in Hacc. lia.
  - intros (-> & _ & Hacc). apply IH in Hacc. lia.
  - intros (-> & _ & Hacc). apply IH in Hacc. lia.
Qed.

(** the character before position [k] of a text *)
Fixpoint prev_at (prev : option ascii) (t : text) (k : nat) {struct k}
  : option ascii :=
  match k, t with
  | 0, _ => prev
  | S k', c :: t' => prev_at (Some c) t' k'
  | S _, [] => prev
  end.

(** [re.search] reports the leftmost position at which the matcher
    succeeds. *)
Lemma search_from_Some r : forall t prev p0 pos lens,
  search_from r prev t p0 = Some (pos, lens) ->
  exists k, pos = p0 + k /\ k <= length t /\
            match_here r (prev_at prev t k) (skipn k t) = Some lens.
Proof.
  induction t as [|c t IH]; intros prev p0 pos lens; simpl.
  - destruct (match_here r prev []) eqn:E; [|done].
    intros [= <- <-]. exists 0. simpl. split; [lia|]. split; [lia|done].
  - destruct (match_here r prev (c :: t)) eqn:E.
    + intros [= <- <-]. exists 0. simpl. split; [lia|]. split; [lia|done].
    + intros H. destruct (IH _ _ _ _ H) as (k & -> & Hk & Hm).
      exists (S k). simpl. split; [lia|]. split; [lia|done].
Qed.

Lemma search_from_None r : forall t prev p0,
  search_from r prev t p0 = None ->
  forall k, k <= length t -> match_here r (prev_at prev t k) (skipn k t) = None.
Proof.
  induction t as [|c t IH]; intros prev p0; simpl.
  - destruct (match_here r prev []) eqn:E; [done|].
    intros _ k Hk. replace k with 0 by lia. done.
  - destruct (match_here r prev (c :: t)) eqn:E; [done|].
    intros H [|k] Hk; [done|]. simpl. apply (IH _ _ H). lia.
Qed.

Lemma prev_at_app pre : forall prev rest,
  prev_at prev (pre ++ rest) (length pre) =
    match last pre with Some c => Some c | None => prev end.
Proof.
  induction pre as [|c pre IH]; intros prev rest; [done|].
  cbn [app length prev_at]. rewrite IH.
  destruct pre as [|a pre]; [done|].
  change (last (c :: a :: pre)) with (last (a :: pre)).
  destruct (last (a :: pre)) eqn:E; [done|].
  by apply last_None in E.
Qed.

Lemma prev_at_take prev t k :
  k <= length t ->
  prev_at prev t k =
    match last (firstn k t) with Some c => Some c | None => prev end.
Proof.
  intros Hk. rewrite <- (prev_at_app (firstn k t) prev (skipn k t)).
  rewrite firstn_skipn, length_firstn, Nat.min_l by lia. done.
Qed.

Definition segment_of (m t : text) : Prop := exists pre post, t = pre ++ m ++ post.

(** [occurs r t]: somewhere in [t] the pattern [r] matches. *)
Definition occurs (r : pattern) (t : text) : Prop :=
  exists pre rest lens, t = pre ++ rest /\ accepts r (last pre) rest lens.

(** A successful search returns a segment of the text on which the pattern
    matches. *)
Lemma search_group0_Some r t m :
  search_group0 r t = Some m ->
  exists pre post lens,
    t = pre ++ m ++ post /\ accepts r (last pre) (m ++ post) lens /\
    length m = total lens.
Proof.
  unfold search_group0, search.
  destruct (search_from r None t 0) as [[pos lens]|] eqn:E; [|done].
  intros [= <-].
  destruct (search_from_Some _ _ _ _ _ _ E) as (k & -> & Hk & Hm).
  simpl. apply match_here_sound in Hm.
  pose proof (accepts_total _ _ _ _ Hm) as Htot.
  exists (firstn k t), (skipn (total lens) (skipn k t)), lens.
  rewrite !firstn_skipn. split; [done|]. split.
  - rewrite prev_at_take in Hm by done. by destruct (last (firstn k t)).
  - rewrite length_firstn. lia.
Qed.

(** A search fails only if the pattern matches nowhere. *)
Lemma search_group0_None r t :
  search_group0 r t = None -> ~ occurs r t.
Proof.
  unfold search_group0, search.
  destruct (search_from r None t 0) as [[pos lens]|] eqn:E; [done|].
  intros _ (pre & rest & lens & -> & Hacc).
  pose proof (search_from_None _ _ _ _ E (length pre)) as Hn.
  rewrite length_app, prev_at_app, drop_app_length in Hn.
  destruct (match_here_complete _ _ _ _ Hacc) as [l' Hl'].
  destruct (last pre); rewrite Hn in Hl'; (discriminate Hl' || lia).
Qed.

(** *** Reading and building matches atom by atom *)

Definition last_or (prev : option ascii) (a : text) : option ascii :=
  match last a with Some c => Some c | None => prev end.

Lemma accepts_nil_inv prev t lens : accepts [] prev t lens -> lens = [].
Proof. by destruct lens. Qed.

Lemma accepts_wordb_inv r prev t lens :
  accepts (WordB :: r) prev t lens ->
  exists ls, lens = 0 :: ls /\ boundary prev t = true /\ accepts r prev t ls.
Proof.
  destruct lens as [|n ls]; [done|]. intros (-> & Hb & H). by exists ls.
Qed.

Lemma accepts_chr_inv p r prev t lens :
  accepts (Chr p :: r) prev t lens ->
  exists c t' ls, lens = 1 :: ls /\ t = c :: t' /\ p c = true /\
                  accepts r (Some c) t' ls.
Proof.
  destruct lens as [|n ls]; [done|].
  intros (-> & c & t' & -> & Hc & H). by exists c, t', ls.
Qed.

Lemma accepts_rep_inv p lo hi r prev t lens :
  accepts (Rep p lo hi :: r) prev t lens ->
  exists a rest ls,
    lens = length a :: ls /\ t = a ++ rest /\ lo <= length a /\
    within hi (length a) /\ all_in p a /\ accepts r (last_or prev a) rest ls.
Proof.
  destruct lens as [|n ls]; [done|].
  intros (Hlo & Hw & Hlen & HF & H).
  exists (firstn n t), (skipn n t), ls.
  rewrite length_firstn, Nat.min_l, firstn_skipn by lia. done.
Qed.

Lemma accepts_wordb_intro r prev t ls :
  boundary prev t = true -> accepts r prev t ls ->
  accepts (WordB :: r) prev t (0 :: ls).
Proof. by simpl. Qed.

Lemma accepts_chr_intro (p : ascii -> bool) r prev c t ls :
  p c = true -> accepts r (Some c) t ls ->
  accepts (Chr p :: r) prev (c :: t) (1 :: ls).
Proof. intros. simpl. split; [done|]. by exists c, t. Qed.

Lemma accepts_rep_intro p lo hi r prev a rest ls :
  lo <= length a -> within hi (length a) -> all_in p a ->
  accepts r (last_or prev a) rest ls ->
  accepts (Rep p lo hi :: r) prev (a ++ rest) (length a :: ls).
Proof.
  intros Hlo Hw HF H. simpl. unfold prev_after.
  rewrite take_app_length, drop_app_length, length_app.
  repeat split; (done || lia).
Qed.

End ReFacts.

(** ** Reference extraction: the three patterns and their priority *)

Module RefExtraction.
Import PyStr Re Helpers ReFacts.

Definition dash : text := ["-"%char].

(** 8-4-4-4-12 hexadecimal digits separated by dashes *)
Definition uuid_shaped (m : text) : Prop :=
  exists a b c d e,
    m = a ++ dash ++ b ++ dash ++ c ++ dash ++ d ++ dash ++ e /\
    length a = 8 /\ length b = 4 /\ length c = 4 /\ length d = 4 /\
    length e = 12 /\
    all_in is_hex a /\ all_in is_hex b /\ all_in is_hex c /\
    all_in is_hex d /\ all_in is_hex e.

(** local part, [@], domain, [.], at least two letters *)
Definition email_shaped (m : text) : Prop :=
  exists l d tld,
    m = l ++ ["@"%char] ++ d ++ ["."%char] ++ tld /\
    1 <= length l /\ all_in is_email_local l /\
    1 <= length d /\ all_in is_email_domain d /\
    2 <= length tld /\ all_in is_letter tld.

(** a UUID-shaped segment of the text that stands between word
    boundaries, as the pattern's two [\b] require *)
Definition uuid_present (t : text) : Prop :=
  exists pre m post,
    t = pre ++ m ++ post /\ uuid_shaped m /\
    word_opt (last pre) = false /\ word_opt (head post) = false.

(** an email-shaped segment of the text *)
Definition email_present (t : text) : Prop :=
  exists pre m post, t = pre ++ m ++ post /\ email_shaped m.

(** the digits of a text, in order *)
Definition digits_of (t : text) : text := List.filter is_digit t.

Lemma is_char_eq d c : is_char d c = true -> c = d.
Proof. unfold is_char. intros H. by apply Ascii.eqb_eq in H. Qed.

Lemma is_hex_word c : is_hex c = true -> is_word c = true.
Proof.
  destruct c as [[] [] [] [] [] [] [] []]; vm_compute; congruence.
Qed.

Lemma all_in_head p a : all_in p a -> 1 <= length a ->
  exists x, head a = Some x /\ p x = true.
Proof.
  destruct a as [|x a]; simpl; [lia|]. intros H _.
  apply Forall_cons in H as [H _]. by exists x.
Qed.

Lemma all_in_last p a : all_in p a -> 1 <= length a ->
  exists x, last a = Some x /\ p x = true.
Proof.
  intros H Hl. destruct (last a) as [x|] eqn:E.
  - exists x. split; [done|]. apply last_Some in E as [a' ->].
    apply Forall_app in H as [_ H]. by apply Forall_cons in H as [H _].
  - apply last_None in E as ->. simpl in Hl. lia.
Qed.

Lemma head_app_ne (a b : text) : 1 <= length a -> head (a ++ b) = head a.
Proof. destruct a; simpl; [lia|done]. Qed.

(** A match of the UUID pattern is a UUID-shaped text between word
    boundaries. *)
Lemma uuid_accepts_inv prev t0 lens :
  accepts UUID_PATTERN prev t0 lens ->
  exists m post,
    t0 = m ++ post /\ length m = total lens /\ uuid_shaped m /\
    word_opt prev = false /\ word_opt (head post) = false.
Proof.
  unfold UUID_PATTERN, Exactly, Lit. intros H.
  apply accepts_wordb_inv in H as (? & -> & Hb1 & H).
  apply accepts_rep_inv in H as (a & ? & ? & -> & -> & ? & ? & Ha & H).
  apply accepts_chr_inv in H as (? & ? & ? & -> & -> & ->%is_char_eq & H).
  apply accepts_rep_inv in H as (b & ? & ? & -> & -> & ? & ? & Hb & H).
  apply accepts_chr_inv in H as (? & ? & ? & -> & -> & ->%is_char_eq & H).
  apply accepts_rep_inv in H as (c & ? & ? & -> & -> & ? & ? & Hc & H).
  apply accepts_chr_inv in H as (? & ? & ? & -> & -> & ->%is_char_eq & H).
  apply accepts_rep_inv in H as (d & ? & ? & -> & -> & ? & ? & Hd & H).
  apply accepts_chr_inv in H as (? & ? & ? & -> & -> & ->%is_char_eq & H).
  apply accepts_rep_inv in H as (e & post & ? & -> & -> & ? & ? & He & H).
  apply accepts_wordb_inv in H as (? & -> & Hb2 & H).
  apply accepts_nil_inv in H as ->.
  cbn [within] in *.
  exists (a ++ dash ++ b ++ dash ++ c ++ dash ++ d ++ dash ++ e), post.
  split; [by rewrite <- !app_assoc|]. split.
  { rewrite !length_app. simpl. lia. }
  split.
  { exists a, b, c, d, e. repeat split; (done || lia). }
  split.
  - destruct (all_in_head _ _ Ha) as (x & Hx & Hhex); [lia|].
    unfold boundary in Hb1. rewrite head_app_ne, Hx in Hb1 by lia.
    simpl in Hb1. rewrite (is_hex_word _ Hhex) in Hb1.
    by destruct (word_opt prev).
  - destruct (all_in_last _ _ He) as (x & Hx & Hhex); [lia|].
    unfold boundary, last_or in Hb2. rewrite Hx in Hb2.
    simpl in Hb2. rewrite (is_hex_word _ Hhex) in Hb2.
    by destruct (word_opt (head post)).
Qed.

(** Conversely the UUID pattern matches on every such text. *)
Lemma uuid_accepts_intro prev m post :
  uuid_shaped m -> word_opt prev = false -> word_opt (head post) = false ->
  exists lens, accepts UUID_PATTERN prev (m ++ post) lens.
Proof.
  intros (a & b & c & d & e & -> & La & Lb & Lc & Ld & Le
          & Ha & Hb & Hc & Hd & He) Hp Hq.
  exists [0; length a; 1; length b; 1; length c; 1; length d; 1; length e; 0].
  unfold UUID_PATTERN, Exactly, Lit, dash. rewrite <- !app_assoc.
  apply accepts_wordb_intro.
  { destruct (all_in_head _ _ Ha) as (x & Hx & Hhex); [lia|].
    unfold boundary. rewrite head_app_ne, Hx, Hp by lia. simpl.
    by rewrite (is_hex_word _ Hhex). }
  apply accepts_rep_intro; [lia|simpl; lia|done|].
  apply accepts_chr_intro; [done|].
  apply accepts_rep_intro; [lia|simpl; lia|done|].
  apply accepts_chr_intro; [done|].
  apply accepts_rep_intro; [lia|simpl; lia|done|].
  apply accepts_chr_intro; [done|].
  apply accepts_rep_intro; [lia|simpl; lia|done|].
  apply accepts_chr_intro; [done|].
  apply accepts_rep_intro; [lia|simpl; lia|done|].
  apply accepts_wordb_intro; [|done].
  destruct (all_in_last _ _ He) as (x & Hx & Hhex); [lia|].
  unfold boundary, last_or. rewrite Hx, Hq. simpl.
  by rewrite (is_hex_word _ Hhex).
Qed.

(** A match of the email pattern is an email-shaped text. *)
Lemma email_accepts_inv prev t0 lens :
  accepts EMAIL_PATTERN prev t0 lens ->
  exists m post, t0 = m ++ post /\ length m = total lens /\ email_shaped m.
Proof.
  unfold EMAIL_PATTERN, Plus, AtLeast, Lit. intros H.
  apply accepts_rep_inv in H as (l & ? & ? & -> & -> & ? & ? & Hl & H).
  apply accepts_chr_inv in H as (? & ? & ? & -> & -> & ->%is_char_eq & H).
  apply accepts_rep_inv in H as (d & ? & ? & -> & -> & ? & ? & Hd & H).
  apply accepts_chr_inv in H as (? & ? & ? & -> & -> & ->%is_char_eq & H).
  apply accepts_rep_inv in H as (tld & post & ? & -> & -> & ? & ? & Ht & H).
  apply accepts_nil_inv in H as ->.
  exists (l ++ ["@"%char] ++ d ++ ["."%char] ++ tld), post.
  split; [by rewrite <- !app_assoc|]. split.
  { rewrite !length_app. simpl. lia. }
  exists l, d, tld. repeat split; (done || lia).
Qed.

(** Conversely the email pattern matches on every email-shaped text. *)
Lemma email_accepts_intro prev m post :
  email_shaped m -> exists lens, accepts EMAIL_PATTERN prev (m ++ post) lens.
Proof.
  intros (l & d & tld & -> & Ll & Hl & Ld & Hd & Lt & Ht).
  exists [length l; 1; length d; 1; length tld].
  unfold EMAIL_PATTERN, Plus, AtLeast, Lit. rewrite <- !app_assoc.
  apply accepts_rep_intro; [lia|done|done|].
  apply accepts_chr_intro; [done|].
  apply accepts_rep_intro; [lia|done|done|].
  apply accepts_chr_intro; [done|].
  apply accepts_rep_intro; [lia|done|done|]. done.
Qed.

Lemma uuid_search_Some t m :
  search_group0 UUID_PATTERN t = Some m -> uuid_shaped m /\ segment_of m t.
Proof.
  intros H. apply search_group0_Some in H as (pre & post & lens & -> & H & Hl).
  split; [|by exists pre, post].
  apply uuid_accepts_inv in H as (m' & post' & Heq & Hl' & Hs & _).
  apply app_inj_1 in Heq as [-> _]; [done|lia].
Qed.

Lemma uuid_search_None t :
  search_group0 UUID_PATTERN t = None -> ~ uuid_present t.
Proof.
  intros H (pre & m & post & -> & Hs & Hp & Hq).
  apply search_group0_None in H. apply H.
  destruct (uuid_accepts_intro (last pre) m post Hs Hp Hq) as [lens Hacc].
  by exists pre, (m ++ post), lens.
Qed.

Lemma uuid_search_present t m :
  search_group0 UUID_PATTERN t = Some m -> uuid_present t.
Proof.
  intros H. apply search_group0_Some in H as (pre & post & lens & -> & H & Hl).
  apply uuid_accepts_inv in H as (m' & post' & Heq & Hl' & Hs & Hp & Hq).
  apply app_inj_1 in Heq as [-> ->]; [|lia].
  by exists pre, m', post'.
Qed.

Lemma email_search_Some t m :
  search_group0 EMAIL_PATTERN t = Some m -> email_shaped m /\ segment_of m t.
Proof.
  intros H. apply search_group0_Some in H as (pre & post & lens & -> & H & Hl).
  split; [|by exists pre, post].
  apply email_accepts_inv in H as (m' & post' & Heq & Hl' & Hs).
  apply app_inj_1 in Heq as [-> _]; [done|lia].
Qed.

Lemma email_search_None t :
  search_group0 EMAIL_PATTERN t = None -> ~ email_present t.
Proof.
  intros H (pre & m & post & -> & Hs).
  apply search_group0_None in H. apply H.
  destruct (email_accepts_intro (last pre) m post Hs) as [lens Hacc].
  by exists pre, (m ++ post), lens.
Qed.

Lemma match_non_digits prev t :
  match_here NON_DIGITS prev t =
    match run (fun c => negb (is_digit c)) None t with
    | 0 => None
    | S n => Some [S n]
    end.
Proof.
  unfold NON_DIGITS, Plus. simpl.
  destruct (run _ None t) as [|n]; simpl; [done|].
  rewrite Nat.sub_0_r.
  destruct n; simpl; done.
Qed.

Lemma sub_go_non_digits : forall t prev skip,
  skip <= run (fun c => negb (is_digit c)) None t ->
  sub_go NON_DIGITS (fun _ _ => []) prev t skip = digits_of t.
Proof.
  induction t as [|c t IH]; intros prev skip Hs.
  - destruct skip; simpl in *; [done|lia].
  - destruct skip as [|k].
    + cbn [sub_go]. rewrite match_non_digits. simpl.
      destruct (is_digit c) eqn:Hc; simpl.
      * f_equal. apply IH. lia.
      * rewrite Nat.add_0_r. apply IH. lia.
    + simpl in Hs. simpl.
      destruct (is_digit c) eqn:Hc; simpl in *; [lia|].
      apply IH. lia.
Qed.

(** [re.sub(r"\D+", empty, text)] keeps exactly the digits of the text, in
    order, wherever they stand. *)
Lemma strip_non_digits_filter t : strip_non_digits t = digits_of t.
Proof. apply sub_go_non_digits. lia. Qed.

(** [extract_ref_from_text] as the chain of its three attempts *)
Lemma extract_ref_chain t :
  extract_ref_from_text t =
    match search_group0 UUID_PATTERN t with
    | Some m => Some m
    | None =>
        match search_group0 EMAIL_PATTERN t with
        | Some m => Some m
        | None =>
            if 8 <=? length (digits_of t) then Some (digits_of t) else None
        end
    end.
Proof.
  unfold extract_ref_from_text. rewrite strip_non_digits_filter.
  destruct t; [reflexivity|done].
Qed.

(** the cases of [extract_ref_from_text] *)
Lemma extract_ref_cases (t : text) :
  (uuid_present t ->
     exists m, extract_ref_from_text t = Some m /\ uuid_shaped m /\ segment_of m t)
  /\ (~ uuid_present t -> email_present t ->
        exists m, extract_ref_from_text t = Some m /\ email_shaped m /\
                  segment_of m t)
  /\ (~ uuid_present t -> ~ email_present t -> 8 <= length (digits_of t) ->
        extract_ref_from_text t = Some (digits_of t))
  /\ (~ uuid_present t -> ~ email_present t -> length (digits_of t) < 8 ->
        extract_ref_from_text t = None).
Proof.
  rewrite extract_ref_chain.
  destruct (search_group0 UUID_PATTERN t) as [u|] eqn:Eu.
  - pose proof (uuid_search_present _ _ Eu) as Hp.
    destruct (uuid_search_Some _ _ Eu) as [Hs Hseg].
    repeat split; try done. intros _. by exists u.
  - pose proof (uuid_search_None _ Eu) as Hn.
    destruct (search_group0 EMAIL_PATTERN t) as [e|] eqn:Ee.
    + destruct (email_search_Some _ _ Ee) as [Hs Hseg].
      assert (Hp : email_present t).
      { destruct Hseg as (pre & post & ->). by exists pre, e, post. }
      repeat split; try done. intros _ _. by exists e.
    + pose proof (email_search_None _ Ee) as Hne.
      repeat split; try done.
      * intros _ _ Hl. apply Nat.leb_le in Hl. by rewrite Hl.
      * intros _ _ Hl. apply Nat.leb_gt in Hl. by rewrite Hl.
Qed.

(** C8, amended -- Reference extraction priority.  A UUID-shaped segment
    standing between word boundaries, as the two [\b] of the pattern
    require, wins: the result is then a UUID-shaped segment of the text.
    Otherwise an email-shaped segment wins, whatever digits the text holds,
    so an email beats a phone number.  Otherwise the result is the digits
    of the text when there are at least 8 of them, and nothing when there
    are fewer. *)
Theorem extract_ref_priority (t : text) :
  (uuid_present t ->
     exists m, extract_ref_from_text t = Some m /\ uuid_shaped m /\ segment_of m t)
  /\ (~ uuid_present t -> email_present t ->
        exists m, extract_ref_from_text t = Some m /\ email_shaped m /\
                  segment_of m t)
  /\ (~ uuid_present t -> ~ email_present t -> 8 <= length (digits_of t) ->
        extract_ref_from_text t = Some (digits_of t))
  /\ (~ uuid_present t -> ~ email_present t -> length (digits_of t) < 8 ->
        extract_ref_from_text t = None).
Proof. exact (extract_ref_cases t). Qed.

(** C10 -- Phone-digit fallback.  On a text with no UUID-shaped and no
    email-shaped segment the result is the concatenation of all the digits
    of the whole text, wherever they stand, exactly when at least 8 digits
    remain after every other character is dropped; otherwise nothing. *)
Theorem extract_ref_digit_fallback (t : text) :
  (forall m, uuid_shaped m -> ~ segment_of m t) ->
  (forall m, email_shaped m -> ~ segment_of m t) ->
  strip_non_digits t = List.filter is_digit t
  /\ (8 <= length (List.filter is_digit t) ->
        extract_ref_from_text t = Some (List.filter is_digit t))
  /\ (length (List.filter is_digit t) < 8 -> extract_ref_from_text t = None)
  /\ (forall r, extract_ref_from_text t = Some r ->
        r = List.filter is_digit t /\ 8 <= length r).
Proof.
  intros Hu He.
  assert (Hnu : ~ uuid_present t).
  { intros (pre & m & post & -> & Hs & _). apply (Hu m Hs). by exists pre, post. }
  assert (Hne : ~ email_present t).
  { intros (pre & m & post & -> & Hs). apply (He m Hs). by exists pre, post. }
  destruct (extract_ref_cases t) as (_ & _ & H8 & H7).
  split; [apply strip_non_digits_filter|].
  split; [by apply H8|]. split; [by apply H7|].
  intros r Hr. fold (digits_of t) in *.
  destruct (le_lt_dec 8 (length (digits_of t))) as [Hl|Hl].
  - rewrite (H8 Hnu Hne Hl) in Hr. injection Hr as <-. done.
  - rewrite (H7 Hnu Hne Hl) in Hr. discriminate Hr.
Qed.

Lemma segment_In (c : ascii) m t : segment_of m t -> In c m -> In c t.
Proof. intros (pre & post & ->) H. apply in_or_app. right. apply in_or_app. by left. Qed.

Lemma uuid_shaped_dash m : uuid_shaped m -> In "-"%char m.
Proof.
  intros (a & b & c & d & e & -> & _). apply in_or_app. right. by left.
Qed.

Lemma email_shaped_at m : email_shaped m -> In "@"%char m.
Proof. intros (l & d & tld & -> & _). apply in_or_app. right. by left. Qed.

Lemma not_In_char (c : ascii) t : existsb (is_char c) t = false -> ~ In c t.
Proof.
  intros H Hin. assert (existsb (is_char c) t = true) as H'; [|congruence].
  apply existsb_exists. exists c. split; [done|]. apply Ascii.eqb_refl.
Qed.

Ltac solve_all_in :=
  unfold all_in; repeat (constructor; [reflexivity|]); constructor.

Definition sample_mixed : text := of_string "ana@x.com 11 99999-0000".
Definition sample_scattered : text := of_string "rua 12, apto 345, cep 678".

(** an identifier glued to a letter *)
Definition sample_glued : text :=
  of_string "x12345678-1234-1234-1234-123456789012".

(** a UUID-shaped segment is in the text, and the result is the 32 digits
    of the text, which are no UUID-shaped segment *)
Lemma glued_uuid_not_extracted :
  (exists m, uuid_shaped m /\ segment_of m sample_glued) /\
  extract_ref_from_text sample_glued
  = Some (of_string "12345678123412341234123456789012") /\
  ~ uuid_shaped (of_string "12345678123412341234123456789012").
Proof.
  split; [|split].
  - exists (of_string "12345678-1234-1234-1234-123456789012"). split.
    + exists (of_string "12345678"), (of_string "1234"), (of_string "1234"),
        (of_string "1234"), (of_string "123456789012").
      split; [reflexivity|]. simpl. repeat split; solve_all_in.
    + by exists (of_string "x"), [].
  - vm_compute. reflexivity.
  - intros H. apply uuid_shaped_dash in H.
    revert H. by apply not_In_char.
Qed.

Lemma extract_ref_priority_witness :
  ~ uuid_present sample_mixed /\ email_present sample_mixed /\
  exists m, extract_ref_from_text sample_mixed = Some m /\ email_shaped m /\
            segment_of m sample_mixed.
Proof.
  assert (Hn : ~ uuid_present sample_mixed).
  { apply uuid_search_None. vm_compute. reflexivity. }
  assert (He : email_present sample_mixed).
  { exists [], (of_string "ana@x.com"), (of_string " 11 99999-0000").
    split; [reflexivity|].
    exists (of_string "ana"), (of_string "x"), (of_string "com").
    split; [reflexivity|]. simpl.
    repeat split; try lia; solve_all_in. }
  split; [exact Hn|]. split; [exact He|].
  exact (proj1 (proj2 (extract_ref_priority sample_mixed)) Hn He).
Defined.

Lemma extract_ref_digit_fallback_witness :
  (forall m, uuid_shaped m -> ~ segment_of m sample_scattered) /\
  (forall m, email_shaped m -> ~ segment_of m sample_scattered) /\
  extract_ref_from_text sample_scattered = Some (of_string "12345678").
Proof.
  assert (Hu : forall m, uuid_shaped m -> ~ segment_of m sample_scattered).
  { intros m Hs Hseg.
    apply (not_In_char "-" sample_scattered); [reflexivity|].
    apply (segment_In _ m); [exact Hseg|]. by apply uuid_shaped_dash. }
  assert (He : forall m, email_shaped m -> ~ segment_of m sample_scattered).
  { intros m Hs Hseg.
    apply (not_In_char "@" sample_scattered); [reflexivity|].
    apply (segment_In _ m); [exact Hseg|]. by apply email_shaped_at. }
  split; [exact Hu|]. split; [exact He|].
  apply (proj1 (proj2 (extract_ref_digit_fallback sample_scattered Hu He))).
  vm_compute. lia.
Defined.

End RefExtraction.

(** ** Plan normalisation never fails *)

Module PlanFacts.
Import PyStr Re Py Plan.

Section Normalizer.

Variable json_loads : text -> option value.
Variable json_dumps : dict -> option text.

(** every attempt of the normaliser at reading an object failed *)
Definition all_parses_fail (text_ : text) : Prop :=
  let raw := strip text_ in
  json_loads raw = None /\
  match search_group0 ACTIONS_OBJECT raw with
  | Some m => json_loads (normalize_json_like m) = None
  | None => json_loads (normalize_json_like raw) = None
  end.

(** the blob is read as an object *)
Definition blob_is_object (s : string) : Prop :=
  let txt := strip (of_string s) in
  startswith (of_string "{") txt && endswith (of_string "}") txt = true /\
  exists data,
    json_loads (replace_char "'" dquote (quote_bare_keys txt)) = Some (VDict data).

(** the blob is read as [name=value] *)
Definition blob_is_pair (s : string) : Prop :=
  contains_char "=" (strip (of_string s)) = true.

(** a slot blob that is no string, or a string read neither as an object
    nor as a pair *)
Definition blob_unparsable (b : value) : Prop :=
  match b with
  | VStr s => ~ blob_is_object s /\ ~ blob_is_pair s
  | _ => True
  end.

Lemma clean_actions_intents actions :
  Forall (fun a => truthy (ra_intent a) = true)
         (clean_actions json_dumps actions).
Proof.
  induction actions as [|it rest IH]; simpl; [constructor|].
  destruct it; try done.
  destruct (truthy (dget items "intent")) eqn:E; [|done].
  by constructor.
Qed.

Lemma plan_object_fail text_ :
  all_parses_fail text_ -> plan_object json_loads text_ = None.
Proof.
  unfold all_parses_fail, plan_object. intros [-> H].
  by destruct (search_group0 ACTIONS_OBJECT (strip text_)).
Qed.

Lemma slot_step_unparsable out b :
  blob_unparsable b -> slot_step json_loads out b = out.
Proof.
  destruct b as [| | |s| |]; try done.
  unfold blob_unparsable, blob_is_pair, slot_step. intros [Hobj Hpair].
  destruct (contains_char "=" (strip (of_string s))) eqn:Ec; [done|].
  destruct (startswith (of_string "{") (strip (of_string s))
            && endswith (of_string "}") (strip (of_string s))) eqn:Eb; [|done].
  destruct (json_loads _) as [[| | | | |data]|] eqn:Ej; try done.
  exfalso. apply Hobj. split; [done|]. by exists data.
Qed.

Lemma slots_fold_unparsable blobs : forall out,
  Forall blob_unparsable blobs -> fold_left (slot_step json_loads) blobs out = out.
Proof.
  induction blobs as [|b blobs IH]; intros out H; simpl; [done|].
  apply Forall_cons in H as [Hb H].
  rewrite slot_step_unparsable by done. by apply IH.
Qed.

(** an unparsable blob leaves the mapping built from the other blobs as it
    is *)
Lemma slots_skip_unparsable l1 b l2 :
  blob_unparsable b ->
  slots_strings_to_dict json_loads (l1 ++ b :: l2) =
  slots_strings_to_dict json_loads (l1 ++ l2).
Proof.
  intros Hb. unfold slots_strings_to_dict. rewrite !fold_left_app. simpl.
  by rewrite slot_step_unparsable.
Qed.

End Normalizer.

(** C6 -- Plan normalisation is total.  Whatever [json.loads] and
    [json.dumps] do, raising included, [parse_plan_actions_from_text]
    returns a list of actions, each with a non-empty intent; the list is
    empty when strict parsing and the repaired parses all fail; and a slot
    blob that is read neither as an object nor as a [name=value] pair adds
    nothing to the slot mapping, which is empty when every blob is such. *)
Theorem plan_normalization_total
    (json_loads : text -> option value) (json_dumps : dict -> option text)
    (text_ : text) (blobs : list value) :
  (exists actions,
     parse_plan_actions_from_text json_loads json_dumps text_ = actions /\
     Forall (fun a => truthy (ra_intent a) = true) actions)
  /\ (all_parses_fail json_loads text_ ->
        parse_plan_actions_from_text json_loads json_dumps text_ = [])
  /\ (Forall (blob_unparsable json_loads) blobs ->
        slots_strings_to_dict json_loads blobs = [])
  /\ (forall out b, blob_unparsable json_loads b ->
        slot_step json_loads out b = out).
Proof.
  split; [|split; [|split]].
  - eexists. split; [reflexivity|]. unfold parse_plan_actions_from_text.
    destruct (plan_object json_loads text_) as [[| | | | |obj]|]; try constructor.
    destruct (dget obj "actions"); try constructor.
    apply clean_actions_intents.
  - intros H. unfold parse_plan_actions_from_text.
    by rewrite plan_object_fail.
  - intros H. by apply slots_fold_unparsable.
  - intros out b H. by apply slot_step_unparsable.
Qed.

(** a parser that rejects every text, and a serialiser that always raises *)
Definition no_json_loads (t : text) : option value := None.
Definition no_json_dumps (d : dict) : option text := None.

Lemma plan_normalization_total_witness :
  all_parses_fail no_json_loads (of_string "sorry, no plan") /\
  Forall (blob_unparsable no_json_loads) [VStr "{broken"; VInt 3] /\
  parse_plan_actions_from_text no_json_loads no_json_dumps
    (of_string "sorry, no plan") = [] /\
  slots_strings_to_dict no_json_loads [VStr "{broken"; VInt 3] = [].
Proof.
  assert (H1 : all_parses_fail no_json_loads (of_string "sorry, no plan")).
  { split; [reflexivity|]. vm_compute. reflexivity. }
  assert (H2 : Forall (blob_unparsable no_json_loads) [VStr "{broken"; VInt 3]).
  { constructor; [|constructor; [exact I|constructor]].
    split.
    - intros [H _]. vm_compute in H. discriminate H.
    - intros H. vm_compute in H. discriminate H. }
  split; [exact H1|]. split; [exact H2|].
  pose proof (plan_normalization_total no_json_loads no_json_dumps
                (of_string "sorry, no plan") [VStr "{broken"; VInt 3]) as T.
  split.
  - exact (proj1 (proj2 T) H1).
  - exact (proj1 (proj2 (proj2 T)) H2).
Defined.

End PlanFacts.

(** ** The merge of planned actions into the queue *)

Module QueueFacts.
Import PyStr Py Tools State Queue.


#[local] Instance item_le_trans : Transitive item_le.
Proof. intros a b c. unfold item_le. apply transitivity. Qed.

#[local] Instance item_le_total : Total item_le.
Proof. intros a b. unfold item_le. apply total, _. Qed.

Lemma sorted_items_perm d : sorted_items d ≡ₚ d.
Proof. apply merge_sort_Permutation. Qed.

(** the sorted items do not depend on the insertion order *)
Lemma sorted_items_order d d' :
  dict_wf d -> d ≡ₚ d' -> sorted_items d = sorted_items d'.
Proof.
  intros Hwf Hp. apply (Sorted_unique_strong item_le).
  - intros x1 x2 H1 H2 Hle1 Hle2.
    rewrite sorted_items_perm in H1. rewrite sorted_items_perm, <- Hp in H2.
    assert (Hk : fst x1 = fst x2).
    { unfold item_le in *. by apply (anti_symm String.le). }
    unfold dict_wf in Hwf. clear Hle1 Hle2 Hp.
    induction d as [|y d IH]; [by apply elem_of_nil in H1|].
    simpl in Hwf. apply NoDup_cons in Hwf as [Hy Hwf].
    apply elem_of_cons in H1 as [->|H1]; apply elem_of_cons in H2 as [->|H2];
      try done.
    + exfalso. apply Hy. rewrite Hk. by apply list_elem_of_fmap_2.
    + exfalso. apply Hy. rewrite <- Hk. by apply list_elem_of_fmap_2.
    + by apply IH.
  - apply Sorted_merge_sort, _.
  - apply Sorted_merge_sort, _.
  - by rewrite !sorted_items_perm.
Qed.



(** same intent, same slots in any insertion order: same key *)
Lemma dedup_key_order a a' :
  a_intent a = a_intent a' -> dict_wf (a_slots a) ->
  a_slots a ≡ₚ a_slots a' -> dedup_key a = dedup_key a'.
Proof.
  intros Hi Hwf Hp. unfold dedup_key.
  by rewrite (sorted_items_order _ _ Hwf Hp), Hi.
Qed.


(** what hashing and [==] see of the slots: each name with the hash view of
    its value *)
Definition slot_view (d : dict) : list (string * option hval) :=
  map (fun kv => (fst kv, hashed (snd kv))) d.

(** the same action: the same intent and the same slots, in any insertion
    order *)
Definition same_action (a b : action) : Prop :=
  a_intent a = a_intent b /\ slot_view (a_slots a) ≡ₚ slot_view (a_slots b).

#[global] Instance same_action_dec : RelDecision same_action.
Proof. intros a b. unfold same_action. apply _. Defined.













Lemma same_action_refl a : same_action a a.
Proof. by split. Qed.












End QueueFacts.

(** ** The pending queue executor *)

Module ExecutorFacts.
Import PyStr Py Tools State Queue Workflow.

Lemma dget_absent d k : dhas d k = false -> dget d k = VNone.
Proof.
  induction d as [|[k' v] d IH]; simpl; [done|].
  destruct (String.eqb k k'); simpl; [done|]. exact IH.
Qed.

Lemma dset_absent d k v : dhas d k = false -> dset d k v = d ++ [(k, v)].
Proof.
  induction d as [|[k' v'] d IH]; simpl; [done|].
  destruct (String.eqb k k'); simpl; [done|]. intros H. by rewrite IH.
Qed.

(** C9 -- Pending queue executor.  On an empty queue the state is left as
    it is.  Otherwise exactly the head leaves the queue, the rest keeps its
    order, the head's intent and slots become the active ones, and when the
    head has no lead reference (absent, or empty) while a lead is resolved,
    that lead's identifier is written into the slot; nothing else of the
    state changes. *)
Theorem execute_pending_contract (py_str : value -> string) (s : state) :
  (pending_actions (context s) = [] -> execute_pending py_str s = s)
  /\ (forall a rest,
        pending_actions (context s) = a :: rest ->
        let s' := execute_pending py_str s in
        pending_actions (context s') = rest
        /\ intent s' = Some (a_intent a)
        /\ context s' = set_pending (context s) rest
        /\ messages s' = messages s /\ lead_atual s' = lead_atual s
        /\ errors s' = errors s
        /\ (truthy (dget (a_slots a) "lead_ref_ou_id") = true ->
              slots s' = a_slots a)
        /\ (resolved_lead (lead_atual s) = None -> slots s' = a_slots a)
        /\ (forall l,
              truthy (dget (a_slots a) "lead_ref_ou_id") = false ->
              resolved_lead (lead_atual s) = Some l ->
              slots s' =
                dset (a_slots a) "lead_ref_ou_id" (VStr (str_of py_str (lead_id l))))
        /\ (forall l,
              dhas (a_slots a) "lead_ref_ou_id" = false ->
              resolved_lead (lead_atual s) = Some l ->
              slots s' =
                a_slots a ++ [ ("lead_ref_ou_id", VStr (str_of py_str (lead_id l))) ])).
Proof.
  split.
  - intros H. unfold execute_pending, ensure_context. by rewrite H.
  - intros a rest H s'. subst s'. unfold execute_pending, ensure_context.
    rewrite H. simpl. repeat split.
    + intros Ht. by rewrite Ht.
    + intros Hn. rewrite Hn. by destruct (truthy _).
    + intros l Ht Hl. by rewrite Ht, Hl.
    + intros l Ha Hl. rewrite (dget_absent _ _ Ha), Hl. simpl.
      by apply dset_absent.
Qed.

Definition sample_lead : lead_ctx :=
  LeadCtx (VStr "7d3f") (VStr "Maria") VNone VNone.

Definition sample_queue_state : state :=
  St [] (Some "lead_criar") [] (Some sample_lead) []
     (set_pending empty_ctx
        [ Action "nota_adicionar" [ ("texto", VStr "ligar") ];
          Action "tarefa_criar" [ ("titulo", VStr "follow-up") ] ]) true.

Lemma execute_pending_contract_witness :
  dhas [ ("texto", VStr "ligar") ] "lead_ref_ou_id" = false /\
  resolved_lead (lead_atual sample_queue_state) = Some sample_lead /\
  slots (execute_pending (fun _ => "?"%string) sample_queue_state) =
    [ ("texto", VStr "ligar"); ("lead_ref_ou_id", VStr "7d3f") ].
Proof.
  split; [reflexivity|]. split; [reflexivity|].
  exact (proj2 (proj2 (proj2 (proj2 (proj2 (proj2 (proj2 (proj2 (proj2
    (proj2 (execute_pending_contract (fun _ => "?"%string) sample_queue_state)
       (Action "nota_adicionar" [ ("texto", VStr "ligar") ])
       [ Action "tarefa_criar" [ ("titulo", VStr "follow-up") ] ]
       eq_refl)))))))))
    sample_lead eq_refl eq_refl).
Defined.

End ExecutorFacts.

(** ** The prerequisite scheduler *)

Module SchedulerFacts.
Import PyStr Py Eff Tools State Queue Workflow.

Lemma pop_lead_criar_first q :
  (exists a, a ∈ q /\ a_intent a = "lead_criar"%string) ->
  exists before x after,
    q = before ++ x :: after /\ a_intent x = "lead_criar"%string /\
    Forall (fun a => a_intent a <> "lead_criar"%string) before /\
    pop_lead_criar q = Some (x, before ++ after).
Proof.
  induction q as [|a q IH]; intros (x & Hx & Hi).
  { by apply elem_of_nil in Hx. }
  simpl. destruct (String.eqb (a_intent a) "lead_criar") eqn:E.
  - apply String.eqb_eq in E. exists [], a, q. simpl. by repeat split.
  - apply String.eqb_neq in E.
    apply elem_of_cons in Hx as [->|Hx]; [done|].
    destruct IH as (before & y & after & -> & Hy & Hb & ->); [by exists x|].
    exists (a :: before), y, after. simpl. repeat split; try done.
    by constructor.
Qed.

Section Scheduler.

Variable W : Type.
Variable py_str : value -> string.
Variable json_loads : text -> option value.
Variable PLAN_SYSTEM_PROMPT : text.
Variable plan_llm : W -> list message -> res (list plan_action) * W.

#[local] Abbreviation plan_and_merge_ :=
  (plan_and_merge W py_str json_loads PLAN_SYSTEM_PROMPT plan_llm).
#[local] Abbreviation prepare_plan_ :=
  (prepare_plan W py_str json_loads PLAN_SYSTEM_PROMPT plan_llm).

(** planning and merging never raise, whatever the planner does *)
Lemma plan_and_merge_total s e :
  exists c pending e', plan_and_merge_ s e = (Ok (c, pending), e').
Proof.
  unfold plan_and_merge, bind, emit, try_, call, ret. simpl.
  destruct (plan_llm _ _) as [[plan|] w]; simpl.
  - destruct (merge_actions _ _) as [pending completed]. by eexists _, _, _.
  - by eexists _, _, _.
Qed.

(** the freshly merged queue, when the planner answers *)
Lemma plan_and_merge_queue s e plan w :
  plan_llm (world e) (system PLAN_SYSTEM_PROMPT :: messages s) = (Ok plan, w) ->
  exists c e',
    plan_and_merge_ s e =
      (Ok (c, fst (merge_actions (pending_actions (context s))
                     (plan_new_actions py_str json_loads (intent s)
                        (lead_atual s) plan))), e').
Proof.
  intros H. unfold plan_and_merge, bind, emit, try_, call, ret. simpl.
  rewrite H. simpl. destruct (merge_actions _ _) as [pending completed].
  by eexists _, _.
Qed.

(** C1 -- Prerequisite promotion.  When the current intent requires a lead,
    no reference slot is set, no lead is resolved, and the freshly merged
    queue holds a [lead_criar] action, [prepare_plan] takes the first such
    action out of the queue, the others keeping their order, and returns it
    as the active intent with its slots as the active slots. *)
Theorem prerequisite_promotion (s : state) (e : env W node)
    (c : ctx) (pending : list action) (e' : env W node) :
  plan_and_merge_ s e = (Ok (c, pending), e') ->
  in_set (intent s) INTENTS_REQUIRING_LEAD = true ->
  truthy (dget (slots s) "lead_ref_ou_id") = false ->
  has_lead (lead_atual s) = false ->
  (exists a, a ∈ pending /\ a_intent a = "lead_criar"%string) ->
  exists before lead_action after s',
    pending = before ++ lead_action :: after /\
    a_intent lead_action = "lead_criar"%string /\
    Forall (fun a => a_intent a <> "lead_criar"%string) before /\
    prepare_plan_ s e = (Ok s', e') /\
    intent s' = Some "lead_criar"%string /\
    slots s' = a_slots lead_action /\
    pending_actions (context s') = before ++ after /\
    context s' = set_pending c (before ++ after) /\
    messages s' = messages s /\ lead_atual s' = lead_atual s.
Proof.
  intros Hpm Hi Hs Hl Hex.
  destruct (pop_lead_criar_first pending Hex)
    as (before & x & after & Hq & Hx & Hb & Hpop).
  exists before, x, after. eexists. split; [exact Hq|]. split; [exact Hx|].
  split; [exact Hb|].
  unfold prepare_plan, bind. rewrite Hpm. cbn beta iota.
  unfold needs_lead. rewrite Hi, Hs, Hl. cbn [negb orb andb].
  rewrite Hpop. unfold ret. split; [reflexivity|]. by repeat split.
Qed.

End Scheduler.

(** a planner that lists the dependent action before the creation *)
Definition note_then_create (w : unit) (ms : list message)
  : res (list plan_action) * unit :=
  (Ok [ PlanAction "tarefa_criar" (SlotBlobs [VStr "titulo=Retorno"]);
        PlanAction "lead_criar" (SlotBlobs [VStr "nome=Maria"]) ], w).

Definition sample_note_state : state :=
  St [human (of_string "anotar e criar lead Maria")] (Some "nota_adicionar")
     [ ("texto", VStr "ligar") ] None [] empty_ctx true.

Definition sample_env : env unit node := Env tt [].

Lemma prerequisite_promotion_witness :
  exists s',
    prepare_plan unit (fun _ => "?"%string) (fun _ => None) [] note_then_create
      sample_note_state sample_env
    = (Ok s', Env tt [EvPlanner InitialPlan]) /\
    intent s' = Some "lead_criar"%string /\
    slots s' = [ ("nome", VStr "Maria") ] /\
    pending_actions (context s') =
      [ Action "tarefa_criar" [ ("titulo", VStr "Retorno") ] ].
Proof.
  destruct (prerequisite_promotion unit (fun _ => "?"%string) (fun _ => None) []
              note_then_create sample_note_state sample_env
              (set_pending (set_planner_debug empty_ctx
                 [ PlanAction "tarefa_criar" (SlotBlobs [VStr "titulo=Retorno"]);
                   PlanAction "lead_criar" (SlotBlobs [VStr "nome=Maria"]) ])
                 [ Action "tarefa_criar" [ ("titulo", VStr "Retorno") ];
                   Action "lead_criar" [ ("nome", VStr "Maria") ] ])
              [ Action "tarefa_criar" [ ("titulo", VStr "Retorno") ];
                Action "lead_criar" [ ("nome", VStr "Maria") ] ]
              (Env tt [EvPlanner InitialPlan]))
    as (before & x & after & s' & Hq & Hx & Hb & Hrun & Hi & Hs & Hp & _).
  - vm_compute. reflexivity.
  - reflexivity.
  - reflexivity.
  - reflexivity.
  - exists (Action "lead_criar" [ ("nome", VStr "Maria") ]).
    split; [|reflexivity]. apply elem_of_cons. right. apply elem_of_cons. by left.
  - exists s'. split; [exact Hrun|]. split; [exact Hi|].
    destruct before as [|b0 [|b1 before]].
    + simpl in Hq. injection Hq as <- _. discriminate Hx.
    + simpl in Hq. injection Hq as <- <- <-. split; [exact Hs|exact Hp].
    + simpl in Hq. injection Hq as <- <- Hq.
      apply Forall_cons in Hb as [_ Hb]. apply Forall_cons in Hb as [Hb _].
      by destruct Hb.
Defined.

End SchedulerFacts.

(** ** The entity resolver: several candidates *)

Module ResolverFacts.
Import PyStr Py Eff Tools State Queue Helpers Workflow.

Section Resolver.

Variable W : Type.
Variable py_str : value -> string.
Variable db_select : W -> query -> res (list lead_row) * W.

#[local] Abbreviation lookup := (resolve_lead_id_by_ref W node db_select).
#[local] Abbreviation resolve_lead_ := (resolve_lead W py_str db_select).
#[local] Abbreviation resolve_by_name_ := (resolve_by_name W py_str db_select).
#[local] Abbreviation resolve_by_text_ := (resolve_by_text W py_str db_select).

(** a lookup that returns candidates returns no identifier *)
Lemma lookup_candidates ref e lead ms e1 :
  lookup ref e = (Ok (lead, ms), e1) -> ms <> [] -> lead = None.
Proof.
  unfold resolve_lead_id_by_ref, select, bind, call, ret.
  destruct ref as [|ch ref]; [by intros [= <- <- <-]|].
  repeat match goal with
         | |- context [if ?b then _ else _] => destruct b
         end;
    simpl; destruct (db_select _ _) as [[rows|] w]; simpl; try done;
    try (destruct rows; by intros [= <- <- <-]).
  destruct rows as [|r [|r' rows]]; by intros [= <- <- <-].
Qed.

Lemma get_lead_several ref e lead ms e1 :
  lookup ref e = (Ok (lead, ms), e1) -> ms <> [] ->
  Tools.get_lead W node db_select ref e = (Ok (ToolError several_found ms), e1).
Proof.
  intros H Hms. pose proof (lookup_candidates _ _ _ _ _ H Hms) as ->.
  unfold Tools.get_lead, bind. rewrite H. simpl. by destruct ms.
Qed.

Lemma resolve_tool_several ref e lead ms e1 :
  lookup ref e = (Ok (lead, ms), e1) -> ms <> [] ->
  Tools.resolve_lead W node db_select ref e = (Ok (ToolError several_found ms), e1).
Proof.
  intros H Hms. pose proof (lookup_candidates _ _ _ _ _ H Hms) as ->.
  unfold Tools.resolve_lead, bind. rewrite H. simpl. by destruct ms.
Qed.

(** the name search on several candidates *)
Lemma resolve_by_name_several s c e lead ms e1 :
  name_term py_str (slots s) <> [] ->
  lookup (name_term py_str (slots s)) e = (Ok (lead, ms), e1) -> ms <> [] ->
  resolve_by_name_ s c e = (Ok (with_context s (ambiguous c ms)), e1).
Proof.
  intros Ht H Hms. unfold resolve_by_name.
  destruct (name_term py_str (slots s)) as [|ch term] eqn:E; [done|].
  unfold bind, try_, resolve_lead_tool.
  rewrite (resolve_tool_several _ _ _ _ _ H Hms). simpl.
  unfold ret. by destruct ms.
Qed.

(** the text of the latest message *)
Definition latest_text (s : state) : text :=
  match last_message (messages s) with
  | Some m => extract_text_content m
  | None => []
  end.

(** C5 -- Disambiguation.  With no lead resolved yet: when the lookup of
    the reference slot finds two or more candidates, and when the search by
    name and company (reached when the slot and the message text resolved
    nothing, in particular when there is no slot and no reference in the
    text) finds two or more candidates, the resolver ends with [lead_atual]
    and the slots as they were, the candidates in the context's [matches],
    [router_blocked] set and [need_lead_resolution] cleared. *)
Theorem disambiguation (s : state) (e : env W node) :
  has_lead (lead_atual s) = false ->
  let c := set_attempted (context s) true in
  (forall ms,
     let s' := with_context s (ambiguous c ms) in
     lead_atual s' = lead_atual s /\ slots s' = slots s /\
     matches (context s') = ms /\ router_blocked (context s') = true /\
     need_lead_resolution (context s') = false /\
     lead_resolution_attempted (context s') = true)
  /\ (forall lead ms e1,
        truthy (dget (slots s) "lead_ref_ou_id") = true ->
        lookup (str_ py_str (dget (slots s) "lead_ref_ou_id")) e
          = (Ok (lead, ms), e1) ->
        2 <= length ms ->
        resolve_lead_ s e = (Ok (with_context s (ambiguous c ms)), e1))
  /\ (forall e2 lead ms e3,
        resolve_lead_ s e = resolve_by_name_ s c e2 ->
        name_term py_str (slots s) <> [] ->
        lookup (name_term py_str (slots s)) e2 = (Ok (lead, ms), e3) ->
        2 <= length ms ->
        resolve_lead_ s e = (Ok (with_context s (ambiguous c ms)), e3))
  /\ (truthy (dget (slots s) "lead_ref_ou_id") = false ->
      extract_ref_from_text (latest_text s) = None ->
      resolve_lead_ s e = resolve_by_name_ s c e).
Proof.
  intros Hl c. split; [|split; [|split]].
  - intros ms. by repeat split.
  - intros lead ms e1 Hr H Hlen.
    assert (Hms : ms <> []) by (destruct ms; simpl in Hlen; [lia|done]).
    unfold resolve_lead, ensure_context. rewrite Hl, Hr.
    unfold bind, try_, get_lead_tool.
    rewrite (get_lead_several _ _ _ _ _ H Hms). simpl.
    unfold ret. by destruct ms.
  - intros e2 lead ms e3 Hreach Ht H Hlen.
    assert (Hms : ms <> []) by (destruct ms; simpl in Hlen; [lia|done]).
    rewrite Hreach. by apply resolve_by_name_several with lead.
  - intros Hr Hx. unfold resolve_lead, ensure_context. rewrite Hl, Hr.
    unfold resolve_by_text. fold (latest_text s). by rewrite Hx.
Qed.

End Resolver.

(** a database with two leads named Acme *)
Definition acme_row (id : string) : lead_row :=
  LeadRow (VStr id) (VStr "Acme") VNone (VNone) (VStr "Acme") (VStr "novo").

Definition two_acmes (w : unit) (q : query) : res (list lead_row) * unit :=
  match q with
  | LeadsLike _ => (Ok [acme_row "id-1"; acme_row "id-2"], w)
  | _ => (Ok [], w)
  end.

Definition sample_acme_state : state :=
  St [human (of_string "adicionar nota")] (Some "nota_adicionar")
     [ ("lead_ref_ou_id", VStr "Acme"); ("texto", VStr "ligar") ] None [] empty_ctx
     true.

Lemma disambiguation_witness :
  has_lead (lead_atual sample_acme_state) = false /\
  exists s',
    resolve_lead unit (fun _ => "?"%string) two_acmes sample_acme_state (Env tt [])
      = (Ok s', Env tt []) /\
    lead_atual s' = None /\ slots s' = slots sample_acme_state /\
    length (matches (context s')) = 2 /\ router_blocked (context s') = true.
Proof.
  split; [reflexivity|].
  eexists. split.
  - apply (proj1 (proj2 (disambiguation unit (fun _ => "?"%string) two_acmes
                           sample_acme_state (Env tt []) eq_refl))
             None (map candidate [acme_row "id-1"; acme_row "id-2"]) (Env tt [])).
    + reflexivity.
    + vm_compute. reflexivity.
    + simpl. lia.
  - repeat split.
Defined.

End ResolverFacts.

(** ** Reasoning about effectful computations *)

Module EffFacts.
Import Eff.

Section Spec.
Variables W N : Type.

(** [spec m Q]: from every environment, [m] appends to the log some events
    [evs] and ends with a result [r] such that [Q evs r] *)
Definition spec {A} (m : M W N A) (Q : list (event N) -> res A -> Prop) : Prop :=
  forall e, exists evs, log (snd (m e)) = log e ++ evs /\ Q evs (fst (m e)).

Lemma spec_ret {A} (a : A) Q : Q [] (Ok a) -> spec (ret a) Q.
Proof. intros H e. exists []. simpl. by rewrite app_nil_r. Qed.

Lemma spec_raise {A} (Q : list (event N) -> res A -> Prop) :
  Q [] Raise -> spec raise Q.
Proof. intros H e. exists []. simpl. by rewrite app_nil_r. Qed.

Lemma spec_call {A} (f : W -> res A * W) Q : (forall r, Q [] r) -> spec (call f) Q.
Proof.
  intros H e. exists []. unfold call. destruct (f (world e)) as [r w]. simpl.
  by rewrite app_nil_r.
Qed.

Lemma spec_emit (ev : event N) Q : Q [ev] (Ok tt) -> spec (emit ev) Q.
Proof. intros H e. by exists [ev]. Qed.

Lemma spec_bind {A B} (m : M W N A) (k : A -> M W N B) Q :
  spec m (fun evs1 r =>
            match r with
            | Ok a => spec (k a) (fun evs2 r2 => Q (evs1 ++ evs2) r2)
            | Raise => Q evs1 Raise
            end) ->
  spec (bind m k) Q.
Proof.
  intros H e. destruct (H e) as (evs1 & Hlog & Hr). unfold bind.
  destruct (m e) as [[a|] e1]; simpl in *.
  - destruct (Hr e1) as (evs2 & Hlog2 & HQ). exists (evs1 ++ evs2).
    by rewrite Hlog2, Hlog, app_assoc.
  - by exists evs1.
Qed.

Lemma spec_try {A} (m : M W N A) Q :
  spec m (fun evs r =>
            Q evs (Ok (match r with Ok a => Some a | Raise => None end))) ->
  spec (try_ m) Q.
Proof.
  intros H e. destruct (H e) as (evs & Hlog & Hr). exists evs. unfold try_.
  by destruct (m e) as [[a|] e1].
Qed.

Lemma spec_conseq {A} (m : M W N A) (Q Q' : list (event N) -> res A -> Prop) :
  spec m Q -> (forall evs r, Q evs r -> Q' evs r) -> spec m Q'.
Proof.
  intros H HQ e. destruct (H e) as (evs & Hlog & Hr). exists evs. auto.
Qed.

Lemma spec_run {A} (m : M W N A) Q e r e' :
  spec m Q -> m e = (r, e') -> exists evs, log e' = log e ++ evs /\ Q evs r.
Proof.
  intros H Hm. destruct (H e) as (evs & Hlog & Hr). rewrite Hm in *. by exists evs.
Qed.

End Spec.

Arguments spec {W N A} m Q.

End EffFacts.

(** ** What each node may change *)

Module NodeFacts.
Import PyStr Py Eff EffFacts Tools State Queue Helpers Workflow.

(** the computation logs nothing *)
Definition quiet {W A} (m : M W node A) : Prop := spec m (fun evs _ => evs = []).

Ltac wp_atom :=
  first
    [ apply spec_ret
    | apply spec_raise
    | apply spec_emit
    | apply spec_call; intros ?
    | apply spec_bind
    | apply spec_try ].

Ltac wp_case :=
  match goal with
  | |- spec (match ?x with _ => _ end) _ => destruct x eqn:?
  | |- spec (if ?x then _ else _) _ => destruct x eqn:?
  | |- match ?r with Ok _ => _ | Raise => _ end => destruct r
  end.

Ltac wp := repeat first [ wp_atom | wp_case ].

(** use a known quiet computation at the head of the goal *)
Ltac wp_quiet H :=
  eapply spec_conseq; [apply H|]; intros ? ? ->.

Section Tools.
Variables (W : Type) (db_select : W -> query -> res (list lead_row) * W).

Lemma select_quiet q : quiet (select W node db_select q).
Proof. unfold quiet, select. by wp. Qed.

Lemma lookup_quiet ref : quiet (resolve_lead_id_by_ref W node db_select ref).
Proof.
  unfold quiet, resolve_lead_id_by_ref.
  destruct ref; [by wp|].
  repeat match goal with
         | |- spec (if ?b then _ else _) _ => destruct b
         end;
    (apply spec_bind; wp_quiet select_quiet; wp; done).
Qed.

Lemma get_lead_quiet ref : quiet (Tools.get_lead W node db_select ref).
Proof.
  unfold quiet, Tools.get_lead. apply spec_bind. wp_quiet lookup_quiet.
  destruct r as [[lead ms]|]; [|done].
  destruct (found lead).
  - apply spec_bind. wp_quiet select_quiet. by wp.
  - by wp.
Qed.

Lemma resolve_tool_quiet ref : quiet (Tools.resolve_lead W node db_select ref).
Proof.
  unfold quiet, Tools.resolve_lead. apply spec_bind. wp_quiet lookup_quiet.
  destruct r as [[lead ms]|]; [|done]. by wp.
Qed.

End Tools.

(** the second context is the first with segments appended to
    [ai_responses], nothing else changed *)
Definition appended (c c' : ctx) : Prop :=
  exists segs, c' = set_ai_responses c (ai_responses c ++ segs).

Lemma appended_refl c : appended c c.
Proof. exists []. destruct c. unfold set_ai_responses. simpl. by rewrite app_nil_r. Qed.

Lemma appended_push c i t ok d : appended c (push_ai_response c i t ok d).
Proof. by eexists. Qed.

Lemma appended_trans c1 c2 c3 : appended c1 c2 -> appended c2 c3 -> appended c1 c3.
Proof.
  intros [l1 ->] [l2 ->]. exists (l1 ++ l2). destruct c1.
  unfold set_ai_responses. simpl. by rewrite app_assoc.
Qed.

Lemma appended_fields c c' :
  appended c c' ->
  pending_actions c' = pending_actions c /\
  need_lead_resolution c' = need_lead_resolution c /\
  lead_resolution_attempted c' = lead_resolution_attempted c /\
  replanned c' = replanned c /\
  ai_responses c `prefix_of` ai_responses c'.
Proof. intros [l ->]. simpl. repeat split. by exists l. Qed.

(** a node that logs nothing and at most appends segments *)
Definition only_appends (s : state) (evs : list (event node)) (r : res state)
  : Prop :=
  evs = [] /\
  match r with
  | Ok s' => appended (context s) (context s')
  | Raise => True
  end.

Section Handlers.

Variable W : Type.
Variable py_str : value -> string.
Variable db_select : W -> query -> res (list lead_row) * W.
Variable tool_invoke : W -> tool_name -> dict -> res tool_result * W.
Variable today_iso : W -> text.
Variable tomorrow_iso : W -> text.
Variable PARSER_SYSTEM_PROMPT : text.
Variable parser_llm : W -> list message -> res (string * list text) * W.
Variable leads_agent_graph : W -> state -> res (list message) * W.
Variable proposals_agent_graph : W -> state -> res (list message) * W.

(** [get_lead_context] logs nothing and never raises *)
Lemma get_lead_context_total ref :
  spec (get_lead_context W py_str db_select ref)
       (fun evs r => evs = [] /\ exists l, r = Ok l).
Proof.
  unfold get_lead_context, get_lead_tool.
  destruct (truthy ref); [|apply spec_ret; split; [done|by eexists]].
  apply spec_bind, spec_try. wp_quiet get_lead_quiet.
  apply spec_ret. split; [done|by eexists].
Qed.

Ltac leaf :=
  split; [done|];
  first [ apply appended_refl | apply appended_push | exact I ].

Lemma parse_and_classify_spec s :
  spec (parse_and_classify W PARSER_SYSTEM_PROMPT parser_llm s) (only_appends s).
Proof.
  unfold parse_and_classify. wp; leaf.
Qed.

Lemma run_leads_agent_spec s :
  spec (run_leads_agent W leads_agent_graph s) (only_appends s).
Proof. unfold run_leads_agent. wp; leaf. Qed.

Lemma run_proposals_agent_spec s :
  spec (run_proposals_agent W proposals_agent_graph s) (only_appends s).
Proof. unfold run_proposals_agent. wp; leaf. Qed.

Lemma handle_notes_spec s :
  spec (handle_notes W py_str tool_invoke s) (only_appends s).
Proof. unfold handle_notes, invoke, report, say. wp; leaf. Qed.

Lemma handle_tasks_spec s :
  spec (handle_tasks W py_str tool_invoke today_iso tomorrow_iso s)
       (only_appends s).
Proof.
  unfold handle_tasks, task_to_complete, first_task_id, tasks_found, invoke,
    report, say.
  wp; leaf.
Qed.

End Handlers.

(** the flags of the turn and the segments are those of the first context *)
Definition same_guards (c c' : ctx) : Prop :=
  need_lead_resolution c' = need_lead_resolution c /\
  lead_resolution_attempted c' = lead_resolution_attempted c /\
  replanned c' = replanned c /\
  ai_responses c' = ai_responses c.

Section Planning.

Variable W : Type.
Variable py_str : value -> string.
Variable json_loads : text -> option value.
Variable PLAN_SYSTEM_PROMPT : text.
Variable plan_llm : W -> list message -> res (list plan_action) * W.

Lemma plan_and_merge_spec s :
  spec (plan_and_merge W py_str json_loads PLAN_SYSTEM_PROMPT plan_llm s)
       (fun evs r =>
          evs = [EvPlanner InitialPlan] /\
          exists c pending, r = Ok (c, pending) /\ same_guards (context s) c).
Proof.
  unfold plan_and_merge, ensure_context.
  apply spec_bind, spec_emit. apply spec_bind, spec_try, spec_call. intros r.
  destruct r as [plan|]; simpl.
  - destruct (merge_actions _ _) as [pending completed].
    apply spec_ret. split; [done|]. eexists _, _. split; [reflexivity|].
    destruct completed, pending; by repeat split.
  - apply spec_ret. split; [done|]. eexists _, _. split; [reflexivity|].
    destruct (pending_actions (context s)); by repeat split.
Qed.

(** [prepare_plan] calls the planner once, never raises, and leaves the
    flags of the turn and the segments alone *)
Lemma prepare_plan_spec s :
  spec (prepare_plan W py_str json_loads PLAN_SYSTEM_PROMPT plan_llm s)
       (fun evs r =>
          evs = [EvPlanner InitialPlan] /\
          exists s', r = Ok s' /\ same_guards (context s) (context s')).
Proof.
  unfold prepare_plan. apply spec_bind.
  eapply spec_conseq; [apply plan_and_merge_spec|].
  intros evs r (-> & c & pending & -> & Hg).
  destruct (needs_lead s); [destruct (pop_lead_criar pending) as [[x rest]|]|];
    apply spec_ret; (split; [done|]); eexists; (split; [reflexivity|]);
    destruct Hg as (? & ? & ? & ?); by repeat split.
Qed.

End Planning.

Section Router.

Variable py_str : value -> string.

(** the router touches [need_lead_resolution] and nothing else of the
    guards *)
Lemma router_node_guards s :
  let s' := router_node py_str s in
  lead_resolution_attempted (context s') = lead_resolution_attempted (context s)
  /\ replanned (context s') = replanned (context s)
  /\ ai_responses (context s') = ai_responses (context s)
  /\ pending_actions (context s') = pending_actions (context s).
Proof.
  unfold router_node, ensure_context. repeat case_match; simplify_eq; by simpl.
Qed.

(** once a resolution was attempted the router never raises
    [need_lead_resolution] *)
Lemma router_node_need s :
  lead_resolution_attempted (context s) = true ->
  need_lead_resolution (context (router_node py_str s)) = true ->
  need_lead_resolution (context s) = true.
Proof.
  intros Ha. unfold router_node, ensure_context.
  repeat case_match; simplify_eq; simpl in *;
    rewrite ?Ha, ?andb_false_r in *; simplify_eq; simpl; try done.
Qed.

Lemma execute_pending_guards s :
  same_guards (context s) (context (execute_pending py_str s)).
Proof.
  unfold execute_pending, ensure_context.
  destruct (pending_actions (context s)); by repeat split.
Qed.

End Router.

Section Resolution.

Variable W : Type.
Variable py_str : value -> string.
Variable db_select : W -> query -> res (list lead_row) * W.

(** what every exit of [resolve_lead] has in common *)
Definition resolution_done (s : state) (evs : list (event node)) (r : res state)
  : Prop :=
  evs = [] /\
  exists s',
    r = Ok s' /\
    lead_resolution_attempted (context s') = true /\
    need_lead_resolution (context s') = false /\
    replanned (context s') = replanned (context s) /\
    ai_responses (context s') = ai_responses (context s) /\
    pending_actions (context s') = pending_actions (context s).

Ltac done_leaf :=
  split; [done|]; eexists; split; [reflexivity|]; by repeat split.

Lemma resolve_by_name_spec s c :
  lead_resolution_attempted c = true ->
  replanned c = replanned (context s) ->
  ai_responses c = ai_responses (context s) ->
  pending_actions c = pending_actions (context s) ->
  spec (resolve_by_name W py_str db_select s c) (resolution_done s).
Proof.
  intros Ha Hr Hai Hp. unfold resolve_by_name, resolve_lead_tool.
  destruct (name_term py_str (slots s)); [apply spec_ret; done_leaf|].
  apply spec_bind, spec_try. wp_quiet (resolve_tool_quiet W db_select).
  apply spec_bind.
  destruct r as [[m data|m ms]|]; simpl.
  - destruct (truthy (dget data "lead_id")).
    + apply spec_bind.
      eapply spec_conseq; [apply (get_lead_context_total W py_str db_select)|].
      intros evs r' (-> & l & ->). destruct l; wp; done_leaf.
    + wp; done_leaf.
  - wp; done_leaf.
  - wp; done_leaf.
Qed.

Lemma resolve_by_text_spec s c :
  lead_resolution_attempted c = true ->
  replanned c = replanned (context s) ->
  ai_responses c = ai_responses (context s) ->
  pending_actions c = pending_actions (context s) ->
  spec (resolve_by_text W py_str db_select s c) (resolution_done s).
Proof.
  intros Ha Hr Hai Hp. unfold resolve_by_text, get_lead_tool.
  destruct (extract_ref_from_text _); [|by apply resolve_by_name_spec].
  apply spec_bind, spec_try. wp_quiet (get_lead_quiet W db_select).
  destruct (lead_context_from_result _).
  - apply spec_ret. done_leaf.
  - eapply spec_conseq; [by apply resolve_by_name_spec|].
    intros evs r' [-> H]. by split.
Qed.

(** [resolve_lead] never raises, logs nothing, sets
    [lead_resolution_attempted] and clears [need_lead_resolution] *)
Lemma resolve_lead_spec s :
  spec (resolve_lead W py_str db_select s) (resolution_done s).
Proof.
  unfold resolve_lead, ensure_context, get_lead_tool.
  destruct (has_lead (lead_atual s)); [apply spec_ret; done_leaf|].
  destruct (truthy (dget (slots s) "lead_ref_ou_id"));
    [|by apply resolve_by_text_spec].
  apply spec_bind, spec_try. wp_quiet (get_lead_quiet W db_select).
  destruct (lead_context_from_result _); [apply spec_ret; done_leaf|].
  destruct (matches_of _); [|apply spec_ret; done_leaf].
  eapply spec_conseq; [by apply resolve_by_text_spec|].
  intros evs r' [-> H]. by split.
Qed.

End Resolution.

Section Consolidation.

Variable W : Type.
Variable py_str : value -> string.
Variable json_loads : text -> option value.
Variable literal_eval : text -> option value.
Variable PLAN_SYSTEM_PROMPT : text.
Variable plan_llm : W -> list message -> res (list plan_action) * W.
Variable db_select : W -> query -> res (list lead_row) * W.

#[local] Abbreviation scan_message_ := (scan_message W py_str literal_eval db_select).
#[local] Abbreviation scan_messages_ := (scan_messages W py_str literal_eval db_select).
#[local] Abbreviation replan_ :=
  (replan W py_str json_loads PLAN_SYSTEM_PROMPT plan_llm).
#[local] Abbreviation update_context_ :=
  (update_context W py_str json_loads literal_eval PLAN_SYSTEM_PROMPT plan_llm
     db_select).

(** the scan logs nothing, never raises, and at most appends segments *)
Definition scanned (a : scan) (evs : list (event node)) (r : res scan) : Prop :=
  evs = [] /\ exists a', r = Ok a' /\ appended (sc_ctx a) (sc_ctx a').

Lemma note_lead_spec a v :
  spec (note_lead W py_str db_select a v) (scanned a).
Proof.
  unfold note_lead.
  destruct (sc_lead a);
    [apply spec_ret; split; [done|]; eexists; split;
     [reflexivity|apply appended_refl]|].
  destruct (truthy v);
    [|apply spec_ret; split; [done|]; eexists; split;
      [reflexivity|apply appended_refl]].
  apply spec_bind.
  eapply spec_conseq; [apply (get_lead_context_total W py_str db_select)|].
  intros evs r (-> & l & ->).
  destruct l; apply spec_ret; (split; [done|]); eexists;
    (split; [reflexivity|apply appended_refl]).
Qed.

Lemma add_segment_appended a name d :
  appended (sc_ctx a) (sc_ctx (add_segment py_str a name d)).
Proof.
  unfold add_segment.
  destruct (tool_segment _ _ _) as [[[[k i] t] data]|]; [|apply appended_refl].
  destruct (in_texts _ _); [apply appended_refl|]. simpl. apply appended_push.
Qed.

Lemma scan_message_spec a m : spec (scan_message_ a m) (scanned a).
Proof.
  unfold scan_message.
  assert (Hsame : spec (ret (W:=W) (N:=node) a) (scanned a)).
  { apply spec_ret. split; [done|]. eexists. split; [reflexivity|].
    apply appended_refl. }
  destruct (m_kind m); try exact Hsame.
  destruct (tool_data literal_eval m) as [d|]; [|exact Hsame].
  apply spec_bind. eapply spec_conseq; [apply note_lead_spec|].
  intros evs r (-> & a1 & -> & H1). apply spec_ret. split; [done|].
  eexists. split; [reflexivity|].
  eapply appended_trans; [exact H1|apply add_segment_appended].
Qed.

Lemma scan_messages_spec ms : forall a, spec (scan_messages_ a ms) (scanned a).
Proof.
  induction ms as [|m ms IH]; intros a; simpl.
  - apply spec_ret. split; [done|]. eexists. split; [reflexivity|].
    apply appended_refl.
  - apply spec_bind. eapply spec_conseq; [apply scan_message_spec|].
    intros evs r (-> & a1 & -> & H1).
    eapply spec_conseq; [apply IH|].
    intros evs r (-> & a2 & -> & H2). split; [done|].
    eexists. split; [reflexivity|]. by eapply appended_trans.
Qed.

(** the supplementary planning: it calls the planner exactly when the queue
    is empty and no replanning took place; it then either sets [replanned]
    or, when the planner or the merge raise, leaves the context as it is *)
Definition replanning (c : ctx) (evs : list (event node)) (r : res ctx) : Prop :=
  exists c',
    r = Ok c' /\
    need_lead_resolution c' = need_lead_resolution c /\
    lead_resolution_attempted c' = lead_resolution_attempted c /\
    ai_responses c' = ai_responses c /\
    ((evs = [] /\ c' = c /\
      ~ (pending_actions c = [] /\ replanned c = false))
     \/ (evs = [EvPlanner Replan] /\
         pending_actions c = [] /\ replanned c = false /\
         (replanned c' = true \/ c' = c))).

Lemma replan_spec s c new_lead : spec (replan_ s c new_lead) (replanning c).
Proof.
  unfold replan.
  destruct (pending_actions c) as [|a q] eqn:Hp.
  - destruct (replanned c) eqn:Hr.
    + apply spec_ret. exists c. repeat split; try done.
      left. repeat split; try done. intros [_ ?]. congruence.
    + apply spec_bind, spec_emit. apply spec_bind, spec_try, spec_call.
      intros r. destruct r as [plan|]; simpl.
      * destruct (merge_actions_executed _ _ _) as [q completed].
        destruct completed; apply spec_ret.
        -- eexists. split; [reflexivity|]. repeat split; try done.
           right. repeat split; try done. by left.
        -- exists c. repeat split; try done.
           right. repeat split; try done. by right.
      * apply spec_ret. exists c. repeat split; try done.
        right. repeat split; try done. by right.
  - apply spec_ret. exists c. repeat split; try done.
    left. repeat split; try done. intros [? _]. congruence.
Qed.

(** what [update_context] does to the guards of the turn *)
Definition consolidated (s : state) (evs : list (event node)) (r : res state)
  : Prop :=
  exists s',
    r = Ok s' /\
    need_lead_resolution (context s') = need_lead_resolution (context s) /\
    lead_resolution_attempted (context s')
      = lead_resolution_attempted (context s) /\
    ai_responses (context s) `prefix_of` ai_responses (context s') /\
    ((evs = [] /\ replanned (context s') = replanned (context s) /\
      ~ (pending_actions (context s) = [] /\ replanned (context s) = false))
     \/ (evs = [EvPlanner Replan] /\
         pending_actions (context s) = [] /\ replanned (context s) = false /\
         (replanned (context s') = true \/ pending_actions (context s') = []))).

Lemma consolidated_from s c2 new_lead (sl : dict) :
  need_lead_resolution c2 = need_lead_resolution (context s) ->
  lead_resolution_attempted c2 = lead_resolution_attempted (context s) ->
  replanned c2 = replanned (context s) ->
  (pending_actions c2 = [] <-> pending_actions (context s) = []) ->
  ai_responses (context s) `prefix_of` ai_responses c2 ->
  spec (let* c := replan_ s c2 new_lead in
        ret (match new_lead with
             | Some l => with_lead (with_context (with_slots s sl) c) l
             | None => with_context (with_slots s sl) c
             end))%eff
       (consolidated s).
Proof.
  intros Hn Ha Hr Hp Hai. apply spec_bind.
  eapply spec_conseq; [apply replan_spec|].
  intros evs r (c' & -> & Hn' & Ha' & Hai' & Hcase). apply spec_ret.
  eexists. split; [reflexivity|].
  assert (Hctx : context (match new_lead with
                          | Some l => with_lead (with_context (with_slots s sl) c') l
                          | None => with_context (with_slots s sl) c'
                          end) = c') by (by destruct new_lead).
  rewrite Hctx, app_nil_r. rewrite Hn', Ha', Hai'. repeat split; try done.
  destruct Hcase as [(-> & -> & Hno)|(-> & Hq & Hrp & Hres)].
  - left. repeat split; try done. rewrite <- Hp, <- Hr. exact Hno.
  - right. repeat split; try done; [by apply Hp|congruence|].
    destruct Hres as [Ht|Heq]; [by left|right; by rewrite Heq].
Qed.

(** [update_context] never raises; it keeps the resolution flags, at most
    appends segments, and calls the planner at most once, exactly when the
    queue is empty and no replanning took place *)
Lemma update_context_spec s : spec (update_context_ s) (consolidated s).
Proof.
  unfold update_context, ensure_context. apply spec_bind.
  eapply spec_conseq; [apply scan_messages_spec|].
  intros evs r (-> & a & -> & Happ). simpl in Happ.
  destruct (appended_fields _ _ Happ) as (Hp & Hn & Ha & Hr & Hai).
  apply spec_bind.
  assert (Hgo : forall new_lead,
            spec (let c := sc_ctx a in
                  let c := match new_lead with
                           | Some l => set_pending c (map (inject_lead py_str l)
                                                        (pending_actions c))
                           | None => c
                           end in
                  let* c := replan_ s c new_lead in
                  let s0 := with_context (with_slots s (sc_slots a)) c in
                  ret (match new_lead with
                       | Some l => with_lead s0 l
                       | None => s0
                       end))%eff
                 (fun evs2 r2 => consolidated s ([] ++ [] ++ evs2) r2)).
  { intros new_lead. simpl. destruct new_lead as [l|].
    - apply (consolidated_from s _ (Some l)); simpl; try done.
      rewrite Hp. destruct (pending_actions (context s)); simpl; split; done.
    - apply (consolidated_from s _ None); simpl; try done. by rewrite Hp. }
  destruct (sc_lead a) as [l|].
  - apply spec_ret. exact (Hgo (Some l)).
  - destruct (truthy _).
    + eapply spec_conseq; [apply (get_lead_context_total W py_str db_select)|].
      intros evs r (-> & l & ->). exact (Hgo l).
    + apply spec_ret. exact (Hgo None).
Qed.

End Consolidation.

Section Synthesis.

Variable W : Type.
Variable py_str : value -> string.
Variable FINALIZER_SYSTEM_PROMPT : text.
Variable finalizer_model : W -> list message -> res message * W.
Variable tool_invoke : W -> tool_name -> dict -> res tool_result * W.

#[local] Abbreviation respond_final_ :=
  (respond_final W py_str FINALIZER_SYSTEM_PROMPT finalizer_model tool_invoke).
#[local] Abbreviation respond_status_ := (respond_status W py_str tool_invoke).

(** the status lookup never raises and appends exactly one segment *)
Lemma respond_status_spec s i :
  spec (respond_status_ s i)
       (fun evs r =>
          evs = [] /\
          exists s' seg,
            r = Ok s' /\
            context s' = set_ai_responses (context s)
                           (ai_responses (context s) ++ [seg])).
Proof.
  unfold respond_status, invoke, report, push_ai_response, ensure_context.
  apply spec_bind, spec_try, spec_call. intros r.
  destruct r as [[m data|msg ms]|]; simpl.
  - destruct (codes_of _ _); apply spec_ret; (split; [done|]);
      eexists _, _; (split; reflexivity).
  - apply spec_ret. split; [done|]. eexists _, _. split; reflexivity.
  - apply spec_ret. split; [done|]. eexists _, _. split; reflexivity.
Qed.

(** the three exits of [respond_final] *)
Definition synthesized (s : state) (evs : list (event node)) (r : res state)
  : Prop :=
  evs = [] /\
  match r with
  | Raise => True
  | Ok s' =>
      if intent_is (intent s) "listar_status_lead" then
        exists seg,
          context s' = set_ai_responses (context s)
                         (ai_responses (context s) ++ [seg])
      else
        match segment_texts true (ai_responses (context s)),
              segment_texts false (ai_responses (context s)) with
        | [], [] => context s' = context s
        | _, _ => context s' = set_ai_responses (context s) []
        end
  end.

Lemma respond_final_spec s : spec (respond_final_ s) (synthesized s).
Proof.
  unfold respond_final, synthesized, ensure_context, say.
  destruct (intent_is (intent s) "listar_status_lead").
  - eapply spec_conseq; [apply respond_status_spec|].
    intros evs r (-> & s' & seg & -> & H). split; [done|]. by exists seg.
  - destruct (segment_texts true _) as [|x xs];
      [destruct (segment_texts false _) as [|y ys]|].
    + destruct (last_message (messages s)); [apply spec_ret|apply spec_raise];
        by split.
    + apply spec_bind, spec_call. intros r. destruct r; [apply spec_ret|];
        by split.
    + apply spec_bind, spec_call. intros r. destruct r; [apply spec_ret|];
        by split.
Qed.

(** in every case the guards of the turn other than the segments stay *)
Lemma respond_final_guards s :
  spec (respond_final_ s)
       (fun evs r =>
          evs = [] /\
          match r with
          | Raise => True
          | Ok s' =>
              need_lead_resolution (context s')
                = need_lead_resolution (context s) /\
              lead_resolution_attempted (context s')
                = lead_resolution_attempted (context s) /\
              replanned (context s') = replanned (context s) /\
              pending_actions (context s') = pending_actions (context s)
          end).
Proof.
  eapply spec_conseq; [apply respond_final_spec|].
  intros evs r [-> H]. split; [done|]. destruct r as [s'|]; [|done].
  destruct (intent_is _ _).
  - destruct H as [seg ->]. by repeat split.
  - destruct (segment_texts true _); [destruct (segment_texts false _)|];
      rewrite H; by repeat split.
Qed.

End Synthesis.

End NodeFacts.

(** ** The graph: what a turn can do *)

Module GraphFacts.
Import PyStr Py Eff EffFacts Tools State Queue Helpers Workflow NodeFacts.

Definition is_resolution (ev : event node) : bool :=
  match ev with EvNode resolve_lead_node => true | _ => false end.

Definition is_replan (ev : event node) : bool :=
  match ev with EvPlanner Replan => true | _ => false end.

(** how often the resolver started, how often the supplementary planning
    called the planner *)
Definition resolutions (l : list (event node)) : nat :=
  length (List.filter is_resolution l).
Definition replans (l : list (event node)) : nat :=
  length (List.filter is_replan l).

Lemma resolutions_app l1 l2 :
  resolutions (l1 ++ l2) = resolutions l1 + resolutions l2.
Proof. unfold resolutions. by rewrite List.filter_app, length_app. Qed.

Lemma replans_app l1 l2 : replans (l1 ++ l2) = replans l1 + replans l2.
Proof. unfold replans. by rewrite List.filter_app, length_app. Qed.

(** a resolution was attempted and none is asked for *)
Definition resolution_closed (s : state) : Prop :=
  lead_resolution_attempted (context s) = true /\
  need_lead_resolution (context s) = false.

(** what one step of the graph guarantees *)
Definition step_ok (n : node) (s : state) (evs : list (event node))
    (r : res (node * state)) : Prop :=
  resolutions evs = 0 /\ replans evs <= 1 /\
  (n <> update_context_node -> replans evs = 0) /\
  (replanned (context s) = true -> replans evs = 0) /\
  match r with
  | Raise => True
  | Ok (n', s') =>
      (n = resolve_lead_node -> n' = router /\ resolution_closed s') /\
      (n <> resolve_lead_node -> resolution_closed s ->
       resolution_closed s' /\ n' <> resolve_lead_node) /\
      (replanned (context s) = true -> replanned (context s') = true) /\
      (replans evs = 1 ->
       replanned (context s') = true \/ n' = respond_final_node) /\
      (n = respond_final_node \/ n = END -> n' = END) /\
      (n <> respond_final_node ->
       ai_responses (context s) `prefix_of` ai_responses (context s'))
  end.

Lemma route_intent_closed s :
  need_lead_resolution (context s) = false -> route_intent s <> resolve_lead_node.
Proof. unfold route_intent. intros ->. by repeat case_match. Qed.

Ltac guards :=
  unfold step_ok, resolution_closed, replans, resolutions in *; simpl in *;
  intuition (try congruence; try lia; try done).

Section Graph.

Variable W : Type.
Variable py_str : value -> string.
Variable json_loads : text -> option value.
Variable literal_eval : text -> option value.
Variables PARSER_SYSTEM_PROMPT PLAN_SYSTEM_PROMPT FINALIZER_SYSTEM_PROMPT : text.
Variable parser_llm : W -> list message -> res (string * list text) * W.
Variable plan_llm : W -> list message -> res (list plan_action) * W.
Variable finalizer_model : W -> list message -> res message * W.
Variable leads_agent_graph : W -> state -> res (list message) * W.
Variable proposals_agent_graph : W -> state -> res (list message) * W.
Variable db_select : W -> query -> res (list lead_row) * W.
Variable tool_invoke : W -> tool_name -> dict -> res tool_result * W.
Variable today_iso : W -> text.
Variable tomorrow_iso : W -> text.

#[local] Abbreviation step_ :=
  (step W py_str json_loads literal_eval PARSER_SYSTEM_PROMPT PLAN_SYSTEM_PROMPT
     FINALIZER_SYSTEM_PROMPT parser_llm plan_llm finalizer_model
     leads_agent_graph proposals_agent_graph db_select tool_invoke today_iso
     tomorrow_iso).
#[local] Abbreviation run_ :=
  (run W py_str json_loads literal_eval PARSER_SYSTEM_PROMPT PLAN_SYSTEM_PROMPT
     FINALIZER_SYSTEM_PROMPT parser_llm plan_llm finalizer_model
     leads_agent_graph proposals_agent_graph db_select tool_invoke today_iso
     tomorrow_iso).
#[local] Abbreviation turn_ :=
  (turn W py_str json_loads literal_eval PARSER_SYSTEM_PROMPT PLAN_SYSTEM_PROMPT
     FINALIZER_SYSTEM_PROMPT parser_llm plan_llm finalizer_model
     leads_agent_graph proposals_agent_graph db_select tool_invoke today_iso
     tomorrow_iso).

(** a node that only appends segments, followed by a fixed edge *)
Lemma appending_step (m : M W node state) n n' s :
  spec m (only_appends s) ->
  n <> resolve_lead_node -> n <> respond_final_node -> n <> END ->
  n' <> resolve_lead_node ->
  spec (let* s' := m in ret (n', s'))%eff (step_ok n s).
Proof.
  intros Hm Hn1 Hn2 Hn3 Hn'. apply spec_bind. eapply spec_conseq; [exact Hm|].
  intros evs r [-> Hr]. destruct r as [s'|].
  - apply spec_ret.
    destruct (appended_fields _ _ Hr) as (Hp & Hne & Ha & Hrp & Hai). guards.
  - guards.
Qed.

Lemma step_spec n s : spec (step_ n s) (step_ok n s).
Proof.
  destruct n; simpl.
  - (* parse_and_classify *)
    apply appending_step; try done. apply parse_and_classify_spec.
  - (* prepare_plan *)
    apply spec_bind. eapply spec_conseq; [apply prepare_plan_spec|].
    intros evs r (-> & s' & -> & Hn & Ha & Hr & Hai). apply spec_ret.
    assert (ai_responses (context s) `prefix_of` ai_responses (context s'))
      by (by rewrite Hai).
    guards.
  - (* router *)
    apply spec_ret.
    destruct (router_node_guards py_str s) as (Ha & Hr & Hai & Hp).
    assert (Hpre : ai_responses (context s)
                     `prefix_of` ai_responses (context (router_node py_str s)))
      by (by rewrite Hai).
    assert (Hneed : resolution_closed s ->
                    need_lead_resolution (context (router_node py_str s)) = false).
    { intros [Hatt Hneed].
      destruct (need_lead_resolution (context (router_node py_str s))) eqn:E;
        [|done].
      apply (router_node_need py_str s Hatt) in E. congruence. }
    pose proof (route_intent_closed (router_node py_str s)) as Hroute.
    guards.
  - (* resolve_lead *)
    apply spec_bind. eapply spec_conseq; [apply resolve_lead_spec|].
    intros evs r (-> & s' & -> & Ha & Hn & Hr & Hai & Hp). apply spec_ret.
    assert (ai_responses (context s) `prefix_of` ai_responses (context s'))
      by (by rewrite Hai).
    guards.
  - (* leads_agent *)
    apply appending_step; try done. apply run_leads_agent_spec.
  - (* handle_notes *)
    apply appending_step; try done. apply handle_notes_spec.
  - (* handle_tasks *)
    apply appending_step; try done. apply handle_tasks_spec.
  - (* proposals_agent *)
    apply appending_step; try done. apply run_proposals_agent_spec.
  - (* update_context *)
    apply spec_bind. eapply spec_conseq; [apply update_context_spec|].
    intros evs r (s' & -> & Hn & Ha & Hai & Hcase). apply spec_ret.
    rewrite app_nil_r.
    assert (Hnext : (if has_pending s' then execute_pending_node
                     else respond_final_node) <> resolve_lead_node)
      by (by destruct (has_pending s')).
    destruct Hcase as [(-> & Hr & Hno)|(-> & Hq & Hr & Hres)].
    + guards.
    + assert (Hlast : replanned (context s') = true \/
                      (if has_pending s' then execute_pending_node
                       else respond_final_node) = respond_final_node).
      { destruct Hres as [?|Hempty]; [by left|right].
        unfold has_pending. by rewrite Hempty. }
      guards.
  - (* execute_pending *)
    apply spec_ret.
    destruct (execute_pending_guards py_str s) as (Hn & Ha & Hr & Hai).
    assert (ai_responses (context s)
              `prefix_of` ai_responses (context (execute_pending py_str s)))
      by (by rewrite Hai).
    guards.
  - (* respond_final *)
    apply spec_bind. eapply spec_conseq; [apply respond_final_guards|].
    intros evs r [-> Hr]. destruct r as [s'|].
    + apply spec_ret. destruct Hr as (Hn & Ha & Hrp & Hp). guards.
    + guards.
  - (* END *)
    apply spec_ret. guards.
Qed.

(** one more round of the loop: the node is logged, then stepped *)
Lemma run_round fuel n s (Q : list (event node) -> res (node * state) -> Prop) :
  n <> END ->
  spec (step_ n s)
       (fun evs1 r =>
          match r with
          | Ok (n', s') =>
              spec (run_ fuel n' s') (fun evs2 r2 => Q (EvNode n :: evs1 ++ evs2) r2)
          | Raise => Q (EvNode n :: evs1) Raise
          end) ->
  spec (run_ (S fuel) n s) Q.
Proof.
  intros Hn H.
  assert (Hrun : run_ (S fuel) n s
                 = (let* _ := emit (EvNode n) in
                    let* '(n', s') := step_ n s in run_ fuel n' s')%eff)
    by (by destruct n).
  rewrite Hrun. apply spec_bind, spec_emit. apply spec_bind.
  eapply spec_conseq; [exact H|]. intros evs r Hr.
  destruct r as [[n' s']|]; exact Hr.
Qed.

Lemma run_at_END fuel s : run_ fuel END s = ret (END, s).
Proof. by destruct fuel. Qed.

Lemma node_is_END (n : node) : n = END \/ n <> END.
Proof. destruct n; (by left) || (by right). Qed.

Lemma resolutions_node n evs :
  resolutions (EvNode n :: evs)
  = (if is_resolution (EvNode n) then 1 else 0) + resolutions evs.
Proof. by destruct n. Qed.

Lemma replans_node n evs : replans (EvNode n :: evs) = replans evs.
Proof. done. Qed.

(** after a resolution the resolver is not entered again *)
Lemma run_closed fuel : forall n s,
  n <> resolve_lead_node -> resolution_closed s ->
  spec (run_ fuel n s) (fun evs _ => resolutions evs = 0).
Proof.
  induction fuel as [|fuel IH]; intros n s Hn Hc.
  - simpl. by apply spec_ret.
  - destruct (node_is_END n) as [->|Hend].
    { rewrite run_at_END. by apply spec_ret. }
    apply run_round; [done|]. eapply spec_conseq; [apply step_spec|].
    intros evs r (Hres & _ & _ & _ & Hr).
    assert (Hlog : is_resolution (EvNode n) = false) by (by destruct n).
    destruct r as [[n' s']|].
    + destruct Hr as (_ & Hkeep & _). destruct (Hkeep Hn Hc) as [Hc' Hn'].
      eapply spec_conseq; [exact (IH n' s' Hn' Hc')|].
      intros evs2 r2 H2. cbv beta in H2.
      rewrite resolutions_node, Hlog, resolutions_app, Hres, H2. done.
    + by rewrite resolutions_node, Hlog, Hres.
Qed.

(** the resolver is entered at most once in a run *)
Lemma run_resolutions fuel : forall n s,
  spec (run_ fuel n s) (fun evs _ => resolutions evs <= 1).
Proof.
  induction fuel as [|fuel IH]; intros n s.
  - simpl. apply spec_ret. unfold resolutions. simpl. lia.
  - destruct (node_is_END n) as [->|Hend].
    { rewrite run_at_END. apply spec_ret. unfold resolutions. simpl. lia. }
    apply run_round; [done|]. eapply spec_conseq; [apply step_spec|].
    intros evs r (Hres & _ & _ & _ & Hr).
    destruct r as [[n' s']|].
    + destruct Hr as (Hfirst & _).
      assert (Hcase : n = resolve_lead_node \/ is_resolution (EvNode n) = false)
        by (destruct n; (by left) || (by right)).
      destruct Hcase as [->|Hlog].
      * destruct (Hfirst eq_refl) as [-> Hc'].
        eapply spec_conseq; [apply (run_closed fuel router s'); done|].
        intros evs2 r2 H2. cbv beta in H2.
        rewrite resolutions_node, resolutions_app, Hres, H2. simpl. lia.
      * eapply spec_conseq; [exact (IH n' s')|].
        intros evs2 r2 H2. cbv beta in H2.
        rewrite resolutions_node, Hlog, resolutions_app, Hres. simpl. lia.
    + rewrite resolutions_node, Hres. destruct (is_resolution _); simpl; lia.
Qed.

(** no supplementary planning once [replanned] is set or the turn answers *)
Lemma run_replanned fuel : forall n s,
  replanned (context s) = true \/ n = respond_final_node \/ n = END ->
  spec (run_ fuel n s) (fun evs _ => replans evs = 0).
Proof.
  induction fuel as [|fuel IH]; intros n s Hc.
  - simpl. by apply spec_ret.
  - destruct (node_is_END n) as [->|Hend].
    { rewrite run_at_END. by apply spec_ret. }
    apply run_round; [done|]. eapply spec_conseq; [apply step_spec|].
    intros evs r (_ & _ & Hother & Hset & Hr).
    assert (Hnone : replans evs = 0).
    { destruct Hc as [Hc|[Hc|Hc]]; [by apply Hset|subst n; by apply Hother|done]. }
    destruct r as [[n' s']|].
    + destruct Hr as (_ & _ & Hkeep & _ & Hlast & _).
      assert (Hc' : replanned (context s') = true \/ n' = respond_final_node
                    \/ n' = END).
      { destruct Hc as [Hc|Hc]; [left; by apply Hkeep|].
        right. right. apply Hlast. tauto. }
      eapply spec_conseq; [exact (IH n' s' Hc')|].
      intros evs2 r2 H2. cbv beta in H2. by rewrite replans_node, replans_app, Hnone, H2.
    + by rewrite replans_node.
Qed.

(** the supplementary planning calls the planner at most once in a run *)
Lemma run_replans fuel : forall n s,
  spec (run_ fuel n s) (fun evs _ => replans evs <= 1).
Proof.
  induction fuel as [|fuel IH]; intros n s.
  - simpl. apply spec_ret. unfold replans. simpl. lia.
  - destruct (node_is_END n) as [->|Hend].
    { rewrite run_at_END. apply spec_ret. unfold replans. simpl. lia. }
    apply run_round; [done|]. eapply spec_conseq; [apply step_spec|].
    intros evs r (_ & Hle & _ & _ & Hr).
    destruct r as [[n' s']|].
    + destruct Hr as (_ & _ & _ & Hafter & _).
      assert (Hcase : replans evs = 0 \/ replans evs = 1) by lia.
      destruct Hcase as [H0|H1].
      * eapply spec_conseq; [exact (IH n' s')|].
        intros evs2 r2 H2. cbv beta in H2. rewrite replans_node, replans_app, H0. simpl. lia.
      * eapply spec_conseq; [apply (run_replanned fuel n' s')|].
        { destruct (Hafter H1); tauto. }
        intros evs2 r2 H2. cbv beta in H2. rewrite replans_node, replans_app, H1, H2. lia.
    + by rewrite replans_node.
Qed.

(** C2 -- resolution loop guard.  Whatever the database answers,
    [resolve_lead] ends with [lead_resolution_attempted] set; while that flag
    is set [router_node] never turns [need_lead_resolution] on; and so a turn
    enters the resolver at most once, whether or not a lead was found. *)
Theorem resolution_loop_guard (fuel : nat) (s : state) (e : env W node) :
  (exists s',
     fst (resolve_lead W py_str db_select s e) = Ok s' /\
     lead_resolution_attempted (context s') = true) /\
  (lead_resolution_attempted (context s) = true ->
   need_lead_resolution (context s) = false ->
   need_lead_resolution (context (router_node py_str s)) = false) /\
  (exists evs,
     log (snd (turn_ fuel s e)) = log e ++ evs /\ resolutions evs <= 1).
Proof.
  split; [|split].
  - destruct (resolve_lead_spec W py_str db_select s e)
      as (evs & _ & _ & s' & Hok & Ha & _).
    by exists s'.
  - intros Ha Hn.
    destruct (need_lead_resolution (context (router_node py_str s))) eqn:E;
      [|done].
    apply (router_node_need py_str s Ha) in E. congruence.
  - destruct (run_resolutions fuel parse_and_classify_node s e)
      as (evs & Hlog & Hle).
    by exists evs.
Qed.

(** the supplementary planning, case by case: no call when the queue holds
    something or a replanning took place; otherwise one call, after which
    [replanned] is set when the planner and the merge completed, and the
    context is as it was when one of them raised *)
Lemma replan_cases s c new_lead (e0 : env W node) :
  ((pending_actions c <> [] \/ replanned c = true) ->
   replan W py_str json_loads PLAN_SYSTEM_PROMPT plan_llm s c new_lead e0
   = (Ok c, e0)) /\
  (pending_actions c = [] -> replanned c = false ->
   exists msgs c',
     replan W py_str json_loads PLAN_SYSTEM_PROMPT plan_llm s c new_lead e0
     = (Ok c', Env (snd (plan_llm (world e0) msgs))
                   (log e0 ++ [EvPlanner Replan])) /\
     match fst (plan_llm (world e0) msgs) with
     | Ok plan =>
         let m :=
           merge_actions_executed (executed_intents c) []
             (plan_new_actions py_str json_loads (intent s)
                (match new_lead with Some l => Some l | None => lead_atual s end)
                plan) in
         if snd m then c' = set_replanned (set_pending c (fst m)) true
         else c' = c
     | Raise => c' = c
     end).
Proof.
  unfold replan. split.
  - intros H. destruct (pending_actions c) as [|a q]; [|by destruct e0].
    destruct (replanned c); [by destruct e0|]. by destruct H.
  - intros Hq Hr. rewrite Hq, Hr.
    exists ([ system PLAN_SYSTEM_PROMPT ]
            ++ match resolved_lead (match new_lead with
                                    | Some l => Some l
                                    | None => lead_atual s
                                    end) with
               | Some l => [ human (replan_hint (str_ py_str (lead_id l))) ]
               | None => []
               end
            ++ match last_human_text (messages s) with
               | [] => messages s
               | _ => [ human (last_human_text (messages s)) ]
               end).
    unfold bind, emit, try_, call, ret. simpl.
    destruct (plan_llm (world e0) _) as [[plan|] w]; simpl.
    + destruct (merge_actions_executed _ _ _) as [q completed].
      destruct completed; by eexists.
    + by eexists.
Qed.

(** [update_context] consults the planner through one call of [replan], on
    a context whose queue is empty exactly when the state's is and whose
    [replanned] is the state's, and returns the context of that call *)
Lemma update_context_replan s (e : env W node) :
  exists c new_lead e0 c' s',
    log e0 = log e /\
    replanned c = replanned (context s) /\
    (pending_actions c = [] <-> pending_actions (context s) = []) /\
    replan W py_str json_loads PLAN_SYSTEM_PROMPT plan_llm s c new_lead e0
    = (Ok c', snd (update_context W py_str json_loads literal_eval
                     PLAN_SYSTEM_PROMPT plan_llm db_select s e)) /\
    fst (update_context W py_str json_loads literal_eval PLAN_SYSTEM_PROMPT
           plan_llm db_select s e) = Ok s' /\
    context s' = c'.
Proof.
  remember (update_context W py_str json_loads literal_eval PLAN_SYSTEM_PROMPT
              plan_llm db_select s e) as out eqn:Hout.
  unfold update_context, ensure_context, bind in Hout.
  destruct (scan_messages_spec W py_str literal_eval db_select
              (rev (messages s))
              (Scan None (slots s) (context s)
                    (existing_keys py_str (context s))) e)
    as (evs & Hlog & Hscan).
  destruct (scan_messages W py_str literal_eval db_select _ _ e)
    as [ra ea].
  simpl in Hlog, Hscan. destruct Hscan as (-> & a & -> & Happ).
  simpl in Happ. rewrite app_nil_r in Hlog.
  destruct (appended_fields _ _ Happ) as (Hp & _ & _ & Hr & _).
  set (look := match sc_lead a with
               | Some l => ret (Some l)
               | None =>
                   if truthy (dget (sc_slots a) "lead_ref_ou_id")
                   then get_lead_context W py_str db_select
                          (dget (sc_slots a) "lead_ref_ou_id")
                   else ret None
               end) in Hout.
  assert (Hlook : spec look (fun evs r => evs = [] /\ exists l, r = Ok l)).
  { unfold look. destruct (sc_lead a); [apply spec_ret; by eauto|].
    destruct (truthy _); [apply get_lead_context_total|].
    apply spec_ret. by eauto. }
  destruct (Hlook ea) as (evs & Hlog0 & Hl).
  destruct (look ea) as [rl e0]. simpl in Hlog0, Hl.
  destruct Hl as (-> & nl & ->). rewrite app_nil_r in Hlog0.
  set (c := match nl with
            | Some l => set_pending (sc_ctx a)
                          (map (inject_lead py_str l) (pending_actions (sc_ctx a)))
            | None => sc_ctx a
            end) in Hout.
  destruct (replan_spec W py_str json_loads PLAN_SYSTEM_PROMPT plan_llm s c nl
              e0) as (evs & _ & Hc).
  destruct (replan W py_str json_loads PLAN_SYSTEM_PROMPT plan_llm s c nl e0)
    as [rc e1] eqn:Er.
  simpl in Hc. destruct Hc as (c' & -> & _). simpl in Hout. subst out.
  exists c, nl, e0, c'. eexists. simpl.
  split; [congruence|]. split.
  { unfold c. destruct nl; simpl; congruence. }
  split.
  { unfold c. destruct nl; simpl; rewrite Hp;
      destruct (pending_actions (context s)); simpl; split; done. }
  split; [done|]. split; [reflexivity|]. by destruct nl.
Qed.

(** C4, amended -- re-plan bound.  [update_context] calls the planner at most
    once, and only when the queue is empty and [replanned] is unset; it does
    so through one call of the supplementary planning, whose context it
    returns; that call sets [replanned] when the planner and the merge
    complete, and when one of them raises it leaves the context as it was,
    [replanned] unset and the queue empty, so that the turn goes on to the
    final answer; and so a turn makes the supplementary planner call at most
    once. *)
Theorem replan_bound (fuel : nat) (s : state) (e : env W node) :
  (exists s' evs,
     fst (update_context W py_str json_loads literal_eval PLAN_SYSTEM_PROMPT
            plan_llm db_select s e) = Ok s' /\
     log (snd (update_context W py_str json_loads literal_eval
                 PLAN_SYSTEM_PROMPT plan_llm db_select s e)) = log e ++ evs /\
     replans evs <= 1 /\
     (replans evs = 1 ->
      pending_actions (context s) = [] /\ replanned (context s) = false /\
      (replanned (context s') = true \/
       (pending_actions (context s') = [] /\ has_pending s' = false)))) /\
  (exists c new_lead e0 c' s',
     log e0 = log e /\
     replanned c = replanned (context s) /\
     (pending_actions c = [] <-> pending_actions (context s) = []) /\
     replan W py_str json_loads PLAN_SYSTEM_PROMPT plan_llm s c new_lead e0
     = (Ok c', snd (update_context W py_str json_loads literal_eval
                      PLAN_SYSTEM_PROMPT plan_llm db_select s e)) /\
     fst (update_context W py_str json_loads literal_eval PLAN_SYSTEM_PROMPT
            plan_llm db_select s e) = Ok s' /\
     context s' = c') /\
  (forall c new_lead (e0 : env W node),
     ((pending_actions c <> [] \/ replanned c = true) ->
      replan W py_str json_loads PLAN_SYSTEM_PROMPT plan_llm s c new_lead e0
      = (Ok c, e0)) /\
     (pending_actions c = [] -> replanned c = false ->
      exists msgs c',
        replan W py_str json_loads PLAN_SYSTEM_PROMPT plan_llm s c new_lead e0
        = (Ok c', Env (snd (plan_llm (world e0) msgs))
                      (log e0 ++ [EvPlanner Replan])) /\
        match fst (plan_llm (world e0) msgs) with
        | Ok plan =>
            let m :=
              merge_actions_executed (executed_intents c) []
                (plan_new_actions py_str json_loads (intent s)
                   (match new_lead with
                    | Some l => Some l
                    | None => lead_atual s
                    end) plan) in
            if snd m then c' = set_replanned (set_pending c (fst m)) true
            else c' = c
        | Raise => c' = c
        end)) /\
  (exists evs,
     log (snd (turn_ fuel s e)) = log e ++ evs /\ replans evs <= 1).
Proof.
  split; [|split; [|split]].
  - destruct (update_context_spec W py_str json_loads literal_eval
                PLAN_SYSTEM_PROMPT plan_llm db_select s e)
      as (evs & Hlog & s' & Hok & _ & _ & _ & Hcase).
    exists s', evs. split; [done|]. split; [done|].
    destruct Hcase as [(-> & _ & _)|(-> & Hq & Hr & Hres)].
    + split; [unfold replans; simpl; lia|]. unfold replans. simpl. lia.
    + split; [unfold replans; simpl; lia|]. intros _.
      split; [done|]. split; [done|].
      destruct Hres as [?|Hempty]; [by left|right].
      split; [done|]. unfold has_pending. by rewrite Hempty.
  - apply update_context_replan.
  - intros c new_lead e0. apply replan_cases.
  - destruct (run_replans fuel parse_and_classify_node s e)
      as (evs & Hlog & Hle).
    by exists evs.
Qed.

(** C7, amended -- the segments of the turn.  Every node other than
    [respond_final] leaves [ai_responses] as it is or appends to it.  Outside
    the status lookup, [respond_final] on completion leaves the list empty
    when some segment has a text that is not blank (the summarising path),
    and as it was when none has (the echo path). *)
Theorem ai_responses_emptied_by_synthesizer (n : node) (s : state)
    (e : env W node) :
  (n <> respond_final_node ->
   forall n' s',
     fst (step_ n s e) = Ok (n', s') ->
     ai_responses (context s) `prefix_of` ai_responses (context s')) /\
  (intent_is (intent s) "listar_status_lead" = false ->
   forall s',
     fst (respond_final W py_str FINALIZER_SYSTEM_PROMPT finalizer_model
            tool_invoke s e) = Ok s' ->
     ai_responses (context s') =
       match segment_texts true (ai_responses (context s)),
             segment_texts false (ai_responses (context s)) with
       | [], [] => ai_responses (context s)
       | _, _ => []
       end).
Proof.
  split.
  - intros Hn n' s' Hstep.
    destruct (step_spec n s e) as (evs & _ & _ & _ & _ & _ & Hok).
    rewrite Hstep in Hok. by apply Hok.
  - intros Hi s' Hrun.
    destruct (respond_final_spec W py_str FINALIZER_SYSTEM_PROMPT
                finalizer_model tool_invoke s e) as (evs & _ & _ & Hok).
    rewrite Hrun, Hi in Hok.
    destruct (segment_texts true _); [destruct (segment_texts false _)|];
      by rewrite Hok.
Qed.

End Graph.

(** *** Sample collaborators and turns *)

Definition sample_str : value -> string := fun _ => "?"%string.
Definition no_parse : text -> option value := fun _ => None.

(** a classifier that reads a note out of every message *)
Definition note_parser (w : unit) (ms : list message)
  : res (string * list text) * unit :=
  (Ok ("nota_adicionar"%string, [of_string "texto=ligar"]), w).

Definition empty_planner (w : unit) (ms : list message)
  : res (list plan_action) * unit := (Ok [], w).

(** a planner that is out of reach *)
Definition failing_planner (w : unit) (ms : list message)
  : res (list plan_action) * unit := (Raise, w).

Definition sample_finalizer (w : unit) (ms : list message)
  : res message * unit := (Ok (ai (of_string "feito")), w).

Definition idle_agent (w : unit) (s : state) : res (list message) * unit :=
  (Ok [], w).

Definition empty_db (w : unit) (q : query) : res (list lead_row) * unit :=
  (Ok [], w).

Definition failing_tool (w : unit) (t : tool_name) (d : dict)
  : res tool_result * unit := (Raise, w).

(** [list_lead_status] over a table with the one status [novo] *)
Definition status_tool (w : unit) (t : tool_name) (d : dict)
  : res tool_result * unit :=
  (Ok (ToolOk (of_string "1 status")
         [ ("items", VList [VDict [ ("codigo", VStr "novo");
                                    ("rotulo", VStr "Novo") ]]);
           ("total", VInt 1) ]), w).

Definition sample_day (w : unit) : text := of_string "2025-01-01".

Definition sample_turn (fuel : nat) (s : state) :=
  turn unit sample_str no_parse no_parse [] [] [] note_parser empty_planner
       sample_finalizer idle_agent idle_agent empty_db failing_tool sample_day
       sample_day fuel s (Env tt []).

(** the first message of a conversation *)
Definition fresh_state : state :=
  St [human (of_string "anotar: ligar amanha")] None [] None [] empty_ctx false.

(** a note without a lead, after a resolution that found none *)
Definition unresolved_state : state :=
  St [human (of_string "anotar: ligar")] (Some "nota_adicionar"%string)
     [ ("texto", VStr "ligar") ] None [] (set_attempted empty_ctx true) true.

(** a note whose handler has run: the queue is empty, no replanning yet *)
Definition replan_state : state :=
  St [human (of_string "anotar: ligar")] (Some "nota_adicionar"%string)
     [ ("texto", VStr "ligar") ] None [] empty_ctx true.

(** the question for the lead statuses, at the final node *)
Definition status_state : state :=
  St [human (of_string "quais status de lead existem?")]
     (Some "listar_status_lead"%string) [] None [] empty_ctx true.

(** a turn with one executed action to summarise *)
Definition summary_state : state :=
  St [human (of_string "anotar: ligar")] (Some "nota_adicionar"%string)
     [ ("texto", VStr "ligar") ] None []
     (set_ai_responses empty_ctx
        [Segment "nota_adicionar" (of_string "Nota adicionada.") true []])
     true.

Lemma resolution_loop_guard_witness :
  lead_resolution_attempted (context unresolved_state) = true /\
  need_lead_resolution (context unresolved_state) = false /\
  need_lead_resolution (context (router_node sample_str unresolved_state))
    = false /\
  resolutions (log (snd (sample_turn 20 fresh_state))) <= 1.
Proof.
  split; [reflexivity|]. split; [reflexivity|]. split.
  - exact (proj1 (proj2 (resolution_loop_guard unit sample_str no_parse
             no_parse [] [] [] note_parser empty_planner sample_finalizer
             idle_agent idle_agent empty_db failing_tool sample_day sample_day
             0 unresolved_state (Env tt []))) eq_refl eq_refl).
  - destruct (proj2 (proj2 (resolution_loop_guard unit sample_str no_parse
                no_parse [] [] [] note_parser empty_planner sample_finalizer
                idle_agent idle_agent empty_db failing_tool sample_day
                sample_day 20 fresh_state (Env tt []))))
      as (evs & Hlog & Hle).
    unfold sample_turn. rewrite Hlog. exact Hle.
Defined.

(** the sample turn does enter the resolver, and finds no lead *)
Lemma sample_turn_resolves_once :
  resolutions (log (snd (sample_turn 20 fresh_state))) = 1 /\
  replans (log (snd (sample_turn 20 fresh_state))) = 1 /\
  exists s', fst (sample_turn 20 fresh_state) = Ok (END, s') /\
             lead_atual s' = None.
Proof.
  split; [vm_compute; reflexivity|]. split; [vm_compute; reflexivity|].
  eexists. split; [vm_compute; reflexivity|reflexivity].
Qed.

(** the planner is called by [update_context] and raises: [replanned]
    stays unset *)
Lemma replan_leaves_flag_unset :
  pending_actions (context replan_state) = [] /\
  replanned (context replan_state) = false /\
  exists s',
    update_context unit sample_str no_parse no_parse [] failing_planner
      empty_db replan_state (Env tt [])
    = (Ok s', Env tt [EvPlanner Replan]) /\
    replanned (context s') = false.
Proof.
  split; [reflexivity|]. split; [reflexivity|].
  eexists. split; [vm_compute; reflexivity|reflexivity].
Qed.

Lemma replan_bound_witness :
  exists s',
    fst (update_context unit sample_str no_parse no_parse [] empty_planner
           empty_db replan_state (Env tt [])) = Ok s' /\
    pending_actions (context replan_state) = [] /\
    replanned (context replan_state) = false /\
    (replanned (context s') = true \/
     (pending_actions (context s') = [] /\ has_pending s' = false)) /\
    replanned (context s') = true.
Proof.
  destruct (replan_bound unit sample_str no_parse no_parse [] [] []
              note_parser empty_planner sample_finalizer idle_agent idle_agent
              empty_db failing_tool sample_day sample_day 0 replan_state
              (Env tt []))
    as [(s' & evs & Hok & Hlog & _ & Hone) _].
  exists s'. split; [exact Hok|].
  assert (Hset : replanned (context s') = true).
  { vm_compute in Hok. injection Hok as <-. reflexivity. }
  destruct Hone as (Hq & Hr & Hres).
  { vm_compute in Hlog. rewrite <- Hlog. reflexivity. }
  repeat split; assumption.
Defined.

(** the status lookup completes and the list holds the segment it pushed *)
Lemma status_lookup_keeps_segment :
  exists s' seg,
    respond_final unit sample_str [] sample_finalizer status_tool status_state
      (Env tt [])
    = (Ok s', Env tt []) /\
    ai_responses (context s') = [seg] /\
    seg_intent seg = "listar_status_lead"%string.
Proof.
  eexists _, _. split; [vm_compute; reflexivity|]. split; reflexivity.
Qed.

Lemma ai_responses_emptied_by_synthesizer_witness :
  ai_responses (context summary_state)
    `prefix_of` ai_responses (context (router_node sample_str summary_state))
  /\ intent_is (intent summary_state) "listar_status_lead" = false
  /\ exists s',
       fst (respond_final unit sample_str [] sample_finalizer failing_tool
              summary_state (Env tt [])) = Ok s' /\
       ai_responses (context s') = [].
Proof.
  split; [|split; [reflexivity|]].
  - apply (proj1 (ai_responses_emptied_by_synthesizer unit sample_str no_parse
             no_parse [] [] [] note_parser empty_planner sample_finalizer
             idle_agent idle_agent empty_db failing_tool sample_day sample_day
             router summary_state (Env tt []))
             ltac:(discriminate)
             (route_intent (router_node sample_str summary_state))
             (router_node sample_str summary_state) eq_refl).
  - eexists. split; [vm_compute; reflexivity|].
    etransitivity.
    + apply (proj2 (ai_responses_emptied_by_synthesizer unit sample_str
               no_parse no_parse [] [] [] note_parser empty_planner
               sample_finalizer idle_agent idle_agent empty_db failing_tool
               sample_day sample_day router summary_state (Env tt []))
               eq_refl).
      vm_compute. reflexivity.
    + vm_compute. reflexivity.
Defined.

End GraphFacts.

(** ** [tools.py]: the lookup helpers *)

Module ToolsFacts.
Import PyStr Re Py Eff EffFacts Tools ReFacts RefExtraction.

Lemma filter_filter_same {A} (p : A -> bool) (l : list A) :
  List.filter p (List.filter p l) = List.filter p l.
Proof.
  induction l as [|a l IH]; [done|]. simpl.
  destruct (p a) eqn:E; simpl; [rewrite E; by f_equal|done].
Qed.

Lemma filter_all {A} (p : A -> bool) (l : list A) :
  Forall (fun a => p a = true) (List.filter p l).
Proof.
  induction l as [|a l IH]; [constructor|]. simpl.
  destruct (p a) eqn:E; [by constructor|done].
Qed.

(** X1 -- [normalize_phone] keeps exactly the decimal digits of its
    argument, in their order; applying it twice changes nothing more. *)
Theorem normalize_phone_digits (s : text) :
  normalize_phone s = List.filter is_digit s /\
  Forall (fun c => is_digit c = true) (normalize_phone s) /\
  normalize_phone (normalize_phone s) = normalize_phone s.
Proof.
  assert (H : forall t, normalize_phone t = List.filter is_digit t)
    by (intros t; apply strip_non_digits_filter).
  split; [apply H|]. split.
  - rewrite H. apply filter_all.
  - by rewrite !H, filter_filter_same.
Qed.

Definition newline : ascii := ascii_of_nat 10.

(** X2 -- [is_uuid] accepts exactly the texts made of 36 hexadecimal digits
    or dashes, with or without one final newline; the place of the dashes
    is not looked at. *)
Theorem is_uuid_charset (s : text) :
  is_uuid s = true <->
  exists body,
    length body = 36 /\ all_in is_hex_or_dash body /\
    (s = body \/ s = body ++ [newline]).
Proof.
  unfold is_uuid. split.
  - destruct s as [|c0 s0]; [done|].
    destruct (match_here UUID_RE None (c0 :: s0)) as [lens|] eqn:E; [|done].
    intros _. apply match_here_sound in E. unfold UUID_RE, Exactly in E.
    apply accepts_rep_inv in E
      as (a & rest & ls & _ & Hs & Hlo & Hhi & Hall & Hend).
    simpl in Hhi. destruct ls as [|n ls]; [done|].
    destruct Hend as (_ & Hat & _).
    exists a. split; [lia|]. split; [done|]. rewrite Hs.
    destruct rest as [|c [|c' rest]]; simpl in Hat; try done.
    + left. by rewrite app_nil_r.
    + right. apply Nat.eqb_eq in Hat. unfold code in Hat.
      rewrite <- (ascii_nat_embedding c), Hat. done.
  - intros (body & Hlen & Hall & Hs).
    assert (Hne : s <> []).
    { destruct Hs as [->| ->]; destruct body; simpl in Hlen; done. }
    destruct s as [|c0 s0]; [done|].
    assert (Hacc : exists rest,
               c0 :: s0 = body ++ rest /\ at_end rest = true).
    { destruct Hs as [Hs|Hs]; rewrite Hs.
      - exists []. by rewrite app_nil_r.
      - by exists [newline]. }
    destruct Hacc as (rest & Hs' & Hat). rewrite Hs'.
    destruct (match_here_complete UUID_RE None (body ++ rest) [length body; 0])
      as [lens ->]; [|done].
    unfold UUID_RE, Exactly. apply accepts_rep_intro; simpl; try lia; try done.
Qed.

Section Lookup.
Variables W N : Type.
Variable db_select : W -> query -> res (list lead_row) * W.

#[local] Abbreviation lookup := (resolve_lead_id_by_ref W N db_select).

Lemma lookup_shape (ref : text) (e : env W N) :
  match fst (lookup ref e) with
  | Raise => True
  | Ok (Some id, ms) => ms = []
  | Ok (None, ms) => length ms <> 1
  end.
Proof.
  unfold resolve_lead_id_by_ref, select, bind, call, ret.
  destruct ref as [|ch ref]; [simpl; lia|].
  repeat match goal with
         | |- context [if ?b then _ else _] => destruct b
         end;
    simpl; destruct (db_select _ _) as [[rows|] w]; simpl; try done;
    try (destruct rows; simpl; (done || lia)).
  destruct rows as [|r [|r' rows]]; simpl; try done; try lia.
Qed.

(** X3 -- [resolve_lead_id_by_ref] returns an identifier or candidates,
    never both, and never a single candidate: one row of the name search is
    the answer itself.  An empty reference gives nothing, and the database
    is not asked. *)
Theorem lookup_result_shape (ref : text) (e : env W N) :
  match fst (lookup ref e) with
  | Raise => True
  | Ok (Some id, ms) => ms = []
  | Ok (None, ms) => length ms <> 1
  end
  /\ lookup [] e = (Ok (None, []), e).
Proof. split; [apply lookup_shape|done]. Qed.

Lemma lead_tools_shape (ref : text) (e : env W N) :
  (forall msg ms,
     fst (Tools.get_lead W N db_select ref e) = Ok (ToolError msg ms) ->
     ms <> [] -> msg = several_found /\ 2 <= length ms) /\
  (forall msg ms,
     fst (Tools.resolve_lead W N db_select ref e) = Ok (ToolError msg ms) ->
     ms <> [] -> msg = several_found /\ 2 <= length ms) /\
  (forall m data,
     fst (Tools.resolve_lead W N db_select ref e) = Ok (ToolOk m data) ->
     truthy (dget data "lead_id") = true).
Proof.
  pose proof (lookup_shape ref e) as Hshape.
  unfold Tools.get_lead, Tools.resolve_lead, bind, found, select, call, ret.
  destruct (lookup ref e) as [[[lead ms0]|] e1]; simpl in *;
    [|by repeat split].
  repeat split; intros; repeat (case_match; simplify_eq/=); try done;
    match goal with
    | H : S (length ?x) <> 1 |- _ => destruct x; simpl in *; (done || lia)
    end.
Qed.


(** X4 -- the tools [get_lead] and [resolve_lead] report candidates only
    under the message for several leads, and then there are at least two;
    a result of [resolve_lead] that is no error carries a [lead_id] that is
    not empty. *)
Theorem lead_tools_results (ref : text) (e : env W N) :
  (forall msg ms,
     fst (Tools.get_lead W N db_select ref e) = Ok (ToolError msg ms) ->
     ms <> [] -> msg = several_found /\ 2 <= length ms) /\
  (forall msg ms,
     fst (Tools.resolve_lead W N db_select ref e) = Ok (ToolError msg ms) ->
     ms <> [] -> msg = several_found /\ 2 <= length ms) /\
  (forall m data,
     fst (Tools.resolve_lead W N db_select ref e) = Ok (ToolOk m data) ->
     truthy (dget data "lead_id") = true).
Proof. exact (lead_tools_shape ref e). Qed.

End Lookup.

End ToolsFacts.

(** ** Dictionaries: lookup after insertion *)

Module DictFacts.
Import PyStr Py.

Lemma dget_dset_same d k v : dget (dset d k v) k = v.
Proof.
  induction d as [|[k' v'] d IH]; simpl.
  - by rewrite String.eqb_refl.
  - destruct (String.eqb k k') eqn:E; simpl; [by rewrite String.eqb_refl|].
    by rewrite E.
Qed.

Lemma dget_dset_other d k k' v : k <> k' -> dget (dset d k v) k' = dget d k'.
Proof.
  intros Hne. induction d as [|[k0 v0] d IH]; simpl.
  - destruct (String.eqb k' k) eqn:E; [|done].
    apply String.eqb_eq in E. congruence.
  - destruct (String.eqb k k0) eqn:E; simpl.
    + apply String.eqb_eq in E. subst k0.
      destruct (String.eqb k' k) eqn:E'; [|done].
      apply String.eqb_eq in E'. congruence.
    + by rewrite IH.
Qed.

Lemma dhas_dset_same d k v : dhas (dset d k v) k = true.
Proof.
  unfold dhas. induction d as [|[k' v'] d IH]; simpl.
  - by rewrite String.eqb_refl.
  - destruct (String.eqb k k') eqn:E; simpl; [by rewrite String.eqb_refl|].
    by rewrite E.
Qed.

Lemma dhas_dset_keep d k k' v : dhas d k' = true -> dhas (dset d k v) k' = true.
Proof.
  unfold dhas. induction d as [|[k0 v0] d IH]; simpl; [done|].
  destruct (String.eqb k k0) eqn:E; simpl.
  - apply String.eqb_eq in E. by subst k0.
  - destruct (String.eqb k' k0); simpl; [done|]. exact IH.
Qed.

Lemma split_once_first (d : ascii) (k v : text) :
  contains_char d k = false -> split_once d (k ++ d :: v) = (k, v).
Proof.
  unfold contains_char. induction k as [|c k IH]; simpl.
  - unfold is_char. by rewrite Ascii.eqb_refl.
  - intros H. apply orb_false_iff in H as [Hc Hk]. rewrite Hc.
    by rewrite (IH Hk).
Qed.

Lemma contains_char_middle (d : ascii) (k v : text) :
  contains_char d (k ++ d :: v) = true.
Proof.
  unfold contains_char. rewrite existsb_app. simpl. unfold is_char at 2.
  rewrite Ascii.eqb_refl. simpl. apply orb_true_r.
Qed.

End DictFacts.

(** ** [workflow.py]: what the planning steps keep and drop *)

Module PlanningFacts.
Import PyStr Re Py Plan Eff Tools State Queue Helpers Workflow DictFacts PlanFacts.

(** X5 -- the classifier's [name=value] strings in [parse_and_classify]: a
    string is split at its first [=], name and value are stripped, and the
    last string for a name decides its value; the other names keep what
    the earlier strings gave them. *)
Theorem classifier_pair_last_wins (pairs : list text) (k v : text) :
  contains_char "=" k = false ->
  let d := slots_of_pairs (pairs ++ [k ++ "="%char :: v]) in
  dget d (to_string (strip k)) = VStr (to_string (strip v)) /\
  forall k', k' <> to_string (strip k) ->
             dget d k' = dget (slots_of_pairs pairs) k'.
Proof.
  intros Hk. unfold slots_of_pairs. rewrite fold_left_app. simpl.
  rewrite contains_char_middle, (split_once_first _ _ _ Hk).
  split; [apply dget_dset_same|].
  intros k' Hne. apply dget_dset_other. congruence.
Qed.

Lemma classifier_pair_last_wins_witness :
  contains_char "=" (of_string " titulo ") = false /\
  dget (slots_of_pairs [of_string "titulo=a"; of_string " titulo = b=c "])
       "titulo" = VStr "b=c".
Proof.
  split; [reflexivity|].
  exact (proj1 (classifier_pair_last_wins [of_string "titulo=a"]
                  (of_string " titulo ") (of_string " b=c ") eq_refl)).
Defined.

Section Blobs.
Variable json_loads : text -> option value.

Lemma slot_step_pair (out : dict) (s : string) (k v : text) :
  strip (of_string s) = k ++ "="%char :: v ->
  contains_char "=" k = false ->
  ~ blob_is_object json_loads s ->
  slot_step json_loads out (VStr s)
  = dset out (to_string (strip k)) (VStr (to_string (strip v))).
Proof.
  intros Hs Hk Hobj. unfold blob_is_object in Hobj. unfold slot_step.
  rewrite Hs in *.
  rewrite contains_char_middle, (split_once_first _ _ _ Hk).
  destruct (startswith _ _ && endswith _ _) eqn:Eb; [|done].
  destruct (json_loads _) as [[| | | | |data]|] eqn:Ej; try done.
  exfalso. apply Hobj. split; [done|]. by exists data.
Qed.

(** X6 -- the [name=value] fallback of [slots_strings_to_dict]: a string
    blob that holds an [=] and is not read as an object is split at its
    first [=]; the stripped name gets the stripped value, replacing what
    earlier blobs gave that name and nothing else. *)
Theorem slot_pair_last_wins (blobs : list value) (s : string) (k v : text) :
  strip (of_string s) = k ++ "="%char :: v ->
  contains_char "=" k = false ->
  ~ blob_is_object json_loads s ->
  let d := slots_strings_to_dict json_loads (blobs ++ [VStr s]) in
  dget d (to_string (strip k)) = VStr (to_string (strip v)) /\
  forall k', k' <> to_string (strip k) ->
             dget d k' = dget (slots_strings_to_dict json_loads blobs) k'.
Proof.
  intros Hs Hk Hobj. unfold slots_strings_to_dict. rewrite fold_left_app.
  cbn [fold_left]. rewrite (slot_step_pair _ _ _ _ Hs Hk Hobj).
  split; [apply dget_dset_same|].
  intros k' Hne. apply dget_dset_other. congruence.
Qed.

End Blobs.

Lemma slot_pair_last_wins_witness :
  ~ blob_is_object no_json_loads " prazo = 3 dias " /\
  dget (slots_strings_to_dict no_json_loads
          [VStr "prazo=hoje"; VStr " prazo = 3 dias "]) "prazo"
  = VStr "3 dias".
Proof.
  assert (H : ~ blob_is_object no_json_loads " prazo = 3 dias ").
  { intros [H _]. vm_compute in H. discriminate H. }
  split; [exact H|].
  exact (proj1 (slot_pair_last_wins no_json_loads [VStr "prazo=hoje"]
                  " prazo = 3 dias " (of_string "prazo ") (of_string " 3 dias")
                  eq_refl eq_refl H)).
Defined.

Section Planned.
Variable py_str : value -> string.
Variable json_loads : text -> option value.

#[local] Abbreviation plan_new_actions_ := (plan_new_actions py_str json_loads).

Lemma with_defaults_currency lead d :
  dhas (with_defaults py_str lead "proposta_rascunhar" d) "moeda" = true.
Proof.
  unfold with_defaults. simpl.
  assert (H : dhas (if negb (dhas d "moeda") then dset d "moeda" (VStr "BRL")
                    else d) "moeda" = true).
  { destruct (dhas d "moeda") eqn:E; simpl; [done|apply dhas_dset_same]. }
  destruct (resolved_lead lead); repeat case_match; try done;
    by apply dhas_dset_keep.
Qed.

Lemma with_defaults_lead lead l i d :
  in_list i INTENTS_REQUIRING_LEAD = true ->
  resolved_lead lead = Some l ->
  str_of py_str (lead_id l) <> EmptyString ->
  truthy (dget (with_defaults py_str lead i d) "lead_ref_ou_id") = true.
Proof.
  intros Hi Hl Hid. unfold with_defaults. rewrite Hi, Hl.
  set (d0 := if (String.eqb i "proposta_rascunhar" && negb (dhas d "moeda"))%bool
             then dset d "moeda" (VStr "BRL") else d).
  destruct (truthy (dget d0 "lead_ref_ou_id")) eqn:E; cbn [negb andb];
    [done|].
  rewrite dget_dset_same. cbn [truthy].
  destruct (String.eqb _ EmptyString) eqn:E'; [|done].
  apply String.eqb_eq in E'. done.
Qed.

(** what holds of every action taken from a plan *)
Lemma planned_actions_shape (primary : option string)
    (lead : option lead_ctx) (plan : list plan_action) :
  sublist (map a_intent (plan_new_actions_ primary lead plan))
          (map pa_intent plan) /\
  Forall
    (fun a =>
       same_as_primary primary (a_intent a) = false /\
       (has_lead lead = true -> a_intent a <> "lead_criar"%string) /\
       (a_intent a = "proposta_rascunhar"%string ->
        dhas (a_slots a) "moeda" = true) /\
       (forall l,
          in_list (a_intent a) INTENTS_REQUIRING_LEAD = true ->
          resolved_lead lead = Some l ->
          str_of py_str (lead_id l) <> EmptyString ->
          truthy (dget (a_slots a) "lead_ref_ou_id") = true))
    (plan_new_actions_ primary lead plan).
Proof.
  induction plan as [|a plan [IHs IHf]]; simpl; [split; constructor|].
  destruct (same_as_primary primary (pa_intent a)) eqn:Ep;
    [split; [by apply sublist_cons|done]|].
  destruct (String.eqb (pa_intent a) "lead_criar" && has_lead lead) eqn:El;
    [split; [by apply sublist_cons|done]|].
  split; [by apply sublist_skip|]. constructor; [|done]. simpl.
  split; [done|]. split; [|split].
  - intros Hl Hi. rewrite Hi, Hl in El. done.
  - intros ->. apply with_defaults_currency.
  - intros l Hi Hl Hid. by apply (with_defaults_lead _ l).
Qed.

(** what [with_defaults] writes: the currency of a proposal draft that has
    none, the identifier of the resolved lead where a lead is required and
    the reference is empty, and nothing else *)
Lemma with_defaults_slots lead i d :
  dget (with_defaults py_str lead i d) "moeda"
  = (if (String.eqb i "proposta_rascunhar" && negb (dhas d "moeda"))%bool
     then VStr "BRL" else dget d "moeda") /\
  dget (with_defaults py_str lead i d) "lead_ref_ou_id"
  = (if (in_list i INTENTS_REQUIRING_LEAD
         && negb (truthy (dget d "lead_ref_ou_id")))%bool
     then match resolved_lead lead with
          | Some l => VStr (str_of py_str (lead_id l))
          | None => dget d "lead_ref_ou_id"
          end
     else dget d "lead_ref_ou_id") /\
  (forall k, k <> "moeda"%string -> k <> "lead_ref_ou_id"%string ->
             dget (with_defaults py_str lead i d) k = dget d k).
Proof.
  unfold with_defaults.
  set (d0 := if (String.eqb i "proposta_rascunhar" && negb (dhas d "moeda"))%bool
             then dset d "moeda" (VStr "BRL") else d).
  assert (Hm : dget d0 "moeda"
               = (if (String.eqb i "proposta_rascunhar"
                      && negb (dhas d "moeda"))%bool
                  then VStr "BRL" else dget d "moeda")).
  { unfold d0. destruct (_ && _)%bool; [apply dget_dset_same|done]. }
  assert (Ho : forall k, k <> "moeda"%string -> dget d0 k = dget d k).
  { intros k Hk. unfold d0. destruct (_ && _)%bool; [|done].
    by apply dget_dset_other. }
  rewrite (Ho "lead_ref_ou_id"%string) by done.
  destruct (in_list i INTENTS_REQUIRING_LEAD
            && negb (truthy (dget d "lead_ref_ou_id")))%bool.
  - destruct (resolved_lead lead) as [l|].
    + split; [by rewrite dget_dset_other|]. split; [apply dget_dset_same|].
      intros k Hk1 Hk2. rewrite dget_dset_other by done. by apply Ho.
    + split; [done|]. split; [by apply Ho|]. intros k Hk1 Hk2. by apply Ho.
  - split; [done|]. split; [by apply Ho|]. intros k Hk1 Hk2. by apply Ho.
Qed.

(** every action taken from a plan is an action of the plan with its slots
    completed by [with_defaults] *)
Lemma planned_actions_slots (primary : option string)
    (lead : option lead_ctx) (plan : list plan_action) :
  Forall
    (fun a =>
       exists p,
         In p plan /\ a_intent a = pa_intent p /\
         a_slots a
         = with_defaults py_str lead (pa_intent p)
             (norm_slots_of json_loads (pa_slots p)))
    (plan_new_actions_ primary lead plan).
Proof.
  induction plan as [|a plan IH]; simpl; [constructor|].
  assert (IH' : Forall
                  (fun x =>
                     exists p,
                       (a = p \/ In p plan) /\ a_intent x = pa_intent p /\
                       a_slots x
                       = with_defaults py_str lead (pa_intent p)
                           (norm_slots_of json_loads (pa_slots p)))
                  (plan_new_actions_ primary lead plan)).
  { eapply Forall_impl; [exact IH|]. intros x (p & Hp & Hx). exists p. auto. }
  destruct (same_as_primary primary (pa_intent a)); [done|].
  destruct (String.eqb (pa_intent a) "lead_criar" && has_lead lead); [done|].
  constructor; [|done]. exists a. auto.
Qed.

(** X7 -- the actions that [prepare_plan] takes from a plan: they come in
    the planner's order; none repeats the intent under execution; none
    creates a lead when one is resolved; every proposal draft carries a
    currency, [BRL] when the plan gave none; every action that requires a
    lead and whose reference is empty gets the identifier of the resolved
    lead, as a string, as its reference, which is then not empty unless the
    identifier is; a reference that the plan gave is kept, and so is every
    other slot. *)
Theorem planned_actions_invariants (primary : option string)
    (lead : option lead_ctx) (plan : list plan_action) :
  sublist (map a_intent (plan_new_actions_ primary lead plan))
          (map pa_intent plan) /\
  Forall
    (fun a =>
       same_as_primary primary (a_intent a) = false /\
       (has_lead lead = true -> a_intent a <> "lead_criar"%string) /\
       (a_intent a = "proposta_rascunhar"%string ->
        dhas (a_slots a) "moeda" = true) /\
       (forall l,
          in_list (a_intent a) INTENTS_REQUIRING_LEAD = true ->
          resolved_lead lead = Some l ->
          str_of py_str (lead_id l) <> EmptyString ->
          truthy (dget (a_slots a) "lead_ref_ou_id") = true) /\
       exists p,
         In p plan /\ a_intent a = pa_intent p /\
         let d := norm_slots_of json_loads (pa_slots p) in
         dget (a_slots a) "moeda"
         = (if (String.eqb (a_intent a) "proposta_rascunhar"
                && negb (dhas d "moeda"))%bool
            then VStr "BRL" else dget d "moeda") /\
         dget (a_slots a) "lead_ref_ou_id"
         = (if (in_list (a_intent a) INTENTS_REQUIRING_LEAD
                && negb (truthy (dget d "lead_ref_ou_id")))%bool
            then match resolved_lead lead with
                 | Some l => VStr (str_of py_str (lead_id l))
                 | None => dget d "lead_ref_ou_id"
                 end
            else dget d "lead_ref_ou_id") /\
         (forall k, k <> "moeda"%string -> k <> "lead_ref_ou_id"%string ->
                    dget (a_slots a) k = dget d k))
    (plan_new_actions_ primary lead plan).
Proof.
  destruct (planned_actions_shape primary lead plan) as [Hsub Hshape].
  split; [exact Hsub|].
  pose proof (planned_actions_slots primary lead plan) as Hslots.
  rewrite List.Forall_forall in *. intros a Ha.
  destruct (Hshape a Ha) as (H1 & H2 & H3 & H4).
  destruct (Hslots a Ha) as (p & Hp & Hi & Hs).
  split; [done|]. split; [done|]. split; [done|]. split; [done|].
  exists p. split; [done|]. split; [done|]. cbv zeta.
  rewrite Hs, Hi. apply with_defaults_slots.
Qed.

End Planned.

(** the merge only appends to the queue *)
Lemma merge_appends (pending new_actions : list action) :
  exists added,
    fst (merge_actions pending new_actions) = pending ++ added /\
    sublist added new_actions /\
    (snd (merge_actions pending new_actions) = false ->
     exists a, In a (pending ++ new_actions) /\ dedup_key a = None).
Proof.
  unfold merge_actions.
  destruct (queue_keys pending) as [keys|] eqn:Ek.
  - assert (H : forall new keys pending,
               exists added,
                 fst (merge_loop keys pending new) = pending ++ added /\
                 sublist added new /\
                 (snd (merge_loop keys pending new) = false ->
                  exists a, In a new /\ dedup_key a = None)).
    { clear. induction new as [|act rest IH]; intros keys pending; simpl.
      - exists []. by rewrite app_nil_r.
      - destruct (dedup_key act) as [k|] eqn:Hk.
        + destruct (bool_decide (k ∈ keys)).
          * destruct (IH keys pending) as (added & H1 & H2 & H3).
            exists added. split; [done|]. split; [by apply sublist_cons|].
            intros Hb. destruct (H3 Hb) as (a & Ha & Hka). exists a. auto.
          * destruct (IH (k :: keys) (pending ++ [act]))
              as (added & H1 & H2 & H3).
            exists (act :: added). rewrite H1, <- app_assoc.
            split; [done|]. split; [by apply sublist_skip|].
            intros Hb. destruct (H3 Hb) as (a & Ha & Hka). exists a. auto.
        + exists []. rewrite app_nil_r. split; [done|].
          split; [apply sublist_nil_l|]. intros _. exists act. auto. }
    destruct (H new_actions keys pending) as (added & H1 & H2 & H3).
    exists added. split; [done|]. split; [done|].
    intros Hb. destruct (H3 Hb) as (a & Ha & Hka). exists a.
    split; [apply in_or_app; by right|done].
  - exists []. simpl. rewrite app_nil_r. split; [done|].
    split; [apply sublist_nil_l|]. intros _.
    assert (H : exists a, In a pending /\ dedup_key a = None).
    { clear new_actions. induction pending as [|x rest IH]; [done|].
      simpl in Ek. destruct (dedup_key x) eqn:Hx.
      - destruct (queue_keys rest); [done|].
        destruct (IH eq_refl) as (a & Ha & Hka). exists a.
        split; [by right|done].
      - exists x. split; [by left|done]. }
    destruct H as (a & Ha & Hka). exists a.
    split; [apply in_or_app; by left|done].
Qed.

(** X8 -- the merge of a batch into the queue, whatever the slots hold:
    the queue is kept as it is, in front; what is appended is a subsequence
    of the batch; and the merge stops early only on a slot value that
    cannot be hashed, in the queue or in the batch. *)
Theorem merge_keeps_queue (pending new_actions : list action) :
  exists added,
    fst (merge_actions pending new_actions) = pending ++ added /\
    sublist added new_actions /\
    (snd (merge_actions pending new_actions) = false ->
     exists a, In a (pending ++ new_actions) /\ dedup_key a = None).
Proof. exact (merge_appends pending new_actions). Qed.

End PlanningFacts.

(** ** [router_node]: what the router reports and what it leaves alone *)

Module RouterFacts.
Import PyStr Py Eff Tools State Queue Helpers Workflow DictFacts.

Lemma sorted_set_perm l : sorted_set l ≡ₚ remove_dups l.
Proof. apply merge_sort_Permutation. Qed.

Lemma sorted_set_elem l x : (x ∈ sorted_set l) <-> (x ∈ l).
Proof. by rewrite sorted_set_perm, elem_of_remove_dups. Qed.

Lemma sorted_set_sorted l : Sorted String.le (sorted_set l).
Proof. apply Sorted_merge_sort, _. Qed.

Lemma sorted_set_nodup l : NoDup (sorted_set l).
Proof. rewrite sorted_set_perm. apply NoDup_remove_dups. Qed.

Lemma in_list_elem x l : in_list x l = true <-> x ∈ l.
Proof.
  unfold in_list. rewrite existsb_exists. split.
  - intros (y & Hy & ->%String.eqb_eq). by apply list_elem_of_In.
  - intros H. exists x. split; [by apply list_elem_of_In|apply String.eqb_refl].
Qed.

Section Router.
Variable py_str : value -> string.

#[local] Abbreviation router_node_ := (router_node py_str).

(** the names the router found missing, before sorting *)
Definition reported (s : state) : list string :=
  let required :=
    match intent s with
    | Some x => REQUIRED_SLOTS x
    | None => REQUIRED_SLOTS EmptyString
    end in
  missing_required s required
  ++ (if in_set (intent s) INTENTS_REQUIRING_LEAD
         && negb (truthy (dget (slots s) "lead_ref_ou_id"))
         && negb (has_lead (lead_atual s))
      then ["lead_ref_ou_id"%string] else []).

Lemma router_missing_reported s :
  router_missing (context (router_node_ s)) = sorted_set (reported s) /\
  router_blocked (context (router_node_ s))
  = match reported s with [] => false | _ => true end.
Proof.
  unfold router_node, reported, ensure_context, has_lead.
  generalize (missing_required s
                match intent s with
                | Some x => REQUIRED_SLOTS x
                | None => REQUIRED_SLOTS EmptyString
                end) as m0.
  generalize (in_set (intent s) INTENTS_REQUIRING_LEAD) as b.
  generalize (truthy (dget (slots s) "lead_ref_ou_id")) as t.
  intros t b m0.
  destruct b, t, (resolved_lead (lead_atual s)) as [l|];
    cbn [andb negb app]; rewrite ?app_nil_r;
    try (destruct m0 as [|x m0]; cbn [app];
         repeat case_match; split; reflexivity).
Qed.

(** X9 -- what [router_node] reports: the flow is blocked exactly when a
    name is missing; the missing names are sorted and without repetition;
    a missing name other than the lead reference is a required slot of the
    intent whose value is [None], the empty string or the empty list; and
    the lead reference is missing only when the slot is empty and no lead
    is resolved. *)
Theorem router_reports_missing (s : state) :
  let c := context (router_node_ s) in
  (router_blocked c = true <-> router_missing c <> []) /\
  Sorted String.le (router_missing c) /\ NoDup (router_missing c) /\
  (forall name, name ∈ router_missing c ->
     (name <> "lead_ref_ou_id"%string ->
      is_blank (dget (slots s) name) = true /\
      exists i, intent s = Some i /\ name ∈ REQUIRED_SLOTS i) /\
     (name = "lead_ref_ou_id"%string ->
      truthy (dget (slots s) name) = false /\
      has_lead (lead_atual s) = false)).
Proof.
  destruct (router_missing_reported s) as [Hm Hb]. cbv zeta. rewrite Hm, Hb.
  split; [|split; [apply sorted_set_sorted|split; [apply sorted_set_nodup|]]].
  - destruct (reported s) as [|x l] eqn:E; [done|].
    split; [|done]. intros _ H.
    assert (Hx : x ∈ sorted_set (x :: l)) by (apply sorted_set_elem; by left).
    rewrite H in Hx. by apply elem_of_nil in Hx.
  - intros name Hin. apply (proj1 (sorted_set_elem _ _)) in Hin.
    unfold reported in Hin.
    apply elem_of_app in Hin as [Hin|Hin].
    + unfold missing_required in Hin.
      apply list_elem_of_In, filter_In in Hin as [Hreq Hf].
      split.
      * intros Hne.
        destruct (String.eqb name "lead_ref_ou_id") eqn:E;
          [apply String.eqb_eq in E; done|]. cbn [andb] in Hf.
        split; [done|]. destruct (intent s) as [i|].
        -- exists i. split; [done|]. by apply list_elem_of_In.
        -- done.
      * intros ->. rewrite String.eqb_refl in Hf. cbn [andb] in Hf.
        destruct (truthy (dget (slots s) "lead_ref_ou_id")); [done|].
        by destruct (has_lead (lead_atual s)).
    + destruct (in_set (intent s) INTENTS_REQUIRING_LEAD); cbn [andb] in Hin;
        [|by apply elem_of_nil in Hin].
      destruct (truthy (dget (slots s) "lead_ref_ou_id")) eqn:Et;
        cbn [andb negb] in Hin; [by apply elem_of_nil in Hin|].
      destruct (has_lead (lead_atual s)) eqn:El; cbn [andb negb] in Hin;
        [by apply elem_of_nil in Hin|].
      apply list_elem_of_singleton in Hin as ->. by split.
Qed.

Lemma router_node_shape s :
  exists slots' c errs,
    router_node_ s
    = with_errors (with_context (with_slots s slots') c) (errors s ++ errs) /\
    (slots' = slots s \/
     exists l,
       resolved_lead (lead_atual s) = Some l /\
       in_set (intent s) INTENTS_REQUIRING_LEAD = true /\
       truthy (dget (slots s) "lead_ref_ou_id") = false /\
       slots' = dset (slots s) "lead_ref_ou_id"
                     (VStr (str_of py_str (lead_id l)))).
Proof.
  unfold router_node, ensure_context.
  generalize (missing_required s
                match intent s with
                | Some x => REQUIRED_SLOTS x
                | None => REQUIRED_SLOTS EmptyString
                end) as m0.
  intros m0.
  destruct (in_set (intent s) INTENTS_REQUIRING_LEAD) eqn:Eb;
    destruct (truthy (dget (slots s) "lead_ref_ou_id")) eqn:Et;
    destruct (resolved_lead (lead_atual s)) as [l|] eqn:El;
    cbn [andb negb];
    try (destruct m0 as [|x m0]; cbn [app];
         eexists _, _, _;
         (split; [try (rewrite app_nil_r; reflexivity); reflexivity|]);
         first [by left | right; by exists l]).
Qed.

(** X10 -- what [router_node] leaves alone: messages, intent and lead are
    untouched, the errors only grow, and the one slot it may write is the
    lead reference, which it takes from a resolved lead when the intent
    requires a lead and the slot is empty; with a resolved lead the
    reference is never reported missing and a resolution is never asked
    for. *)
Theorem router_frame (s : state) :
  let s' := router_node_ s in
  messages s' = messages s /\ intent s' = intent s /\
  lead_atual s' = lead_atual s /\ errors s `prefix_of` errors s' /\
  (forall k, k <> "lead_ref_ou_id"%string ->
             dget (slots s') k = dget (slots s) k) /\
  (truthy (dget (slots s) "lead_ref_ou_id") = true -> slots s' = slots s) /\
  (has_lead (lead_atual s) = true ->
   ("lead_ref_ou_id"%string ∉ router_missing (context s')) /\
   (need_lead_resolution (context s') = true ->
    need_lead_resolution (context s) = true)).
Proof.
  cbv zeta.
  destruct (router_node_shape s) as (slots' & c & errs & Hs & Hslots).
  split; [by rewrite Hs|]. split; [by rewrite Hs|]. split; [by rewrite Hs|].
  split; [rewrite Hs; by exists errs|].
  split; [|split].
  - intros k Hk. rewrite Hs. cbn [slots with_errors with_context with_slots].
    destruct Hslots as [->|(l & _ & _ & _ & ->)]; [done|].
    apply dget_dset_other. congruence.
  - intros Ht. rewrite Hs. cbn [slots with_errors with_context with_slots].
    destruct Hslots as [->|(l & _ & _ & Hf & _)]; [done|congruence].
  - intros Hl.
    assert (Hno : in_list "lead_ref_ou_id"
                    (missing_required s
                       match intent s with
                       | Some x => REQUIRED_SLOTS x
                       | None => REQUIRED_SLOTS EmptyString
                       end) = false).
    { destruct (in_list _ _) eqn:E; [|done].
      apply in_list_elem, list_elem_of_In, filter_In in E as [_ Hf].
      rewrite String.eqb_refl, Hl, orb_true_r in Hf. done. }
    split.
    + destruct (router_missing_reported s) as [-> _].
      rewrite sorted_set_elem. unfold reported. rewrite Hl, andb_false_r.
      rewrite app_nil_r. by rewrite <- in_list_elem, Hno.
    + clear Hs Hslots. unfold router_node, ensure_context.
      revert Hno.
      generalize (missing_required s
                    match intent s with
                    | Some x => REQUIRED_SLOTS x
                    | None => REQUIRED_SLOTS EmptyString
                    end) as m0.
      intros m0 Hno. rewrite Hl. unfold has_lead in Hl.
      destruct (resolved_lead (lead_atual s)) as [l|] eqn:El; [|done].
      destruct (in_set (intent s) INTENTS_REQUIRING_LEAD),
        (truthy (dget (slots s) "lead_ref_ou_id")); cbn [andb negb];
        rewrite ?andb_false_r; destruct m0 as [|x m0];
        rewrite ?Hno; cbn [andb]; try done.
Qed.

End Router.
End RouterFacts.

(** ** [resolve_lead]: what a resolution may change *)

Module ResolutionFacts.
Import PyStr Py Eff EffFacts Tools State Queue Helpers Workflow DictFacts NodeFacts.

Lemma lead_context_has_id r l :
  lead_context_from_result r = Some l -> truthy (lead_id l) = true.
Proof.
  unfold lead_context_from_result. destruct r as [[m data|m ms]|]; try done.
  destruct (truthy (dget data "lead_id")) eqn:E; [|done]. by intros [= <-].
Qed.

(** the lead and the reference slot after a resolution: as they were, or a
    lead with an identifier and its reference in the slot *)
Definition resolution_outcome (s s' : state) : Prop :=
  messages s' = messages s /\ intent s' = intent s /\ errors s' = errors s /\
  ((lead_atual s' = lead_atual s /\ slots s' = slots s /\
    (router_blocked (context s') = true -> 2 <= length (matches (context s'))))
   \/
   (has_lead (lead_atual s) = false /\ router_blocked (context s') = false /\
    exists l x,
      lead_atual s' = Some l /\ truthy (lead_id l) = true /\
      slots s' = dset (slots s) "lead_ref_ou_id" (VStr x))).

Section Resolution.
Variable W : Type.
Variable py_str : value -> string.
Variable db_select : W -> query -> res (list lead_row) * W.

#[local] Abbreviation resolve_lead_ := (resolve_lead W py_str db_select).

Definition outcome (s : state) (evs : list (event node)) (r : res state) : Prop :=
  exists s', r = Ok s' /\ resolution_outcome s s'.

Lemma get_lead_context_id ref :
  spec (get_lead_context W py_str db_select ref)
       (fun evs r =>
          exists o, r = Ok o /\
            match o with Some l => truthy (lead_id l) = true | None => True end).
Proof.
  unfold get_lead_context, get_lead_tool.
  destruct (truthy ref); [|apply spec_ret; by exists None].
  apply spec_bind, spec_try. wp_quiet (get_lead_quiet W db_select).
  apply spec_ret. eexists. split; [reflexivity|].
  destruct (lead_context_from_result _) eqn:E; [|done].
  by apply lead_context_has_id in E.
Qed.

(** the tools report candidates only when there are at least two *)
Lemma get_lead_matches ref :
  spec (Tools.get_lead W node db_select ref)
       (fun evs r => evs = [] /\
          match r with
          | Ok (ToolError _ (m :: ms)) => 2 <= length (m :: ms)
          | _ => True
          end).
Proof.
  intros e. exists []. split.
  - destruct (get_lead_quiet W db_select ref e) as (evs & Hlog & ->).
    by rewrite Hlog.
  - split; [done|].
    destruct (ToolsFacts.lead_tools_shape W node db_select ref e)
      as (H & _ & _).
    destruct (fst _) as [[m data|m [|c ms]]|] eqn:E; try done.
    by destruct (H m (c :: ms) eq_refl).
Qed.

Lemma resolve_tool_matches ref :
  spec (Tools.resolve_lead W node db_select ref)
       (fun evs r => evs = [] /\
          match r with
          | Ok (ToolError _ (m :: ms)) => 2 <= length (m :: ms)
          | _ => True
          end).
Proof.
  intros e. exists []. split.
  - destruct (resolve_tool_quiet W db_select ref e) as (evs & Hlog & ->).
    by rewrite Hlog.
  - split; [done|].
    destruct (ToolsFacts.lead_tools_shape W node db_select ref e)
      as (_ & H & _).
    destruct (fst _) as [[m data|m [|c ms]]|] eqn:E; try done.
    by destruct (H m (c :: ms) eq_refl).
Qed.

Ltac kept := eexists; split; [reflexivity|]; repeat split; left; repeat split;
             done.

Lemma resolve_by_name_outcome s c :
  has_lead (lead_atual s) = false ->
  spec (resolve_by_name W py_str db_select s c) (outcome s).
Proof.
  intros Hl. unfold resolve_by_name, resolve_lead_tool, outcome.
  destruct (name_term py_str (slots s)); [apply spec_ret; kept|].
  apply spec_bind, spec_try.
  eapply spec_conseq; [apply resolve_tool_matches|]. intros evs r [-> Hm].
  apply spec_bind.
  destruct r as [[m data|m ms]|]; cbn [matches_of].
  - destruct (truthy (dget data "lead_id")).
    + apply spec_bind.
      eapply spec_conseq; [apply get_lead_context_id|].
      intros evs r' (o & -> & Ho). destruct o as [l|]; wp.
      * eexists. split; [reflexivity|]. repeat split. right.
        repeat split; try done. by eexists _, _.
      * kept.
    + wp. kept.
  - wp.
    + kept.
    + eexists. split; [reflexivity|]. repeat split. left.
      repeat split. intros _. exact Hm.
  - wp. kept.
Qed.

Lemma resolve_by_text_outcome s c :
  has_lead (lead_atual s) = false ->
  spec (resolve_by_text W py_str db_select s c) (outcome s).
Proof.
  intros Hl. unfold resolve_by_text, get_lead_tool.
  destruct (extract_ref_from_text _); [|by apply resolve_by_name_outcome].
  apply spec_bind, spec_try. wp_quiet (get_lead_quiet W db_select).
  destruct (lead_context_from_result _) as [l|] eqn:El.
  - apply spec_ret. eexists. split; [reflexivity|]. repeat split. right.
    repeat split; try done. exists l. eexists. split; [done|].
    split; [by apply lead_context_has_id in El|done].
  - eapply spec_conseq; [by apply resolve_by_name_outcome|]. done.
Qed.

Lemma resolve_lead_outcome s : spec (resolve_lead_ s) (outcome s).
Proof.
  unfold resolve_lead, ensure_context, get_lead_tool.
  destruct (has_lead (lead_atual s)) eqn:Hl; [apply spec_ret; kept|].
  destruct (truthy (dget (slots s) "lead_ref_ou_id"));
    [|by apply resolve_by_text_outcome].
  apply spec_bind, spec_try.
  eapply spec_conseq; [apply get_lead_matches|]. intros evs r [-> Hm].
  destruct (lead_context_from_result _) as [l|] eqn:El.
  - apply spec_ret. eexists. split; [reflexivity|]. repeat split. right.
    repeat split; try done. exists l. eexists. split; [done|].
    split; [by apply lead_context_has_id in El|done].
  - destruct r as [[m data|m [|c ms]]|]; cbn [matches_of];
      try (eapply spec_conseq; [by apply resolve_by_text_outcome|]; done).
    apply spec_ret. eexists. split; [reflexivity|]. repeat split. left.
    repeat split. intros _. exact Hm.
Qed.

(** X11 -- [resolve_lead] returns for every database, raising ones
    included.  It leaves messages, intent and errors alone.  Either the
    lead and the slots are as before, and the flow is blocked only on two
    or more candidates; or no lead was resolved before, the new lead has an
    identifier, the reference slot is the one slot written, and the flow is
    not blocked.  A lead that is already resolved is kept and the database
    is not asked. *)
Theorem resolve_lead_outcomes (s : state) (e : env W node) :
  (exists s',
     fst (resolve_lead_ s e) = Ok s' /\ resolution_outcome s s') /\
  (has_lead (lead_atual s) = true ->
   exists s',
     resolve_lead_ s e = (Ok s', e) /\
     lead_atual s' = lead_atual s /\ slots s' = slots s /\
     router_blocked (context s') = false).
Proof.
  split.
  - destruct (resolve_lead_outcome s e) as (evs & _ & s' & Hr & Ho).
    by exists s'.
  - intros Hl. unfold resolve_lead. rewrite Hl. by eexists.
Qed.

End Resolution.
End ResolutionFacts.

(** ** What the answering nodes leave alone *)

Module FrameFacts.
Import PyStr Py Eff EffFacts Tools State Queue Helpers Workflow DictFacts NodeFacts.

(** the node answered: it added messages and at most appended segments *)
Definition answered (s s' : state) : Prop :=
  intent s' = intent s /\ slots s' = slots s /\
  lead_atual s' = lead_atual s /\ errors s' = errors s /\
  messages s `prefix_of` messages s' /\
  appended (context s) (context s').

Definition answers (s : state) (evs : list (event node)) (r : res state) : Prop :=
  evs = [] /\ match r with Ok s' => answered s s' | Raise => True end.

Ltac answer :=
  split; [done|];
  first [ exact I
        | repeat split; try done;
          first [ by eexists | apply appended_refl | apply appended_push ] ].

Section Handlers.
Variable W : Type.
Variable py_str : value -> string.
Variable tool_invoke : W -> tool_name -> dict -> res tool_result * W.
Variable today_iso : W -> text.
Variable tomorrow_iso : W -> text.
Variable leads_agent_graph : W -> state -> res (list message) * W.
Variable proposals_agent_graph : W -> state -> res (list message) * W.

Lemma handle_notes_answers s :
  spec (handle_notes W py_str tool_invoke s) (answers s).
Proof. unfold handle_notes, invoke, report, say. wp; answer. Qed.

Lemma handle_tasks_answers s :
  spec (handle_tasks W py_str tool_invoke today_iso tomorrow_iso s) (answers s).
Proof.
  unfold handle_tasks, task_to_complete, first_task_id, tasks_found, invoke,
    report, say.
  wp; answer.
Qed.

Lemma run_leads_agent_answers s :
  spec (run_leads_agent W leads_agent_graph s) (answers s).
Proof. unfold run_leads_agent. wp; answer. Qed.

Lemma run_proposals_agent_answers s :
  spec (run_proposals_agent W proposals_agent_graph s) (answers s).
Proof. unfold run_proposals_agent. wp; answer. Qed.

End Handlers.

End FrameFacts.

(** ** [handle_notes] and [handle_tasks] *)

Module HandlerFacts.
Import PyStr Re Py Eff EffFacts Tools State Queue Helpers Workflow DictFacts
  ReFacts NodeFacts.

(** four digits, two digits, two digits, separated by dashes *)
Definition iso_date_shaped (x : text) : Prop :=
  exists y m d,
    x = y ++ "-"%char :: m ++ "-"%char :: d /\
    length y = 4 /\ length m = 2 /\ length d = 2 /\
    all_in is_digit y /\ all_in is_digit m /\ all_in is_digit d.

Lemma iso_accepts_inv prev x lens :
  accepts ISO_DATE prev x lens ->
  exists y m d rest,
    x = y ++ "-"%char :: m ++ "-"%char :: d ++ rest /\
    length y = 4 /\ length m = 2 /\ length d = 2 /\
    all_in is_digit y /\ all_in is_digit m /\ all_in is_digit d /\
    total lens = 10.
Proof.
  unfold ISO_DATE, Exactly, Lit. intros H.
  apply accepts_rep_inv in H as (y & r1 & l1 & -> & -> & Hy1 & Hy2 & Hy & H).
  apply accepts_chr_inv in H as (c1 & r2 & l2 & -> & -> & Hc1 & H).
  apply accepts_rep_inv in H as (m & r3 & l3 & -> & -> & Hm1 & Hm2 & Hm & H).
  apply accepts_chr_inv in H as (c2 & r4 & l4 & -> & -> & Hc2 & H).
  apply accepts_rep_inv in H as (d & r5 & l5 & -> & -> & Hd1 & Hd2 & Hd & H).
  apply accepts_nil_inv in H as ->.
  apply RefExtraction.is_char_eq in Hc1 as ->.
  apply RefExtraction.is_char_eq in Hc2 as ->.
  simpl in Hy2, Hm2, Hd2.
  exists y, m, d, r5. repeat split; try done; try lia.
  unfold total. simpl. lia.
Qed.

Lemma fullmatch_iso x : fullmatch ISO_DATE x = true <-> iso_date_shaped x.
Proof.
  unfold fullmatch. split.
  - destruct (match_here ISO_DATE None x) as [lens|] eqn:E; [|done].
    intros Hlen. apply Nat.eqb_eq in Hlen. apply match_here_sound in E.
    apply iso_accepts_inv in E
      as (y & m & d & rest & -> & Hy & Hm & Hd & Ay & Am & Ad & Ht).
    rewrite Ht in Hlen. rewrite !length_app in Hlen. simpl in Hlen.
    rewrite !length_app in Hlen. simpl in Hlen. rewrite length_app in Hlen.
    assert (rest = []) as -> by (destruct rest; [done|simpl in Hlen; lia]).
    exists y, m, d. by rewrite app_nil_r.
  - intros (y & m & d & -> & Hy & Hm & Hd & Ay & Am & Ad).
    assert (Hacc : accepts ISO_DATE None
                     (y ++ "-"%char :: m ++ "-"%char :: d)
                     [length y; 1; length m; 1; length d]).
    { unfold ISO_DATE, Exactly, Lit.
      apply accepts_rep_intro; [lia|simpl; lia|done|].
      apply accepts_chr_intro; [apply Ascii.eqb_refl|].
      apply accepts_rep_intro; [lia|simpl; lia|done|].
      apply accepts_chr_intro; [apply Ascii.eqb_refl|].
      rewrite <- (app_nil_r d) at 1.
      apply accepts_rep_intro; [lia|simpl; lia|done|]. done. }
    destruct (match_here_complete _ _ _ _ Hacc) as [lens E]. rewrite E.
    apply match_here_sound, iso_accepts_inv in E
      as (_ & _ & _ & _ & _ & _ & _ & _ & _ & _ & _ & ->).
    apply Nat.eqb_eq. rewrite !length_app. simpl. rewrite length_app. simpl.
    lia.
Qed.

Lemma text_eqb_length a : forall b, text_eqb a b = true -> length a = length b.
Proof.
  induction a as [|x a IH]; intros [|y b]; simpl; try done.
  intros [_ H]%andb_true_iff. by rewrite (IH b H).
Qed.

Lemma iso_date_length x : iso_date_shaped x -> length x = 10.
Proof.
  intros (y & m & d & -> & Hy & Hm & Hd & _).
  rewrite !length_app. simpl. rewrite length_app. simpl. lia.
Qed.

Section Tasks.
Variable py_str : value -> string.

(** X13 -- the payload that [handle_tasks] sends to [create_task]: the lead
    reference and the title always; a deadline only as today's date,
    tomorrow's date, or the slot's own text when, stripped and lower-cased,
    it is four digits, two digits and two digits separated by dashes.  Any
    other deadline text is left out, and a well-shaped one is always
    sent. *)
Theorem task_deadline_normalised (s : state) (lead_ref : value)
    (today tomorrow : text) :
  let p := task_payload py_str s lead_ref today tomorrow in
  dget p "lead_ref_ou_id" = VStr (str_of py_str lead_ref) /\
  dget p "titulo" = dget (slots s) "titulo" /\
  (dhas p "data_limite" = true ->
   exists dl x,
     dget (slots s) "data_limite" = VStr dl /\
     dget p "data_limite" = VStr (to_string x) /\
     (x = today \/ x = tomorrow \/
      (x = lower (strip (of_string dl)) /\ iso_date_shaped x))) /\
  (forall dl,
     dget (slots s) "data_limite" = VStr dl ->
     iso_date_shaped (lower (strip (of_string dl))) ->
     dget p "data_limite" = VStr (to_string (lower (strip (of_string dl))))).
Proof.
  cbv zeta. unfold task_payload.
  set (base := [ ("lead_ref_ou_id"%string, VStr (str_of py_str lead_ref));
                 ("titulo"%string, dget (slots s) "titulo") ]).
  set (p0 := if truthy (dget (slots s) "tipo")
             then dset base "tipo" (dget (slots s) "tipo") else base).
  assert (H0 : dget p0 "lead_ref_ou_id" = VStr (str_of py_str lead_ref) /\
               dget p0 "titulo" = dget (slots s) "titulo" /\
               dhas p0 "data_limite" = false).
  { unfold p0, base. by destruct (truthy (dget (slots s) "tipo")). }
  destruct H0 as (H1 & H2 & H3). clearbody p0. clear base.
  assert (Hset : forall v,
            dget (dset p0 "data_limite" v) "lead_ref_ou_id"
              = VStr (str_of py_str lead_ref) /\
            dget (dset p0 "data_limite" v) "titulo" = dget (slots s) "titulo" /\
            dget (dset p0 "data_limite" v) "data_limite" = v).
  { intros v. rewrite !dget_dset_other by done. by rewrite dget_dset_same. }
  destruct (dget (slots s) "data_limite") as [| | |dl| |] eqn:Edl;
    try (repeat split; try done; intros H; congruence).
  set (x := lower (strip (of_string dl))).
  destruct (text_eqb x (of_string "amanha")
            || text_eqb x (of_string "amanh" ++ [ascii_of_nat 227])) eqn:Ea;
    [|destruct (text_eqb x (of_string "hoje")) eqn:Eh;
      [|destruct (fullmatch ISO_DATE x) eqn:Ei]].
  - destruct (Hset (VStr (to_string tomorrow))) as (A & B & C).
    repeat split; try done.
    + intros _. exists dl, tomorrow. auto.
    + intros dl' [= <-] Hiso. exfalso. apply iso_date_length in Hiso.
      fold x in Hiso.
      apply orb_true_iff in Ea as [Ea|Ea]; apply text_eqb_length in Ea;
        rewrite Hiso in Ea; simpl in Ea; lia.
  - destruct (Hset (VStr (to_string today))) as (A & B & C).
    repeat split; try done.
    + intros _. exists dl, today. auto.
    + intros dl' [= <-] Hiso. exfalso. apply iso_date_length in Hiso.
      fold x in Hiso. apply text_eqb_length in Eh.
      rewrite Hiso in Eh. simpl in Eh. lia.
  - destruct (Hset (VStr (to_string x))) as (A & B & C).
    repeat split; try done.
    + intros _. exists dl, x. split; [done|]. split; [done|].
      right. right. split; [done|]. by apply fullmatch_iso.
    + by intros dl' [= <-] Hiso.
  - repeat split; try done.
    + intros H. congruence.
    + intros dl' [= <-] Hiso. apply fullmatch_iso in Hiso. fold x in Hiso.
      congruence.
Qed.

End Tasks.

Section Notes.
Variable W : Type.
Variable py_str : value -> string.
Variable tool_invoke : W -> tool_name -> dict -> res tool_result * W.

#[local] Abbreviation handle_notes_ := (handle_notes W py_str tool_invoke).

(** one assistant message, and at most one segment that says the same *)
Definition note_answer (s s' : state) : Prop :=
  exists i t,
    intent s = Some i /\
    messages s' = messages s ++ [ai t] /\ intent s' = intent s /\
    slots s' = slots s /\ lead_atual s' = lead_atual s /\
    errors s' = errors s /\
    (context s' = context s \/
     exists ok data, context s' = push_ai_response (context s) i t ok data).

Lemma handle_notes_answer s :
  spec (handle_notes_ s)
       (fun evs r => match r with Ok s' => note_answer s s' | Raise => True end).
Proof.
  unfold handle_notes, invoke, report, say, ensure_context.
  destruct (intent s) as [i|] eqn:Ei; [|by apply spec_raise].
  wp; try exact I;
    (exists i; eexists; split; [exact Ei|]; repeat split;
     first [ by left | right; by eexists _, _ ]).
Qed.

(** X12 -- [handle_notes]: a state without the intent key or without the
    slots key makes it raise, nothing being called; with both, a missing lead
    reference, and for a new note a missing text, make it ask for what is
    missing and call no tool; and whenever it returns it has added exactly
    one assistant message, left intent, slots, lead and errors alone, and
    recorded at most one segment, whose intent is the current one and whose
    text is the message. *)
Theorem handle_notes_outcomes (s : state) (e : env W node) :
  (intent s = None \/ has_slots s = false -> handle_notes_ s e = (Raise, e))
  /\
  (forall i, intent s = Some i -> has_slots s = true ->
     truthy (lead_ref_of s) = false ->
     handle_notes_ s e
     = (Ok (say s (of_string "Preciso de um lead para trabalhar com notas.")), e))
  /\
  (intent s = Some "nota_adicionar"%string -> has_slots s = true ->
   truthy (dget (slots s) "texto") = false ->
   exists t, handle_notes_ s e = (Ok (say s t), e))
  /\
  (forall s', fst (handle_notes_ s e) = Ok s' ->
     has_slots s = true /\ note_answer s s').
Proof.
  split; [|split; [|split]].
  - intros H. unfold handle_notes. destruct (intent s); [|done].
    destruct H as [H|H]; [done|]. by rewrite H.
  - intros i Hi Hk Hl. unfold handle_notes. by rewrite Hi, Hk, Hl.
  - intros Hi Hk Ht. unfold handle_notes. rewrite Hi, Hk, Ht.
    destruct (truthy (lead_ref_of s)); by eexists.
  - intros s' Hs. split.
    + unfold handle_notes in Hs. destruct (intent s); [|done].
      by destruct (has_slots s).
    + destruct (handle_notes_answer s e) as (evs & _ & H).
      by rewrite Hs in H.
Qed.

End Notes.

End HandlerFacts.

(** ** [update_context]: the scan of the tool messages *)

Module ConsolidationFacts.
Import PyStr Py Eff EffFacts Tools State Queue Helpers Workflow DictFacts
  NodeFacts ResolutionFacts.

Lemma text_eqb_eq a : forall b, text_eqb a b = true <-> a = b.
Proof.
  induction a as [|x a IH]; intros [|y b]; simpl; try done.
  rewrite andb_true_iff, IH, Ascii.eqb_eq. split.
  - by intros [-> ->].
  - by intros [= -> ->].
Qed.

Lemma in_texts_app k l1 l2 :
  in_texts k (l1 ++ l2) = in_texts k l1 || in_texts k l2.
Proof. unfold in_texts. apply existsb_app. Qed.

Lemma in_texts_last k l : in_texts k (l ++ [k]) = true.
Proof.
  rewrite in_texts_app. simpl.
  rewrite (proj2 (text_eqb_eq k k) eq_refl). simpl. apply orb_true_r.
Qed.

Section Scan.
Variable W : Type.
Variable py_str : value -> string.
Variable literal_eval : text -> option value.
Variable db_select : W -> query -> res (list lead_row) * W.

#[local] Abbreviation scan_message_ :=
  (scan_message W py_str literal_eval db_select).
#[local] Abbreviation scan_messages_ :=
  (scan_messages W py_str literal_eval db_select).
#[local] Abbreviation tool_segment_ := (tool_segment py_str).
#[local] Abbreviation segment_key_ := (segment_key py_str).
#[local] Abbreviation existing_keys_ := (existing_keys py_str).

(** the message is a tool result that reads as the dictionary [d] *)
Definition tool_result_of (m : message) (d : dict) : Prop :=
  m_kind m = ToolMsg /\ tool_data literal_eval m = Some d.

(** one change of the scan over the messages [ms]: the first lead found, or
    the segment of a tool result *)
Inductive scan_step (ms : list message) : scan -> scan -> Prop :=
| scan_lead a l :
    sc_lead a = None -> truthy (lead_id l) = true ->
    scan_step ms a
      (Scan (Some l)
            (dsetdefault (sc_slots a) "lead_ref_ou_id"
                         (VStr (str_of py_str (lead_id l))))
            (sc_ctx a) (sc_keys a))
| scan_segment a m d :
    In m ms -> tool_result_of m d ->
    scan_step ms a (add_segment py_str a (m_name m) d).

(** any number of changes *)
Inductive scan_steps (ms : list message) : scan -> scan -> Prop :=
| steps_none a : scan_steps ms a a
| steps_more a b c : scan_steps ms a b -> scan_step ms b c -> scan_steps ms a c.

Lemma scan_steps_trans ms a b c :
  scan_steps ms a b -> scan_steps ms b c -> scan_steps ms a c.
Proof.
  intros Hab Hbc. induction Hbc as [|b c d Hbc IH Hcd]; [done|].
  eapply steps_more; [by apply IH|done].
Qed.

Lemma scan_steps_one ms a b : scan_step ms a b -> scan_steps ms a b.
Proof. intros H. eapply steps_more; [apply steps_none|done]. Qed.

Definition knows (a : scan) (k : text) : Prop := in_texts k (sc_keys a) = true.

Lemma add_segment_keys a name d :
  sc_keys (add_segment py_str a name d) = sc_keys a \/
  exists k i t data,
    tool_segment_ name d = Some (k, i, t, data) /\
    in_texts k (sc_keys a) = false /\
    sc_keys (add_segment py_str a name d) = sc_keys a ++ [k] /\
    sc_ctx (add_segment py_str a name d)
    = push_ai_response (sc_ctx a) i t true data.
Proof.
  unfold add_segment.
  destruct (tool_segment_ name d) as [[[[k i] t] data]|] eqn:E; [|by left].
  destruct (in_texts k (sc_keys a)) eqn:Ek; [by left|].
  right. by exists k, i, t, data.
Qed.

Lemma add_segment_same a name d :
  sc_lead (add_segment py_str a name d) = sc_lead a /\
  sc_slots (add_segment py_str a name d) = sc_slots a.
Proof.
  unfold add_segment.
  destruct (tool_segment_ name d) as [[[[k i] t] data]|]; [|done].
  by destruct (in_texts k (sc_keys a)).
Qed.

Lemma add_segment_knows a name d k i t data :
  tool_segment_ name d = Some (k, i, t, data) ->
  knows (add_segment py_str a name d) k.
Proof.
  intros E. unfold knows, add_segment. rewrite E.
  destruct (in_texts k (sc_keys a)) eqn:Ek; [done|]. simpl.
  apply in_texts_last.
Qed.

Lemma scan_step_knows ms a a' k : scan_step ms a a' -> knows a k -> knows a' k.
Proof.
  intros [a0 l Hl Hid|a0 m d Hin Hm] Hk; [done|].
  unfold knows in *.
  destruct (add_segment_keys a0 (m_name m) d)
    as [->|(k' & i & t & data & _ & _ & -> & _)]; [done|].
  by rewrite in_texts_app, Hk.
Qed.

Lemma scan_steps_knows ms a a' k :
  scan_steps ms a a' -> knows a k -> knows a' k.
Proof. induction 1; eauto using scan_step_knows. Qed.

Lemma scan_step_mono ms ms' a a' :
  (forall m, In m ms -> In m ms') -> scan_step ms a a' -> scan_step ms' a a'.
Proof.
  intros Hsub [a0 l Hl Hid|a0 m d Hin Hm]; [by constructor|].
  constructor; [by apply Hsub|done].
Qed.

Lemma scan_steps_mono ms ms' a a' :
  (forall m, In m ms -> In m ms') ->
  scan_steps ms a a' -> scan_steps ms' a a'.
Proof.
  intros Hsub. induction 1; [apply steps_none|].
  eapply steps_more; [done|by eapply scan_step_mono].
Qed.

(** what a scan of [ms] reaches: a sequence of changes, after which the key
    of every tool result of [ms] is known *)
Definition scanned_all (ms : list message) (a : scan)
    (evs : list (event node)) (r : res scan) : Prop :=
  evs = [] /\
  exists a',
    r = Ok a' /\ scan_steps ms a a' /\
    forall m d k i t data,
      In m ms -> tool_result_of m d ->
      tool_segment_ (m_name m) d = Some (k, i, t, data) -> knows a' k.

Lemma get_lead_context_found ref :
  spec (get_lead_context W py_str db_select ref)
       (fun evs r =>
          evs = [] /\
          exists o, r = Ok o /\
            match o with Some l => truthy (lead_id l) = true | None => True end).
Proof.
  unfold get_lead_context, get_lead_tool.
  destruct (truthy ref); [|apply spec_ret; split; [done|by exists None]].
  apply spec_bind, spec_try. wp_quiet (get_lead_quiet W db_select).
  apply spec_ret. split; [done|]. eexists. split; [reflexivity|].
  destruct (lead_context_from_result _) eqn:E; [|done].
  by apply lead_context_has_id in E.
Qed.

Lemma note_lead_steps ms a v :
  spec (note_lead W py_str db_select a v)
       (fun evs r => evs = [] /\ exists a', r = Ok a' /\ scan_steps ms a a').
Proof.
  unfold note_lead.
  destruct (sc_lead a) eqn:El;
    [apply spec_ret; split; [done|]; eexists; split;
     [reflexivity|apply steps_none]|].
  destruct (truthy v);
    [|apply spec_ret; split; [done|]; eexists; split;
      [reflexivity|apply steps_none]].
  apply spec_bind.
  eapply spec_conseq; [apply get_lead_context_found|].
  intros evs r (-> & o & -> & Ho).
  destruct o as [l|]; apply spec_ret; (split; [done|]); eexists;
    (split; [reflexivity|]); [|apply steps_none].
  apply scan_steps_one. by constructor.
Qed.

Lemma scan_message_steps ms a m :
  In m ms ->
  spec (scan_message_ a m)
       (fun evs r =>
          evs = [] /\
          exists a',
            r = Ok a' /\ scan_steps ms a a' /\
            forall d k i t data,
              tool_result_of m d ->
              tool_segment_ (m_name m) d = Some (k, i, t, data) -> knows a' k).
Proof.
  intros Hin. unfold scan_message, tool_result_of.
  assert (Hsame : forall P : Prop, ~ P ->
            spec (ret (W:=W) (N:=node) a)
                 (fun evs r =>
                    evs = [] /\
                    exists a',
                      r = Ok a' /\ scan_steps ms a a' /\
                      forall d k i t data,
                        P /\ tool_data literal_eval m = Some d ->
                        tool_segment_ (m_name m) d = Some (k, i, t, data) ->
                        knows a' k)).
  { intros P HP. apply spec_ret. split; [done|]. eexists.
    split; [reflexivity|]. split; [apply steps_none|].
    intros ? ? ? ? ? [? _]. done. }
  destruct (m_kind m) eqn:Ek; try (by apply Hsame).
  destruct (tool_data literal_eval m) as [d|] eqn:Ed.
  - apply spec_bind. eapply spec_conseq; [apply (note_lead_steps ms)|].
    intros evs r (-> & a1 & -> & H1). apply spec_ret. split; [done|].
    eexists. split; [reflexivity|]. split.
    + eapply steps_more; [exact H1|]. by constructor.
    + intros d' k i t data [_ [= <-]] Hseg. by eapply add_segment_knows.
  - apply spec_ret. split; [done|]. eexists. split; [reflexivity|].
    split; [apply steps_none|]. by intros ? ? ? ? ? [_ ?].
Qed.

Lemma scan_messages_steps ms : forall a all,
  (forall m, In m ms -> In m all) ->
  spec (scan_messages_ a ms)
       (fun evs r =>
          evs = [] /\
          exists a',
            r = Ok a' /\ scan_steps all a a' /\
            forall m d k i t data,
              In m ms -> tool_result_of m d ->
              tool_segment_ (m_name m) d = Some (k, i, t, data) -> knows a' k).
Proof.
  induction ms as [|m ms IH]; intros a all Hsub; simpl.
  - apply spec_ret. split; [done|]. eexists. split; [reflexivity|].
    split; [apply steps_none|]. by intros.
  - apply spec_bind.
    eapply spec_conseq; [apply (scan_message_steps all); apply Hsub; by left|].
    intros evs r (-> & a1 & -> & H1 & K1).
    eapply spec_conseq;
      [apply (IH a1 all); intros m' Hm'; apply Hsub; by right|].
    intros evs r (-> & a2 & -> & H2 & K2). split; [done|].
    eexists. split; [reflexivity|]. split; [by eapply scan_steps_trans|].
    intros m' d k i t data [<-|Hin] Hm Hseg.
    + eapply scan_steps_knows; [exact H2|]. by eapply K1.
    + by eapply K2.
Qed.

Lemma scan_messages_all ms a : spec (scan_messages_ a ms) (scanned_all ms a).
Proof. by apply scan_messages_steps. Qed.

(** a scan only appends segments *)
Lemma scan_steps_appended ms a a' :
  scan_steps ms a a' -> appended (sc_ctx a) (sc_ctx a').
Proof.
  induction 1 as [|a b c _ IH Hstep]; [apply appended_refl|].
  eapply appended_trans; [exact IH|].
  destruct Hstep; [apply appended_refl|apply add_segment_appended].
Qed.

(** the lead and the slots of a scan that starts without a lead: as they
    were, or the first lead found, with an identifier, and its reference
    written unless the slot was there *)
Definition lead_found (a a' : scan) : Prop :=
  (sc_lead a' = None /\ sc_slots a' = sc_slots a) \/
  exists l,
    sc_lead a' = Some l /\ truthy (lead_id l) = true /\
    sc_slots a'
    = dsetdefault (sc_slots a) "lead_ref_ou_id"
                  (VStr (str_of py_str (lead_id l))).

Lemma scan_steps_lead ms a a' :
  sc_lead a = None -> scan_steps ms a a' -> lead_found a a'.
Proof.
  intros Hl. induction 1 as [|a b c _ IH Hstep]; [by left|].
  specialize (IH Hl).
  destruct Hstep as [b l Hb Hid|b m d Hin Hm].
  - destruct IH as [[_ Hs]|(l' & Hl' & _)]; [|congruence].
    right. exists l. simpl. by rewrite Hs.
  - destruct (add_segment_same b (m_name m) d) as [E1 E2].
    unfold lead_found. rewrite E1, E2. exact IH.
Qed.

(** a scan that knows the key of every tool result changes no segment *)
Lemma scan_steps_known ms a a' :
  (forall m d k i t data,
     In m ms -> tool_result_of m d ->
     tool_segment_ (m_name m) d = Some (k, i, t, data) -> knows a k) ->
  scan_steps ms a a' -> sc_ctx a' = sc_ctx a /\ sc_keys a' = sc_keys a.
Proof.
  intros Hk. induction 1 as [|a b c _ IH Hstep]; [done|].
  destruct (IH Hk) as [Hc Hks].
  destruct Hstep as [b l Hb Hid|b m d Hin Hm]; [done|].
  unfold add_segment.
  destruct (tool_segment_ (m_name m) d) as [[[[k i] t] data]|] eqn:E; [|done].
  specialize (Hk m d k i t data Hin Hm E). unfold knows in Hk.
  rewrite <- Hks in Hk. by rewrite Hk.
Qed.

(** the key under which a pushed segment is found again *)
Lemma tool_segment_keyed name d k i t data :
  tool_segment_ name d = Some (k, i, t, data) ->
  (text_eqb name (of_string "calculate_proposal_totals") = true ->
   truthy (dget d "proposta_id") = true) ->
  segment_key_ (Segment i t true data) = Some k.
Proof.
  unfold tool_segment. intros H Htot.
  destruct (text_eqb name (of_string "create_lead")
            && truthy (dget d "lead_id")) eqn:E1.
  { apply andb_true_iff in E1 as [_ E1]. injection H as <- <- <- <-.
    unfold segment_key. simpl. by rewrite E1. }
  destruct (text_eqb name (of_string "draft_proposal")
            && truthy (dget d "proposta_id")) eqn:E2.
  { apply andb_true_iff in E2 as [_ E2]. injection H as <- <- <- <-.
    unfold segment_key. simpl. by rewrite E2. }
  destruct (text_eqb name (of_string "add_proposal_item")
            && truthy (dget d "proposta_id") && truthy (dget d "item_id"))
    eqn:E3.
  { apply andb_true_iff in E3 as [E3 E3'].
    apply andb_true_iff in E3 as [_ E3]. injection H as <- <- <- <-.
    unfold segment_key. simpl. by rewrite E3, E3'. }
  destruct (text_eqb name (of_string "calculate_proposal_totals")
            && match dget d "proposta_id" with VNone => false | _ => true end)
    eqn:E4; [|done].
  apply andb_true_iff in E4 as [En _]. specialize (Htot En).
  injection H as <- <- <- <-. unfold segment_key. simpl. by rewrite Htot.
Qed.

Lemma tool_segment_totals d x :
  tool_segment_ (of_string "calculate_proposal_totals") d = Some x ->
  dget d "proposta_id" <> VNone.
Proof.
  unfold tool_segment. simpl. intros H Hn. rewrite Hn in H. done.
Qed.

(** every tool result about totals names its proposal *)
Definition totals_identified (ms : list message) : Prop :=
  forall m d,
    In m ms -> tool_result_of m d ->
    text_eqb (m_name m) (of_string "calculate_proposal_totals") = true ->
    dget d "proposta_id" <> VNone -> truthy (dget d "proposta_id") = true.

(** every key the scan knows is the key of a segment *)
Definition keys_recorded (a : scan) : Prop :=
  forall k, knows a k -> in_texts k (existing_keys_ (sc_ctx a)) = true.

Lemma scan_steps_recorded ms a a' :
  totals_identified ms -> keys_recorded a -> scan_steps ms a a' ->
  keys_recorded a'.
Proof.
  intros Htot Ha. induction 1 as [|a b c _ IH Hstep]; [done|].
  specialize (IH Ha).
  destruct Hstep as [b l Hb Hid|b m d Hin Hm]; [done|].
  unfold keys_recorded, existing_keys in *.
  destruct (add_segment_keys b (m_name m) d)
    as [Hsame|(k & i & t & data & Hseg & Hnew & Hkeys & Hctx)].
  - intros k Hk. unfold knows in Hk. rewrite Hsame in Hk.
    specialize (IH k Hk).
    destruct (add_segment_appended py_str b (m_name m) d) as [segs ->].
    simpl. rewrite omap_app, in_texts_app, IH. done.
  - intros k' Hk'. unfold knows in Hk'. rewrite Hkeys, in_texts_app in Hk'.
    rewrite Hctx. unfold push_ai_response. simpl.
    rewrite omap_app, in_texts_app. simpl.
    assert (Hkey : segment_key_ (Segment i t true data) = Some k).
    { apply (tool_segment_keyed _ _ _ _ _ _ Hseg). intros Hn.
      apply (Htot m d Hin Hm Hn).
      apply text_eqb_eq in Hn. rewrite Hn in Hseg.
      by apply tool_segment_totals in Hseg. }
    rewrite Hkey. simpl.
    apply orb_true_iff in Hk' as [Hk'|Hk'].
    + by rewrite (IH k' Hk').
    + simpl in Hk'. rewrite orb_false_r in Hk'. rewrite Hk'.
      apply orb_true_r.
Qed.

End Scan.
Section Consolidator.
Variable W : Type.
Variable py_str : value -> string.
Variable json_loads : text -> option value.
Variable literal_eval : text -> option value.
Variable PLAN_SYSTEM_PROMPT : text.
Variable plan_llm : W -> list message -> res (list plan_action) * W.
Variable db_select : W -> query -> res (list lead_row) * W.

#[local] Abbreviation update_context_ :=
  (update_context W py_str json_loads literal_eval PLAN_SYSTEM_PROMPT plan_llm
     db_select).
#[local] Abbreviation replan_ :=
  (replan W py_str json_loads PLAN_SYSTEM_PROMPT plan_llm).

(** the scan as [update_context] starts it *)
Definition start (s : state) : scan :=
  Scan None (slots s) (context s) (existing_keys py_str (context s)).

(** what [update_context] returns, given the scan [a] it made *)
Definition result_of_scan (s : state) (a : scan) (evs : list (event node))
    (r : res state) : Prop :=
  exists s',
    r = Ok s' /\
    messages s' = messages s /\ intent s' = intent s /\
    errors s' = errors s /\ slots s' = sc_slots a /\
    ai_responses (context s') = ai_responses (sc_ctx a) /\
    match sc_lead a with
    | Some l => lead_atual s' = Some l
    | None =>
        lead_atual s' = lead_atual s \/
        exists l, lead_atual s' = Some l /\ truthy (lead_id l) = true
    end /\
    ((evs = [] /\
      replanned (context s') = replanned (sc_ctx a) /\
      (pending_actions (context s') = pending_actions (sc_ctx a) \/
       exists l,
         lead_atual s' = Some l /\
         pending_actions (context s')
         = map (inject_lead py_str l) (pending_actions (sc_ctx a))))
     \/ (evs = [EvPlanner Replan] /\
         pending_actions (sc_ctx a) = [] /\ replanned (sc_ctx a) = false /\
         (replanned (context s') = true \/
          pending_actions (context s') = []))).

Lemma replan_result s a new_lead :
  match sc_lead a with
  | Some l => new_lead = Some l
  | None =>
      match new_lead with
      | Some l => truthy (lead_id l) = true
      | None => True
      end
  end ->
  spec (let c := sc_ctx a in
        let c := match new_lead with
                 | Some l => set_pending c (map (inject_lead py_str l)
                                              (pending_actions c))
                 | None => c
                 end in
        let* c := replan_ s c new_lead in
        let s0 := with_context (with_slots s (sc_slots a)) c in
        ret (match new_lead with
             | Some l => with_lead s0 l
             | None => s0
             end))%eff
       (result_of_scan s a).
Proof.
  intros Hlead. cbv zeta. apply spec_bind.
  eapply spec_conseq; [apply replan_spec|].
  intros evs r (c' & -> & _ & _ & Hai & Hcase). apply spec_ret.
  rewrite app_nil_r.
  set (s' := match new_lead with
             | Some l => with_lead (with_context (with_slots s (sc_slots a)) c') l
             | None => with_context (with_slots s (sc_slots a)) c'
             end).
  assert (Hfr : messages s' = messages s /\ intent s' = intent s /\
                errors s' = errors s /\ slots s' = sc_slots a /\
                context s' = c' /\
                lead_atual s' = match new_lead with
                                | Some l => Some l
                                | None => lead_atual s
                                end)
    by (unfold s'; by destruct new_lead).
  destruct Hfr as (Hm & Hi & He & Hs & Hc & Hl). clearbody s'.
  exists s'. split; [done|]. split; [done|]. split; [done|].
  split; [done|]. split; [done|]. rewrite Hc.
  split; [simpl in Hai; by destruct new_lead|]. split.
  - rewrite Hl. destruct (sc_lead a) as [l|]; [by rewrite Hlead|].
    destruct new_lead as [l|]; [right; by exists l|by left].
  - destruct Hcase as [(-> & -> & _)|(-> & Hq & Hr & Hres)].
    + left. split; [done|]. split; [by destruct new_lead|].
      destruct new_lead as [l|]; [right; by exists l|by left].
    + right. split; [done|].
      split; [destruct new_lead; [|done]; simpl in Hq;
              by destruct (pending_actions (sc_ctx a))|].
      split; [by destruct new_lead|].
      destruct Hres as [?|Heq]; [by left|right; by rewrite Heq].
Qed.

Lemma update_context_from_scan s (P : scan -> Prop) :
  spec (scan_messages W py_str literal_eval db_select (start s)
          (rev (messages s)))
       (fun evs r => evs = [] /\ exists a, r = Ok a /\ P a) ->
  spec (update_context_ s)
       (fun evs r => exists a, P a /\ result_of_scan s a evs r).
Proof.
  intros Hscan. unfold update_context, ensure_context. apply spec_bind.
  eapply spec_conseq; [exact Hscan|].
  intros evs r (-> & a & -> & HP). apply spec_bind.
  assert (Hgo : forall new_lead,
            match sc_lead a with
            | Some l => new_lead = Some l
            | None =>
                match new_lead with
                | Some l => truthy (lead_id l) = true
                | None => True
                end
            end ->
            spec (let c := sc_ctx a in
                  let c := match new_lead with
                           | Some l => set_pending c (map (inject_lead py_str l)
                                                        (pending_actions c))
                           | None => c
                           end in
                  let* c := replan_ s c new_lead in
                  let s0 := with_context (with_slots s (sc_slots a)) c in
                  ret (match new_lead with
                       | Some l => with_lead s0 l
                       | None => s0
                       end))%eff
                 (fun evs2 r2 =>
                    exists a0, P a0 /\ result_of_scan s a0 ([] ++ [] ++ evs2) r2)).
  { intros new_lead Hl. eapply spec_conseq; [by apply replan_result|].
    intros evs r H. exists a. by split. }
  destruct (sc_lead a) as [l|] eqn:El.
  - apply spec_ret. by apply (Hgo (Some l)).
  - destruct (truthy _).
    + eapply spec_conseq;
        [apply (get_lead_context_found W py_str db_select)|].
      intros evs r (-> & o & -> & Ho). by apply (Hgo o).
    + apply spec_ret. by apply (Hgo None).
Qed.

Lemma truthy_dhas d k : truthy (dget d k) = true -> dhas d k = true.
Proof.
  intros H. destruct (dhas d k) eqn:E; [done|].
  by rewrite (ExecutorFacts.dget_absent d k E) in H.
Qed.

(** step 3.1 on one action of the queue: the intent stays, a slot that
    holds something stays, and so does every slot other than the lead
    reference and the currency *)
Lemma inject_lead_keeps l a :
  a_intent (inject_lead py_str l a) = a_intent a /\
  forall k,
    truthy (dget (a_slots a) k) = true \/
    (k <> "lead_ref_ou_id"%string /\ k <> "moeda"%string) ->
    dget (a_slots (inject_lead py_str l a)) k = dget (a_slots a) k.
Proof.
  split; [done|]. intros k Hk. unfold inject_lead. cbn [a_slots].
  set (d := a_slots a) in *.
  set (d1 := if (in_list (a_intent a) INTENTS_REQUIRING_LEAD
                 && (truthy (lead_id l)
                     && negb (String.eqb (str_of py_str (lead_id l))
                                         EmptyString))
                 && negb (truthy (dget d "lead_ref_ou_id")))%bool
             then dset d "lead_ref_ou_id" (VStr (str_of py_str (lead_id l)))
             else d).
  assert (H1 : dget d1 k = dget d k /\
               (truthy (dget d k) = true -> dhas d1 k = true)).
  { unfold d1.
    destruct (in_list (a_intent a) INTENTS_REQUIRING_LEAD
              && (truthy (lead_id l)
                  && negb (String.eqb (str_of py_str (lead_id l)) EmptyString))
              && negb (truthy (dget d "lead_ref_ou_id"))) eqn:E;
      [|split; [done|apply truthy_dhas]].
    apply andb_true_iff in E as [_ E]. apply negb_true_iff in E.
    assert (Hne : "lead_ref_ou_id"%string <> k).
    { intros <-. destruct Hk as [Hk|[Hk _]]; [congruence|done]. }
    split; [by apply dget_dset_other|].
    intros Ht. by apply dhas_dset_keep, truthy_dhas. }
  destruct H1 as [H1 H1'].
  destruct (String.eqb (a_intent a) "proposta_rascunhar"
            && negb (dhas d1 "moeda")) eqn:E; [|done].
  apply andb_true_iff in E as [_ E]. apply negb_true_iff in E.
  rewrite dget_dset_other; [done|].
  intros <-. destruct Hk as [Hk|[_ Hk]]; [|done].
  rewrite (H1' Hk) in E. done.
Qed.

(** X15 -- [update_context] returns for every database and planner,
    raising ones included.  It leaves messages, intent and errors alone and
    only appends segments.  The lead stays or becomes a lead with an
    identifier.  The one slot it may write is the lead reference, and only
    when the slot was absent; then the lead is the one referred to.  With a
    queue that is not empty, or after a replanning, the queue keeps its
    actions in their order, each with the lead reference and the currency
    filled in where they were missing, and [replanned] stays. *)
Theorem update_context_frame (s : state) (e : env W node) :
  exists s',
    fst (update_context_ s e) = Ok s' /\
    messages s' = messages s /\ intent s' = intent s /\
    errors s' = errors s /\
    ai_responses (context s) `prefix_of` ai_responses (context s') /\
    (lead_atual s' = lead_atual s \/
     exists l, lead_atual s' = Some l /\ truthy (lead_id l) = true) /\
    (slots s' = slots s \/
     exists l,
       lead_atual s' = Some l /\ dhas (slots s) "lead_ref_ou_id" = false /\
       slots s' = dset (slots s) "lead_ref_ou_id"
                       (VStr (str_of py_str (lead_id l)))) /\
    ((pending_actions (context s) <> [] \/ replanned (context s) = true) ->
     replanned (context s') = replanned (context s) /\
     exists q,
       pending_actions (context s') = q /\
       Forall2 (fun a a' =>
                  a_intent a' = a_intent a /\
                  forall k,
                    truthy (dget (a_slots a) k) = true \/
                    (k <> "lead_ref_ou_id"%string /\ k <> "moeda"%string) ->
                    dget (a_slots a') k = dget (a_slots a) k)
               (pending_actions (context s)) q).
Proof.
  destruct (update_context_from_scan s
              (fun a => scan_steps py_str literal_eval (rev (messages s))
                          (start s) a)) with (e := e)
    as (evs & _ & a & Hsteps & s' & Hr & Hm & Hi & He & Hs & Hai & Hl & Hq).
  { eapply spec_conseq; [apply scan_messages_all|].
    intros evs r (-> & a & -> & H & _). split; [done|]. by exists a. }
  exists s'. split; [done|]. split; [done|]. split; [done|]. split; [done|].
  pose proof (scan_steps_appended _ _ _ _ _ Hsteps) as Happ.
  destruct (appended_fields _ _ Happ) as (Hp & _ & _ & Hrp & Hpre).
  simpl in Hp, Hrp, Hpre.
  pose proof (scan_steps_lead py_str literal_eval _ (start s) a eq_refl Hsteps)
    as Hlead.
  split; [by rewrite Hai|]. split; [|split].
  - destruct Hlead as [[El _]|(l & El & Hid & _)]; rewrite El in Hl.
    + exact Hl.
    + right. by exists l.
  - rewrite Hs. destruct Hlead as [[_ ->]|(l & El & Hid & ->)]; [by left|].
    rewrite El in Hl. unfold dsetdefault. simpl.
    destruct (dhas (slots s) "lead_ref_ou_id") eqn:Eh; [by left|].
    right. by exists l.
  - intros Hbusy.
    destruct Hq as [(_ & Hr' & Hq)|(_ & Hq & Hr' & _)].
    + split; [by rewrite Hr', Hrp|]. eexists. split; [reflexivity|].
      rewrite Hp in Hq. destruct Hq as [->|(l & _ & ->)].
      * clear. induction (pending_actions (context s)); constructor; [|done].
        split; done.
      * clear. induction (pending_actions (context s)); constructor; [|done].
        apply inject_lead_keeps.
    + exfalso. rewrite Hp in Hq. rewrite Hrp in Hr'.
      destruct Hbusy; congruence.
Qed.

(** X14 -- consolidating twice records nothing twice.  When every tool
    result about totals names its proposal, a second [update_context] on
    the state that a first one returned, whatever the database and the
    planner answer in between, leaves the recorded segments as they are:
    the tool messages are scanned again and every one is recognised. *)
Theorem consolidation_records_once (s s1 : state) (e e1 e2 : env W node) :
  totals_identified literal_eval (messages s) ->
  update_context_ s e = (Ok s1, e1) ->
  exists s2,
    fst (update_context_ s1 e2) = Ok s2 /\
    ai_responses (context s2) = ai_responses (context s1).
Proof.
  intros Htot Hrun.
  assert (Htot' : totals_identified literal_eval (rev (messages s))).
  { intros m d Hin. apply Htot. by apply in_rev. }
  destruct (update_context_from_scan s
              (fun a => scanned_all py_str literal_eval (rev (messages s))
                          (start s) [] (Ok a))) with (e := e)
    as (evs & _ & a & (_ & a' & [= <-] & Hsteps & Hcov)
        & s' & Hr & Hm & _ & _ & _ & Hai & _).
  { eapply spec_conseq; [apply scan_messages_all|].
    intros evs r (-> & a & -> & H). split; [done|]. exists a.
    split; [done|]. split; [done|]. by exists a. }
  rewrite Hrun in Hr. simpl in Hr. injection Hr as <-.
  assert (Hrec : keys_recorded py_str a).
  { eapply scan_steps_recorded; [exact Htot'| |exact Hsteps].
    by intros k Hk. }
  destruct (update_context_from_scan s1
              (fun a => scan_steps py_str literal_eval (rev (messages s1))
                          (start s1) a)) with (e := e2)
    as (evs2 & _ & a2 & Hsteps2 & s2 & Hr2 & _ & _ & _ & _ & Hai2 & _).
  { eapply spec_conseq; [apply scan_messages_all|].
    intros evs' r (-> & a0 & -> & H & _). split; [done|]. by exists a0. }
  exists s2. split; [done|]. rewrite Hai2.
  assert (Hknown : forall m d k i t data,
            In m (rev (messages s1)) -> tool_result_of literal_eval m d ->
            tool_segment py_str (m_name m) d = Some (k, i, t, data) ->
            knows (start s1) k).
  { intros m d k i t data Hin Hmd Hseg. rewrite Hm in Hin.
    specialize (Hcov m d k i t data Hin Hmd Hseg). apply Hrec in Hcov.
    unfold knows, start. simpl. unfold existing_keys in *. by rewrite Hai. }
  by destruct (scan_steps_known py_str literal_eval _ _ _ Hknown Hsteps2)
    as [-> _].
Qed.

End Consolidator.

End ConsolidationFacts.

(** ** The turn: invariants of every run, and its end *)

Module TurnFacts.
Import PyStr Py Eff EffFacts Tools State Queue Helpers Workflow DictFacts
  NodeFacts ResolutionFacts FrameFacts ConsolidationFacts RouterFacts.

(** the lead of the state, when there is one, has an identifier *)
Definition lead_identified (s : state) : Prop :=
  match lead_atual s with
  | Some l => truthy (lead_id l) = true
  | None => True
  end.

(** what every node keeps: the messages so far, and a lead with an
    identifier *)
Definition kept (s s' : state) : Prop :=
  messages s `prefix_of` messages s' /\
  (lead_identified s -> lead_identified s').

Lemma kept_refl s : kept s s.
Proof. by split. Qed.

Lemma kept_trans s1 s2 s3 : kept s1 s2 -> kept s2 s3 -> kept s1 s3.
Proof.
  intros [H1 L1] [H2 L2]. split; [by etrans|auto].
Qed.

(** the queue and the replanning flag are as they were *)
Definition same_work (s s' : state) : Prop :=
  pending_actions (context s') = pending_actions (context s) /\
  replanned (context s') = replanned (context s).

Definition keeps (s : state) (evs : list (event node)) (r : res state) : Prop :=
  match r with Ok s' => kept s s' | Raise => True end.

Definition keeps_work (s : state) (evs : list (event node)) (r : res state)
  : Prop :=
  match r with Ok s' => kept s s' /\ same_work s s' | Raise => True end.

Lemma answered_kept s s' : answered s s' -> kept s s' /\ same_work s s'.
Proof.
  intros (_ & _ & Hl & _ & Hm & Ha).
  destruct (appended_fields _ _ Ha) as (Hp & _ & _ & Hr & _).
  repeat split; try done. unfold lead_identified. by rewrite Hl.
Qed.

Section Turn.
Variable W : Type.
Variable py_str : value -> string.
Variable json_loads : text -> option value.
Variable literal_eval : text -> option value.
Variables PARSER_SYSTEM_PROMPT PLAN_SYSTEM_PROMPT FINALIZER_SYSTEM_PROMPT : text.
Variable parser_llm : W -> list message -> res (string * list text) * W.
Variable plan_llm : W -> list message -> res (list plan_action) * W.
Variable finalizer_model : W -> list message -> res message * W.
Variable leads_agent_graph : W -> state -> res (list message) * W.
Variable proposals_agent_graph : W -> state -> res (list message) * W.
Variable db_select : W -> query -> res (list lead_row) * W.
Variable tool_invoke : W -> tool_name -> dict -> res tool_result * W.
Variable today_iso : W -> text.
Variable tomorrow_iso : W -> text.

#[local] Abbreviation step_ :=
  (step W py_str json_loads literal_eval PARSER_SYSTEM_PROMPT PLAN_SYSTEM_PROMPT
     FINALIZER_SYSTEM_PROMPT parser_llm plan_llm finalizer_model
     leads_agent_graph proposals_agent_graph db_select tool_invoke today_iso
     tomorrow_iso).
#[local] Abbreviation run_ :=
  (run W py_str json_loads literal_eval PARSER_SYSTEM_PROMPT PLAN_SYSTEM_PROMPT
     FINALIZER_SYSTEM_PROMPT parser_llm plan_llm finalizer_model
     leads_agent_graph proposals_agent_graph db_select tool_invoke today_iso
     tomorrow_iso).
#[local] Abbreviation turn_ :=
  (turn W py_str json_loads literal_eval PARSER_SYSTEM_PROMPT PLAN_SYSTEM_PROMPT
     FINALIZER_SYSTEM_PROMPT parser_llm plan_llm finalizer_model
     leads_agent_graph proposals_agent_graph db_select tool_invoke today_iso
     tomorrow_iso).

Lemma parse_and_classify_keeps s :
  spec (parse_and_classify W PARSER_SYSTEM_PROMPT parser_llm s) (keeps_work s).
Proof.
  unfold parse_and_classify. wp; try exact I. by repeat split.
Qed.

Lemma prepare_plan_keeps s :
  spec (prepare_plan W py_str json_loads PLAN_SYSTEM_PROMPT plan_llm s) (keeps s).
Proof.
  unfold prepare_plan, plan_and_merge. wp; try exact I; by repeat split.
Qed.

Lemma respond_final_keeps s :
  spec (respond_final W py_str FINALIZER_SYSTEM_PROMPT finalizer_model
          tool_invoke s) (keeps s).
Proof.
  unfold respond_final, respond_status, report, say, invoke, ensure_context.
  wp; try exact I; (split; [by eexists|done]).
Qed.

Lemma router_node_keeps s :
  kept s (router_node py_str s) /\ same_work s (router_node py_str s).
Proof.
  destruct (router_node_shape py_str s) as (slots' & c & errs & Hs & _).
  destruct (router_node_guards py_str s) as (_ & Hr & _ & Hp).
  split; [|by split]. rewrite Hs. by split.
Qed.

Lemma execute_pending_keeps s : kept s (execute_pending py_str s).
Proof.
  unfold execute_pending, ensure_context.
  destruct (pending_actions (context s)); by split.
Qed.

Lemma resolve_lead_keeps s :
  spec (resolve_lead W py_str db_select s) (keeps_work s).
Proof.
  intros e.
  destruct (resolve_lead_outcome W py_str db_select s e)
    as (evs & Hlog & s' & Hr & Hm & _ & _ & Hcase).
  destruct (resolve_lead_spec W py_str db_select s e)
    as (evs' & _ & _ & s'' & Hr' & _ & _ & Hrp & _ & Hp).
  exists evs. split; [done|]. rewrite Hr in *. injection Hr' as <-.
  split; [|by split]. split; [by rewrite Hm|].
  unfold lead_identified.
  destruct Hcase as [(-> & _)|(_ & _ & l & x & -> & Hid & _)]; done.
Qed.

(** what [update_context] does to the work left: nothing, or the one
    replanning *)
Definition consolidates (s : state) (evs : list (event node)) (r : res state)
  : Prop :=
  exists s',
    r = Ok s' /\ kept s s' /\
    ((length (pending_actions (context s'))
      = length (pending_actions (context s)) /\
      replanned (context s') = replanned (context s))
     \/ (pending_actions (context s) = [] /\ replanned (context s) = false /\
         (replanned (context s') = true \/
          pending_actions (context s') = []))).

Lemma update_context_consolidates s :
  spec (update_context W py_str json_loads literal_eval PLAN_SYSTEM_PROMPT
          plan_llm db_select s) (consolidates s).
Proof.
  eapply spec_conseq.
  { apply (update_context_from_scan W py_str json_loads literal_eval
             PLAN_SYSTEM_PROMPT plan_llm db_select s
             (fun a => scan_steps py_str literal_eval (rev (messages s))
                         (start py_str s) a)).
    eapply spec_conseq; [apply scan_messages_all|].
    intros evs r (-> & a & -> & H & _). split; [done|]. by exists a. }
  intros evs r (a & Hsteps & s' & -> & Hm & _ & _ & _ & _ & Hl & Hq).
  exists s'. split; [done|].
  pose proof (scan_steps_appended _ _ _ _ _ Hsteps) as Happ.
  destruct (appended_fields _ _ Happ) as (Hp & _ & _ & Hrp & _).
  simpl in Hp, Hrp.
  pose proof (scan_steps_lead py_str literal_eval _ (start py_str s) a
                eq_refl Hsteps) as Hlead.
  split.
  - split; [by rewrite Hm|]. unfold lead_identified.
    destruct Hlead as [[El _]|(l & El & Hid & _)]; rewrite El in Hl.
    + destruct Hl as [->|(l & -> & Hid)]; done.
    + by rewrite Hl.
  - destruct Hq as [(_ & Hr' & Hq)|(_ & Hq & Hr' & Hres)].
    + left. split; [|by rewrite Hr', Hrp].
      destruct Hq as [->|(l & _ & ->)]; [by rewrite Hp|].
      by rewrite length_map, Hp.
    + right. rewrite <- Hp, <- Hrp. by repeat split.
Qed.

(** one step of the graph keeps the messages and the lead's identifier *)
Lemma step_keeps n s :
  spec (step_ n s)
       (fun evs r => match r with Ok (n', s') => kept s s' | Raise => True end).
Proof.
  assert (Hvia : forall (m : M W node state) (n' : node),
            spec m (keeps s) ->
            spec (let* s' := m in ret (n', s'))%eff
                 (fun evs r =>
                    match r with
                    | Ok (_, s') => kept s s'
                    | Raise => True
                    end)).
  { intros m n' Hm. apply spec_bind. eapply spec_conseq; [exact Hm|].
    intros evs r Hr. destruct r as [s'|]; [|done]. by apply spec_ret. }
  assert (Hwork : forall (m : M W node state),
            spec m (keeps_work s) -> spec m (keeps s)).
  { intros m Hm. eapply spec_conseq; [exact Hm|].
    intros evs r Hr. destruct r; [apply Hr|done]. }
  assert (Hans : forall (m : M W node state),
            spec m (answers s) -> spec m (keeps s)).
  { intros m Hm. eapply spec_conseq; [exact Hm|].
    intros evs r [_ Hr]. destruct r; [|done]. by apply answered_kept. }
  destruct n; simpl.
  - apply Hvia, Hwork, parse_and_classify_keeps.
  - apply Hvia, prepare_plan_keeps.
  - apply spec_ret. apply router_node_keeps.
  - apply Hvia, Hwork, resolve_lead_keeps.
  - apply Hvia, Hans, run_leads_agent_answers.
  - apply Hvia, Hans, handle_notes_answers.
  - apply Hvia, Hans, handle_tasks_answers.
  - apply Hvia, Hans, run_proposals_agent_answers.
  - apply spec_bind. eapply spec_conseq; [apply update_context_consolidates|].
    intros evs r (s' & -> & Hk & _). by apply spec_ret.
  - apply spec_ret. apply execute_pending_keeps.
  - apply Hvia, respond_final_keeps.
  - apply spec_ret. apply kept_refl.
Qed.

Lemma run_keeps fuel : forall n s,
  spec (run_ fuel n s)
       (fun evs r => match r with Ok (n', s') => kept s s' | Raise => True end).
Proof.
  induction fuel as [|fuel IH]; intros n s.
  - simpl. apply spec_ret. apply kept_refl.
  - destruct (GraphFacts.node_is_END n) as [->|Hend].
    { simpl. apply spec_ret. apply kept_refl. }
    assert (Hrun : run_ (S fuel) n s
                   = (let* _ := emit (EvNode n) in
                      let* '(n', s') := step_ n s in run_ fuel n' s')%eff)
      by (by destruct n).
    rewrite Hrun. apply spec_bind, spec_emit. apply spec_bind.
    eapply spec_conseq; [apply step_keeps|].
    intros evs r Hr. destruct r as [[n' s']|]; [|done].
    eapply spec_conseq; [apply IH|].
    intros evs2 r2 H2. destruct r2 as [[n2 s2]|]; [|done].
    by eapply kept_trans.
Qed.

(** X16 -- over any run of the graph, whatever the collaborators answer,
    no message of the state is removed or rewritten, only appended after,
    and a lead that has an identifier is only ever replaced by a lead that
    has one. *)
Theorem turn_keeps_history (fuel : nat) (n : node) (s : state)
    (e : env W node) :
  match fst (run_ fuel n s e) with
  | Ok (n', s') =>
      messages s `prefix_of` messages s' /\
      (lead_identified s -> lead_identified s')
  | Raise => True
  end.
Proof.
  destruct (run_keeps fuel n s e) as (evs & _ & H).
  destruct (fst _) as [[n' s']|]; [exact H|done].
Qed.

(** the run is over: the graph is at [END], or a node raised *)
Definition finished (r : res (node * state)) : Prop :=
  match r with Ok (n, _) => n = END | Raise => True end.

(** from node [n] and state [s], the run ends whatever the world does *)
Definition halts (n : node) (s : state) : Prop :=
  forall e, exists fuel, finished (fst (run_ fuel n s e)).

Definition halts_after (evs : list (event node)) (r : res (node * state))
  : Prop :=
  match r with Ok (n', s') => halts n' s' | Raise => True end.

Lemma halts_END s : halts END s.
Proof. intros e. by exists 0. Qed.

Lemma halts_step n s : spec (step_ n s) halts_after -> halts n s.
Proof.
  intros Hstep e.
  destruct (GraphFacts.node_is_END n) as [->|Hend]; [by exists 0|].
  set (e1 := Env (world e) (log e ++ [EvNode n])).
  destruct (Hstep e1) as (evs & _ & Hnext).
  assert (Hrun : forall fuel,
            run_ (S fuel) n s e
            = bind (step_ n s) (fun '(n', s') => run_ fuel n' s') e1).
  { intros fuel. by destruct n. }
  unfold bind in Hrun.
  destruct (step_ n s e1) as [[[n' s']|] e2] eqn:E; simpl in Hnext.
  - destruct (Hnext e2) as [fuel Hf]. exists (S fuel). by rewrite Hrun.
  - exists 1. by rewrite Hrun.
Qed.

(** a node followed by a fixed edge *)
Lemma halts_via (m : M W node state) (n' : node) (Q : state -> Prop) :
  spec m (fun evs r => match r with Ok s' => Q s' | Raise => True end) ->
  (forall s', Q s' -> halts n' s') ->
  spec (let* s' := m in ret (n', s'))%eff halts_after.
Proof.
  intros Hm Hn. apply spec_bind. eapply spec_conseq; [exact Hm|].
  intros evs r Hr. destruct r as [s'|]; [|done]. apply spec_ret.
  by apply Hn.
Qed.

Lemma halts_respond_final s : halts respond_final_node s.
Proof.
  apply halts_step. simpl.
  apply (halts_via _ END (fun _ => True)); [|intros; apply halts_END].
  intros e. exists (skipn (length (log e)) (log (snd (respond_final W py_str
    FINALIZER_SYSTEM_PROMPT finalizer_model tool_invoke s e)))).
  destruct (respond_final_keeps s e) as (evs & Hlog & _).
  rewrite Hlog, drop_app_length. split; [done|]. by destruct (fst _).
Qed.

(** the work left: whether a replanning took place, and the length of the
    queue *)
Definition work (s : state) (r : bool) (k : nat) : Prop :=
  replanned (context s) = r /\ length (pending_actions (context s)) = k.

(** with this much work left, the run ends from [update_context] *)
Definition ends_from (r : bool) (k : nat) : Prop :=
  forall s, work s r k -> halts update_context_node s.

Lemma work_same s s' r k : same_work s s' -> work s r k -> work s' r k.
Proof. intros [Hp Hr] [H1 H2]. split; [by rewrite Hr|by rewrite Hp]. Qed.

Lemma halts_handler (m : M W node state) s r k :
  ends_from r k -> work s r k -> spec m (answers s) ->
  spec (let* s' := m in ret (update_context_node, s'))%eff halts_after.
Proof.
  intros Hends Hw Hm.
  apply (halts_via _ _ (fun s' => work s' r k)); [|done].
  eapply spec_conseq; [exact Hm|]. intros evs x [_ Hx].
  destruct x as [s'|]; [|done].
  apply answered_kept in Hx as [_ Hx]. by eapply work_same.
Qed.

(** after the router: a handler, or the final answer *)
Lemma halts_routed s r k :
  ends_from r k -> work s r k ->
  route_intent s <> resolve_lead_node -> halts (route_intent s) s.
Proof.
  intros Hends Hw Hroute. unfold route_intent in *.
  destruct (need_lead_resolution (context s)); [done|].
  repeat case_match; try apply halts_respond_final; apply halts_step; simpl.
  - eapply halts_handler; eauto using run_leads_agent_answers.
  - eapply halts_handler; eauto using handle_notes_answers.
  - eapply halts_handler; eauto using handle_tasks_answers.
  - eapply halts_handler; eauto using run_proposals_agent_answers.
Qed.

Lemma halts_router_closed s r k :
  ends_from r k -> work s r k -> GraphFacts.resolution_closed s ->
  halts router s.
Proof.
  intros Hends Hw [Ha Hn]. apply halts_step. simpl. apply spec_ret. simpl.
  destruct (router_node_keeps s) as [_ Hsame].
  apply (halts_routed _ r k); [done|by eapply work_same|].
  apply GraphFacts.route_intent_closed.
  destruct (need_lead_resolution (context (router_node py_str s))) eqn:E;
    [|done].
  apply (router_node_need py_str s Ha) in E. congruence.
Qed.

Lemma halts_resolve s r k :
  ends_from r k -> work s r k -> halts resolve_lead_node s.
Proof.
  intros Hends Hw. apply halts_step. simpl.
  apply (halts_via _ _ (fun s' => work s' r k /\
                                  GraphFacts.resolution_closed s')).
  - eapply spec_conseq; [apply resolve_lead_spec|].
    intros evs x (_ & s' & -> & Ha & Hn & Hr & _ & Hp).
    split; [|by split]. eapply work_same; [|exact Hw]. by split.
  - intros s' [Hw' Hc]. by eapply halts_router_closed.
Qed.

Lemma halts_router s r k : ends_from r k -> work s r k -> halts router s.
Proof.
  intros Hends Hw. apply halts_step. simpl. apply spec_ret. simpl.
  destruct (router_node_keeps s) as [_ Hsame].
  assert (Hw' : work (router_node py_str s) r k) by (by eapply work_same).
  destruct (GraphFacts.node_is_END (route_intent (router_node py_str s)))
    as [->|_]; [apply halts_END|].
  assert (Hcase : route_intent (router_node py_str s) = resolve_lead_node \/
                  route_intent (router_node py_str s) <> resolve_lead_node).
  { destruct (route_intent (router_node py_str s));
      (by left) || (by right). }
  destruct Hcase as [->|Hne]; [by eapply halts_resolve|].
  by eapply halts_routed.
Qed.

Lemma halts_execute s r k :
  ends_from r k -> work s r (S k) -> halts execute_pending_node s.
Proof.
  intros Hends [Hr Hk]. apply halts_step. simpl. apply spec_ret. simpl.
  apply (halts_router _ r k); [done|].
  unfold execute_pending, ensure_context.
  destruct (pending_actions (context s)) as [|a q] eqn:Hq; [done|].
  simpl in Hk. split; [done|simpl; lia].
Qed.

(** after [update_context]: the next action, or the final answer *)
Lemma halts_after_update s' :
  (forall k, length (pending_actions (context s')) = S k ->
             ends_from (replanned (context s')) k) ->
  halts (if has_pending s' then execute_pending_node else respond_final_node)
        s'.
Proof.
  intros Hends. unfold has_pending.
  destruct (pending_actions (context s')) as [|a q] eqn:Hq;
    [apply halts_respond_final|].
  apply (halts_execute _ (replanned (context s')) (length q)).
  - by apply Hends.
  - split; [done|]. by rewrite Hq.
Qed.

Lemma ends_after_replanning k : ends_from true k.
Proof.
  induction k as [k IH] using lt_wf_ind. intros s [Hr Hk].
  apply halts_step. simpl. apply spec_bind.
  eapply spec_conseq; [apply update_context_consolidates|].
  intros evs x (s' & -> & _ & Hcase). apply spec_ret. simpl.
  destruct Hcase as [[Hlen Hrp]|(_ & Hfalse & _)]; [|congruence].
  apply halts_after_update. intros k' Hk'. rewrite Hrp, Hr.
  apply IH. lia.
Qed.

Lemma ends_before_replanning k : ends_from false k.
Proof.
  induction k as [k IH] using lt_wf_ind. intros s [Hr Hk].
  apply halts_step. simpl. apply spec_bind.
  eapply spec_conseq; [apply update_context_consolidates|].
  intros evs x (s' & -> & _ & Hcase). apply spec_ret. simpl.
  apply halts_after_update. intros k' Hk'.
  destruct (replanned (context s')) eqn:Hr'; [apply ends_after_replanning|].
  destruct Hcase as [[Hlen Hrp]|(_ & _ & [?|Hq])]; [|congruence|].
  - apply IH. lia.
  - rewrite Hq in Hk'. done.
Qed.

Lemma ends_always r k : ends_from r k.
Proof. destruct r; [apply ends_after_replanning|apply ends_before_replanning]. Qed.

Lemma halts_everywhere n s : halts n s.
Proof.
  assert (Hw : forall s0, work s0 (replanned (context s0))
                               (length (pending_actions (context s0))))
    by (by split).
  assert (Hrouter : forall s0, halts router s0).
  { intros s0. eapply halts_router; [apply ends_always|apply Hw]. }
  assert (Hupdate : forall s0, halts update_context_node s0).
  { intros s0. by eapply ends_always. }
  assert (Hvia : forall (m : M W node state) (n' : node),
            (forall s', halts n' s') ->
            spec m (fun _ _ => True) ->
            spec (let* s' := m in ret (n', s'))%eff halts_after).
  { intros m n' Hn Hm. apply (halts_via _ _ (fun _ => True)); [|auto].
    eapply spec_conseq; [exact Hm|]. intros ? r _. by destruct r. }
  assert (Hany : forall (m : M W node state) Q, spec m Q ->
                                             spec m (fun _ _ => True)).
  { intros m Q Hm. eapply spec_conseq; [exact Hm|]. done. }
  assert (Hprepare : forall s0, halts prepare_plan_node s0).
  { intros s0. apply halts_step. simpl.
    apply Hvia; [done|]. eapply Hany, prepare_plan_keeps. }
  destruct n.
  - apply halts_step. simpl. apply Hvia; [done|].
    eapply Hany, parse_and_classify_keeps.
  - apply Hprepare.
  - apply Hrouter.
  - eapply halts_resolve; [apply ends_always|apply Hw].
  - apply halts_step. simpl. apply Hvia; [done|].
    eapply Hany, run_leads_agent_answers.
  - apply halts_step. simpl. apply Hvia; [done|].
    eapply Hany, handle_notes_answers.
  - apply halts_step. simpl. apply Hvia; [done|].
    eapply Hany, handle_tasks_answers.
  - apply halts_step. simpl. apply Hvia; [done|].
    eapply Hany, run_proposals_agent_answers.
  - apply Hupdate.
  - apply halts_step. simpl. apply spec_ret. simpl. apply Hrouter.
  - apply halts_respond_final.
  - apply halts_END.
Qed.

(** X17 -- every turn ends.  Whatever the classifier, the planner, the
    database, the tools, the agents and the finalizer answer, and from any
    state, there is a number of steps after which the graph has reached
    [END] or a node has raised: the resolver runs at most once, each pass
    through [execute_pending] shortens the queue, and the queue is refilled
    by one replanning at most. *)
Theorem turn_terminates (s : state) (e : env W node) :
  exists fuel,
    match fst (turn_ fuel s e) with
    | Ok (n, _) => n = END
    | Raise => True
    end.
Proof. exact (halts_everywhere parse_and_classify_node s e). Qed.

End Turn.
End TurnFacts.

(** ** The order of the nodes in a turn *)

Module OrderFacts.
Import PyStr Py Eff EffFacts Tools State Queue Helpers Workflow DictFacts
  NodeFacts FrameFacts.

Definition is_first_plan (ev : event node) : bool :=
  match ev with EvPlanner InitialPlan => true | _ => false end.

Definition count (p : event node -> bool) (evs : list (event node)) : nat :=
  length (List.filter p evs).

Lemma count_app p l1 l2 : count p (l1 ++ l2) = count p l1 + count p l2.
Proof. unfold count. by rewrite List.filter_app, length_app. Qed.

(** the nodes from which [prepare_plan] is still ahead *)
Definition before_plan (n : node) : bool :=
  match n with
  | parse_and_classify_node | prepare_plan_node => true
  | _ => false
  end.

(** the nodes the log names, in order *)
Definition nodes_of (evs : list (event node)) : list node :=
  omap (fun ev => match ev with EvNode n => Some n | _ => None end) evs.

(** the nodes between planning and the final answer *)
Definition is_middle (n : node) : bool :=
  match n with
  | router | resolve_lead_node | leads_agent | handle_notes_node
  | handle_tasks_node | proposals_agent | update_context_node
  | execute_pending_node => true
  | _ => false
  end.

(** the path of a run from [n] that passes [middle] on its way *)
Definition path_from (n : node) (middle : list node) : list node :=
  match n with
  | parse_and_classify_node =>
      [parse_and_classify_node; prepare_plan_node] ++ middle
        ++ [respond_final_node]
  | prepare_plan_node => [prepare_plan_node] ++ middle ++ [respond_final_node]
  | END => []
  | _ => middle ++ [respond_final_node]
  end.

Section Order.
Variable W : Type.
Variable py_str : value -> string.
Variable json_loads : text -> option value.
Variable literal_eval : text -> option value.
Variables PARSER_SYSTEM_PROMPT PLAN_SYSTEM_PROMPT FINALIZER_SYSTEM_PROMPT : text.
Variable parser_llm : W -> list message -> res (string * list text) * W.
Variable plan_llm : W -> list message -> res (list plan_action) * W.
Variable finalizer_model : W -> list message -> res message * W.
Variable leads_agent_graph : W -> state -> res (list message) * W.
Variable proposals_agent_graph : W -> state -> res (list message) * W.
Variable db_select : W -> query -> res (list lead_row) * W.
Variable tool_invoke : W -> tool_name -> dict -> res tool_result * W.
Variable today_iso : W -> text.
Variable tomorrow_iso : W -> text.

#[local] Abbreviation step_ :=
  (step W py_str json_loads literal_eval PARSER_SYSTEM_PROMPT PLAN_SYSTEM_PROMPT
     FINALIZER_SYSTEM_PROMPT parser_llm plan_llm finalizer_model
     leads_agent_graph proposals_agent_graph db_select tool_invoke today_iso
     tomorrow_iso).
#[local] Abbreviation run_ :=
  (run W py_str json_loads literal_eval PARSER_SYSTEM_PROMPT PLAN_SYSTEM_PROMPT
     FINALIZER_SYSTEM_PROMPT parser_llm plan_llm finalizer_model
     leads_agent_graph proposals_agent_graph db_select tool_invoke today_iso
     tomorrow_iso).
#[local] Abbreviation turn_ :=
  (turn W py_str json_loads literal_eval PARSER_SYSTEM_PROMPT PLAN_SYSTEM_PROMPT
     FINALIZER_SYSTEM_PROMPT parser_llm plan_llm finalizer_model
     leads_agent_graph proposals_agent_graph db_select tool_invoke today_iso
     tomorrow_iso).

(** the edges of the graph and the events of one step *)
Definition edge_ok (n : node) (evs : list (event node))
    (r : res (node * state)) : Prop :=
  (evs = [] \/
   (evs = [EvPlanner InitialPlan] /\ n = prepare_plan_node) \/
   (evs = [EvPlanner Replan] /\ n = update_context_node)) /\
  match r with
  | Raise => True
  | Ok (n', _) =>
      match n with
      | parse_and_classify_node => n' = prepare_plan_node
      | prepare_plan_node => n' = router
      | router =>
          n' = resolve_lead_node \/ n' = leads_agent \/
          n' = handle_notes_node \/ n' = handle_tasks_node \/
          n' = proposals_agent \/ n' = respond_final_node
      | resolve_lead_node => n' = router
      | leads_agent | handle_notes_node | handle_tasks_node
      | proposals_agent => n' = update_context_node
      | update_context_node =>
          n' = execute_pending_node \/ n' = respond_final_node
      | execute_pending_node => n' = router
      | respond_final_node | END => n' = END
      end
  end.

Lemma step_edges n s : spec (step_ n s) (edge_ok n).
Proof.
  assert (Hvia : forall (m : M W node state) (n' : node) (P : node -> Prop),
            spec m (fun evs _ => evs = []) -> P n' ->
            spec (let* s' := m in ret (n', s'))%eff
                 (fun evs r =>
                    (evs = [] \/
                     (evs = [EvPlanner InitialPlan] /\ n = prepare_plan_node) \/
                     (evs = [EvPlanner Replan] /\ n = update_context_node)) /\
                    match r with
                    | Raise => True
                    | Ok (n'', _) => P n''
                    end)).
  { intros m n' P Hm HP. apply spec_bind. eapply spec_conseq; [exact Hm|].
    intros evs r ->. destruct r; [apply spec_ret|]; split; auto. }
  assert (Hans : forall (m : M W node state),
            spec m (answers s) -> spec m (fun evs _ => evs = [])).
  { intros m Hm. eapply spec_conseq; [exact Hm|]. by intros ? ? [-> _]. }
  assert (Happ : forall (m : M W node state),
            spec m (only_appends s) -> spec m (fun evs _ => evs = [])).
  { intros m Hm. eapply spec_conseq; [exact Hm|]. by intros ? ? [-> _]. }
  destruct n; simpl.
  - apply (Hvia _ _ (fun n' => n' = prepare_plan_node)); [|done].
    apply Happ, parse_and_classify_spec.
  - apply spec_bind. eapply spec_conseq; [apply prepare_plan_spec|].
    intros evs r (-> & s' & -> & _). apply spec_ret. split; [|done].
    right. left. by split.
  - apply spec_ret. split; [by left|]. unfold route_intent.
    repeat case_match; tauto.
  - apply (Hvia _ _ (fun n' => n' = router)); [|done].
    eapply spec_conseq; [apply resolve_lead_spec|]. by intros ? ? [-> _].
  - apply (Hvia _ _ (fun n' => n' = update_context_node)); [|done].
    apply Hans, run_leads_agent_answers.
  - apply (Hvia _ _ (fun n' => n' = update_context_node)); [|done].
    apply Hans, handle_notes_answers.
  - apply (Hvia _ _ (fun n' => n' = update_context_node)); [|done].
    apply Hans, handle_tasks_answers.
  - apply (Hvia _ _ (fun n' => n' = update_context_node)); [|done].
    apply Hans, run_proposals_agent_answers.
  - apply spec_bind. eapply spec_conseq; [apply update_context_spec|].
    intros evs r (s' & -> & _ & _ & _ & Hcase). apply spec_ret.
    rewrite app_nil_r. split.
    + destruct Hcase as [(-> & _)|(-> & _)]; [by left|right; right; by split].
    + destruct (has_pending s'); tauto.
  - apply spec_ret. split; [by left|done].
  - apply (Hvia _ _ (fun n' => n' = END)); [|done].
    eapply spec_conseq; [apply respond_final_guards|]. by intros ? ? [-> _].
  - apply spec_ret. split; [by left|done].
Qed.

Lemma nodes_of_app (l1 l2 : list (event node)) :
  nodes_of (l1 ++ l2) = nodes_of l1 ++ nodes_of l2.
Proof. unfold nodes_of. apply omap_app. Qed.

Lemma run_from_END fuel s : run_ fuel END s = ret (END, s).
Proof. by destruct fuel. Qed.

Lemma run_unfold fuel n s :
  n <> END ->
  run_ (S fuel) n s
  = (let* _ := emit (EvNode n) in
     let* '(n', s') := step_ n s in run_ fuel n' s')%eff.
Proof. by destruct n. Qed.

Ltac shape Hall :=
  split; [try done; by constructor|];
  split; [by intros [?|?]|];
  split; [by apply prefix_cons
         |let s2 := fresh "s" in let E := fresh "E" in
          intros s2 E; simpl; f_equal; by apply (Hall s2)].

Lemma run_order fuel : forall n s,
  spec (run_ fuel n s)
       (fun evs r =>
          (before_plan n = false -> count is_first_plan evs = 0) /\
          count is_first_plan evs <= 1 /\
          exists middle,
            Forall (fun m => is_middle m = true) middle /\
            (n = respond_final_node \/ n = END -> middle = []) /\
            nodes_of evs `prefix_of` path_from n middle /\
            (forall s', r = Ok (END, s') -> nodes_of evs = path_from n middle)).
Proof.
  induction fuel as [|fuel IH]; intros n s.
  - simpl. apply spec_ret. split; [done|]. split; [unfold count; simpl; lia|].
    exists []. repeat split; try done.
    + apply prefix_nil.
    + intros s' [= -> _]. done.
  - destruct (GraphFacts.node_is_END n) as [->|Hend].
    { rewrite run_from_END. apply spec_ret. split; [done|].
      split; [unfold count; simpl; lia|]. exists []. repeat split; try done. }
    rewrite (run_unfold _ _ _ Hend). apply spec_bind, spec_emit.
    apply spec_bind. eapply spec_conseq; [apply step_edges|].
    intros evs1 r1 [Hev Hr1].
    assert (Hn1 : nodes_of evs1 = [])
      by (destruct Hev as [->|[[-> _]|[-> _]]]; done).
    assert (Hc1 : count is_first_plan evs1 <= 1 /\
                  (before_plan n = false -> count is_first_plan evs1 = 0)).
    { destruct Hev as [->|[[-> ->]|[-> _]]]; (split; [unfold count; simpl; lia|done]). }
    destruct r1 as [[n' s']|].
    + eapply spec_conseq; [apply (IH n' s')|].
      intros evs2 r2 (Hz & Hle & middle & Hmid & Hlast & Hpre & Hall).
      cbv beta.
      assert (Hz' : n <> parse_and_classify_node -> count is_first_plan evs2 = 0).
      { intros Hn. apply Hz. destruct n; simpl in Hr1; try done;
          repeat (destruct Hr1 as [->|Hr1]; try done); by subst. }
      assert (Hcnt : count is_first_plan ([EvNode n] ++ evs1 ++ evs2)
                     = count is_first_plan evs1 + count is_first_plan evs2).
      { by rewrite !count_app. }
      rewrite Hcnt. split; [|split].
      * intros Hb. destruct Hc1 as [_ Hc1]. rewrite (Hc1 Hb), Hz'; [done|].
        by destruct n.
      * destruct Hc1 as [Hc1 Hc1']. destruct (before_plan n) eqn:Hb.
        -- destruct n; try done.
           ++ assert (Hz1 : count is_first_plan evs1 = 0)
                by (destruct Hev as [->|[[_ ?]|[_ ?]]]; done).
              lia.
           ++ rewrite Hz'; [lia|done].
        -- rewrite Hc1'; [lia|done].
      * rewrite !nodes_of_app, Hn1. simpl.
        destruct n; simpl in Hr1; try done.
        -- subst n'. exists middle. shape Hall.
        -- subst n'. exists middle. shape Hall.
        -- exists (router :: middle).
           assert (Hp : path_from n' middle = middle ++ [respond_final_node]).
           { repeat (destruct Hr1 as [->|Hr1]; try done). by subst. }
           rewrite Hp in *. shape Hall.
        -- subst n'. exists (resolve_lead_node :: middle). shape Hall.
        -- subst n'. exists (leads_agent :: middle). shape Hall.
        -- subst n'. exists (handle_notes_node :: middle). shape Hall.
        -- subst n'. exists (handle_tasks_node :: middle). shape Hall.
        -- subst n'. exists (proposals_agent :: middle). shape Hall.
        -- exists (update_context_node :: middle).
           assert (Hp : path_from n' middle = middle ++ [respond_final_node]).
           { repeat (destruct Hr1 as [->|Hr1]; try done). by subst. }
           rewrite Hp in *. shape Hall.
        -- subst n'. exists (execute_pending_node :: middle). shape Hall.
        -- subst n'. rewrite (Hlast (or_intror eq_refl)) in *.
           exists []. shape Hall.
    + destruct Hc1 as [Hc1 Hc1']. split; [|split].
      * intros Hb. rewrite !count_app. simpl.
        rewrite Hc1'; done.
      * rewrite !count_app. simpl. exact Hc1.
      * rewrite !nodes_of_app, Hn1. simpl.
        assert (Hone : forall (x : node) l, [x] `prefix_of` x :: l)
          by (intros x l; apply prefix_cons, prefix_nil).
        destruct n; try done; simpl.
        1, 2, 11: exists []; split; [done|]; split; [done|];
          split; [apply Hone|done].
        all: match goal with
             | |- context [[?m] `prefix_of` _] =>
                 exists [m]; split; [by repeat constructor|];
                 split; [by intros [?|?]|]; split; [apply Hone|done]
             end.
Qed.

(** X18 -- the nodes of a turn, in the order they run, are the classifier,
    the planner, then routing, resolution, handler, consolidation and
    executor nodes, and the final answer last; a turn cut short by a failure
    or by the budget runs a prefix of that, and a turn that reaches the end
    runs all of it. The planner's first call is made at most once. *)
Theorem turn_order (fuel : nat) (s : state) (e : env W node) :
  exists evs middle,
    log (snd (turn_ fuel s e)) = log e ++ evs /\
    Forall (fun m => is_middle m = true) middle /\
    nodes_of evs `prefix_of`
      [parse_and_classify_node; prepare_plan_node] ++ middle
        ++ [respond_final_node] /\
    (forall s', fst (turn_ fuel s e) = Ok (END, s') ->
       nodes_of evs
       = [parse_and_classify_node; prepare_plan_node] ++ middle
           ++ [respond_final_node]) /\
    count is_first_plan evs <= 1.
Proof.
  destruct (run_order fuel parse_and_classify_node s e)
    as (evs & Hlog & _ & Hle & middle & Hmid & _ & Hpre & Hall).
  exists evs, middle. repeat split; try done.
Qed.

End Order.
End OrderFacts.

(** ** The tools that write: what reaches the database *)

Module CrmFacts.
Import PyStr Re Py Eff EffFacts Tools Crm.

(** the number of [%s] in the text of a statement *)
Fixpoint placeholders (t : text) : nat :=
  match t with
  | [] => 0
  | c :: t' =>
      match t' with
      | d :: _ =>
          if (is_char "%" c && is_char "s" d)%bool then S (placeholders t')
          else placeholders t'
      | [] => 0
      end
  end.

(** a statement with one parameter for each [%s] *)
Definition well_formed (q : statement) : Prop :=
  placeholders (sql q) = length (params q).

(** an exchange with the database: a statement and what came back *)
Definition exchange : Type := statement * res (list row).

(** the result is no success *)
Definition refused (r : res tool_result) : Prop :=
  match r with
  | Ok (ToolOk _ _) => False
  | _ => True
  end.

(** the row [create_lead] inserts *)
Definition lead_insert (a : new_lead) : statement :=
  Statement insert_lead
    [ PText (n_nome a); opt_param (n_email a); opt_param (n_telefone a);
      opt_param (n_empresa a); opt_param (n_origem a);
      PText (n_status_codigo a) ].

(** the lookups before a lead is inserted, each with the answer that lets
    the insertion go on: the status code exists, and no lead has the e-mail
    address or the telephone number, where one is given *)
Definition passed (a : new_lead) (checks : list exchange) : Prop :=
  exists st_row st_rows,
    checks =
      [ (Statement status_check [PText (n_status_codigo a)],
         Ok (st_row :: st_rows)) ]
      ++ (if given (n_email a)
          then [ (Statement email_check [opt_param (n_email a)], Ok []) ]
          else [])
      ++ (if given (n_telefone a)
          then [ (Statement phone_check
                    [PText (normalize_phone
                              (match n_telefone a with
                               | Some t => t
                               | None => []
                               end))],
                  Ok []) ]
          else []).

(** a statement that changes rows *)
Definition is_update (q : statement) : bool :=
  startswith (of_string "update ") (sql q).

(** the statement [update_lead] sends for its changes *)
Definition lead_update (lead_id : text) (u : lead_changes) : statement :=
  update_statement (fst (update_sets u) ++ [of_string "atualizado_em=now()"])
                   (snd (update_sets u)) lead_id.

(** the lookup of the status code before a lead is updated, with the answer
    that lets the update go on *)
Definition confirmed (u : lead_changes) (checks : list exchange) : Prop :=
  match c_status_codigo u with
  | Some st =>
      exists st_row st_rows,
        checks = [ (Statement status_check [PText st], Ok (st_row :: st_rows)) ]
  | None => checks = []
  end.

(** what [update_lead] and [complete_task] return after their update *)
Definition updated (ans : res (list row)) (missing : text) (done_ : tool_result)
    (r : res tool_result) : Prop :=
  match ans with
  | Ok [] => r = Ok (ToolError missing [])
  | Ok (_ :: _) => r = Ok done_
  | Raise => r = Raise
  end.

(** what [add_note_to_lead] and [create_task] return after their insert *)
Definition written (ans : res (list row)) (message : text) (key : string)
    (lead_id : value) (r : res tool_result) : Prop :=
  match ans with
  | Ok ((id :: _) :: _) =>
      r = Ok (ToolOk message [ (key, id); ("lead_id", lead_id) ])
  | _ => r = Raise
  end.

Section Recorded.
Variable N : Type.
(** any database: what it answers may depend on all that went before *)
Variable answer : list exchange -> statement -> res (list row).
Variable lookup : list exchange -> query -> res (list lead_row).
Variable isoformat : value -> option value.

(** the world that keeps every exchange *)
Definition recorded_execute (h : list exchange) (q : statement)
  : res (list row) * list exchange :=
  (answer h q, h ++ [(q, answer h q)]).

(** a lookup and the rows it fetched, column by column *)
Definition looked_up (h : list exchange) (q : query) : exchange :=
  (query_statement q,
   match lookup h q with
   | Ok rows => Ok (map (selected q) rows)
   | Raise => Raise
   end).

Definition recorded_select (h : list exchange) (q : query)
  : res (list lead_row) * list exchange :=
  (lookup h q, h ++ [looked_up h q]).

(** what [resolve_lead_id_by_ref] exchanges with the database *)
Definition asked (ref : text) (h : list exchange) : list exchange :=
  match lookup_query ref with
  | Some q => [looked_up h q]
  | None => []
  end.

#[local] Abbreviation M := (Eff.M (list exchange) N).
#[local] Abbreviation execute_ := (execute (list exchange) N recorded_execute).
#[local] Abbreviation lookup_ :=
  (resolve_lead_id_by_ref (list exchange) N recorded_select).
#[local] Abbreviation create_lead_ :=
  (create_lead (list exchange) N recorded_execute).
#[local] Abbreviation update_lead_ :=
  (update_lead (list exchange) N recorded_execute).
#[local] Abbreviation add_note_to_lead_ :=
  (add_note_to_lead (list exchange) N recorded_select recorded_execute).
#[local] Abbreviation create_task_ :=
  (create_task (list exchange) N recorded_select recorded_execute).
#[local] Abbreviation complete_task_ :=
  (complete_task (list exchange) N recorded_execute).
#[local] Abbreviation list_tasks_ :=
  (list_tasks (list exchange) N recorded_select recorded_execute isoformat).

(** every statement [m] sends satisfies [P] *)
Definition all_sent {A} (P : statement -> Prop) (m : M A) : Prop :=
  forall e, exists new,
    world (snd (m e)) = world e ++ new /\ Forall (fun x => P (fst x)) new.

Lemma all_sent_ret {A} P (a : A) : all_sent P (ret a).
Proof. intros e. exists []. simpl. by rewrite app_nil_r. Qed.

Lemma all_sent_raise {A} P : all_sent P (raise : M A).
Proof. intros e. exists []. simpl. by rewrite app_nil_r. Qed.

Lemma all_sent_bind {A B} P (m : M A) (k : A -> M B) :
  all_sent P m -> (forall a, all_sent P (k a)) -> all_sent P (bind m k).
Proof.
  intros Hm Hk e. destruct (Hm e) as (new1 & H1 & F1). unfold bind.
  destruct (m e) as [[a|] e1]; simpl in *.
  - destruct (Hk a e1) as (new2 & H2 & F2). exists (new1 ++ new2).
    rewrite H2, H1, app_assoc. split; [done|]. by apply Forall_app.
  - by exists new1.
Qed.

Lemma all_sent_execute P q ps :
  P (Statement q ps) -> all_sent P (execute_ q ps).
Proof.
  intros HP e. exists [(Statement q ps, answer (world e) (Statement q ps))].
  split; [done|]. by repeat constructor.
Qed.

Lemma lookup_world ref (e : env (list exchange) N) :
  world (snd (lookup_ ref e)) = world e ++ asked ref (world e).
Proof.
  unfold asked, lookup_query, resolve_lead_id_by_ref, select, bind, call,
    recorded_select.
  destruct e as [h l]. destruct ref as [|c ref]; simpl.
  { by rewrite app_nil_r. }
  repeat (case_match; simplify_eq/=); done.
Qed.

Lemma query_statement_well_formed q : well_formed (query_statement q).
Proof. by destruct q. Qed.

Lemma all_sent_lookup P ref :
  (forall q, P (query_statement q)) -> all_sent P (lookup_ ref).
Proof.
  intros HP e. exists (asked ref (world e)). split; [apply lookup_world|].
  unfold asked. destruct (lookup_query ref) as [q|]; [|constructor].
  apply Forall_singleton. apply HP.
Qed.

Lemma update_statement_well_formed (u : lead_changes) (lead_id : text) :
  well_formed
    (update_statement (fst (update_sets u) ++ [of_string "atualizado_em=now()"])
                      (snd (update_sets u)) lead_id).
Proof.
  destruct u as [[?|] [?|] [?|] [?|] [?|] [?|] [?|]]; reflexivity.
Qed.

Lemma task_filter_well_formed lead_id status limit offset :
  well_formed (tasks_page (where_ (fst (task_filter lead_id status)))
                          (snd (task_filter lead_id status)) limit offset) /\
  well_formed (tasks_count (where_ (fst (task_filter lead_id status)))
                           (snd (task_filter lead_id status))).
Proof.
  unfold task_filter. destruct (found lead_id), (given status); by split.
Qed.

Ltac sent :=
  repeat first
    [ apply all_sent_ret
    | apply all_sent_raise
    | apply all_sent_lookup; apply query_statement_well_formed
    | apply all_sent_execute; try reflexivity
    | apply all_sent_bind; [|intros ?]
    | progress case_match ].

Lemma task_items_sent P rows :
  all_sent P (task_items (list exchange) N isoformat rows).
Proof.
  induction rows as [|r rows IH]; simpl; [apply all_sent_ret|].
  apply all_sent_bind.
  - unfold task_item, iso_or_none. sent.
  - intros item. apply all_sent_bind; [exact IH|]. intros. apply all_sent_ret.
Qed.

(** X19 -- whatever the database answers, every statement that
    [create_lead], [update_lead], [add_note_to_lead], [create_task],
    [complete_task] and [list_tasks] send, the lookup of the lead reference
    by [resolve_lead_id_by_ref] included, has exactly one parameter for each
    of its placeholders, also where the statement is put together from the
    arguments. *)
Theorem statements_match_parameters :
  (forall a, all_sent well_formed (create_lead_ a)) /\
  (forall lead_id u, all_sent well_formed (update_lead_ lead_id u)) /\
  (forall ref texto, all_sent well_formed (add_note_to_lead_ ref texto)) /\
  (forall ref titulo data_limite tipo,
     all_sent well_formed (create_task_ ref titulo data_limite tipo)) /\
  (forall tarefa_id, all_sent well_formed (complete_task_ tarefa_id)) /\
  (forall ref status limit offset,
     all_sent well_formed (list_tasks_ ref status limit offset)).
Proof.
  assert (Htasks : forall lead_id status limit offset,
            all_sent well_formed
              (list_tasks_of (list exchange) N recorded_execute isoformat
                 lead_id status limit offset)).
  { intros lead_id status limit offset. unfold list_tasks_of.
    destruct (task_filter_well_formed lead_id status limit offset)
      as [Hpage Hcount].
    destruct (task_filter lead_id status) as [clauses vals]. simpl in *.
    apply all_sent_bind; [by apply all_sent_execute|]. intros rows.
    apply all_sent_bind; [by apply all_sent_execute|]. intros counted.
    apply all_sent_bind; [unfold first_column; sent|]. intros total.
    apply all_sent_bind; [apply task_items_sent|]. intros items.
    apply all_sent_ret. }
  repeat split.
  - intros a. unfold create_lead, taken, first_column. sent.
  - intros lead_id u. unfold update_lead.
    pose proof (update_statement_well_formed u lead_id) as Hu.
    destruct (update_sets u) as [sets vals]. simpl in Hu.
    destruct (negb (is_uuid lead_id)); [apply all_sent_ret|].
    destruct sets as [|s0 sets]; [apply all_sent_ret|].
    apply all_sent_bind; [sent|]. intros valid.
    destruct valid; [|apply all_sent_ret].
    apply all_sent_bind; [by apply all_sent_execute|]. intros rows. sent.
  - intros ref texto. unfold add_note_to_lead, first_column. sent.
  - intros ref titulo data_limite tipo. unfold create_task, first_column. sent.
  - intros tarefa_id. unfold complete_task. sent.
  - intros ref status limit offset. unfold list_tasks.
    destruct (given ref); [|apply Htasks].
    apply all_sent_bind;
      [apply all_sent_lookup, query_statement_well_formed|].
    intros [lead matches].
    destruct (found lead); [apply Htasks|apply all_sent_ret].
Qed.

(** what [m] sends, and what it returns *)
Definition sends {A} (m : M A) (Q : list exchange -> res A -> Prop) : Prop :=
  forall e, exists new,
    world (snd (m e)) = world e ++ new /\ Q new (fst (m e)).

Lemma sends_ret {A} (a : A) (Q : list exchange -> res A -> Prop) :
  Q [] (Ok a) -> sends (ret a) Q.
Proof. intros HQ e. exists []. simpl. by rewrite app_nil_r. Qed.

Lemma sends_raise {A} (Q : list exchange -> res A -> Prop) :
  Q [] Raise -> sends raise Q.
Proof. intros HQ e. exists []. simpl. by rewrite app_nil_r. Qed.

Lemma sends_conseq {A} (m : M A) (P Q : list exchange -> res A -> Prop) :
  sends m P -> (forall new r, P new r -> Q new r) -> sends m Q.
Proof.
  intros Hm HPQ e. destruct (Hm e) as (new & Hw & HP). exists new. auto.
Qed.

Lemma sends_bind {A B} (m : M A) (k : A -> M B)
    (Q : list exchange -> res B -> Prop) :
  sends m (fun new1 r =>
             match r with
             | Ok a => sends (k a) (fun new2 r2 => Q (new1 ++ new2) r2)
             | Raise => Q new1 Raise
             end) ->
  sends (bind m k) Q.
Proof.
  intros Hm e. destruct (Hm e) as (new1 & H1 & HP). unfold bind.
  destruct (m e) as [[a|] e1]; simpl in *.
  - destruct (HP e1) as (new2 & H2 & HQ). exists (new1 ++ new2).
    by rewrite H2, H1, app_assoc.
  - by exists new1.
Qed.

Lemma sends_execute q ps (Q : list exchange -> res (list row) -> Prop) :
  (forall ans, Q [(Statement q ps, ans)] ans) -> sends (execute_ q ps) Q.
Proof.
  intros HQ e. exists [(Statement q ps, answer (world e) (Statement q ps))].
  split; [done|]. apply HQ.
Qed.

Lemma checks_are_no_insert :
  status_check <> insert_lead /\ email_check <> insert_lead /\
  phone_check <> insert_lead.
Proof. repeat split; discriminate. Qed.

(** the insertion itself *)
Definition inserted (a : new_lead) (ans : res (list row))
    (r : res tool_result) : Prop :=
  match ans with
  | Ok ((lead_id :: _) :: _) =>
      exists data, r = Ok (ToolOk (of_string "Lead criado") data)
                   /\ dget data "lead_id" = lead_id
  | _ => r = Raise
  end.

(** a lookup of [create_lead] that found nothing, when it was made *)
Definition found_none (wanted : bool) (q : text) (p : param) : list exchange :=
  if wanted then [(Statement q [p], Ok [])] else [].

Lemma taken_sends wanted q p (Q : list exchange -> res bool -> Prop) :
  Q (found_none wanted q p) (Ok false) ->
  (wanted = true -> forall row rows,
     Q [(Statement q [p], Ok (row :: rows))] (Ok true)) ->
  (wanted = true -> Q [(Statement q [p], Raise)] Raise) ->
  sends (taken (list exchange) N recorded_execute wanted q p) Q.
Proof.
  intros Hnone Hsome Hraise. unfold taken, found_none in *.
  destruct wanted; [|by apply sends_ret].
  apply sends_bind, sends_execute. intros [[|row rows]|]; auto.
  - apply sends_ret. by rewrite app_nil_r.
  - apply sends_ret. rewrite app_nil_r. by apply Hsome.
Qed.

Lemma found_none_no_insert wanted q p :
  q <> insert_lead ->
  Forall (fun x : exchange => sql (fst x) <> insert_lead) (found_none wanted q p).
Proof.
  intros Hq. unfold found_none. destruct wanted; [|apply Forall_nil_2].
  apply Forall_cons_2; [done|apply Forall_nil_2].
Qed.

Ltac no_insert :=
  rewrite ?app_nil_r;
  repeat first
    [ assumption
    | apply Forall_nil_2
    | apply Forall_app_2
    | apply Forall_cons_2; [simpl; assumption|] ].

Lemma create_lead_sends (a : new_lead) :
  sends (create_lead_ a)
        (fun new r =>
           (Forall (fun x => sql (fst x) <> insert_lead) new /\ refused r)
           \/
           exists checks ans,
             new = checks ++ [(lead_insert a, ans)] /\
             n_nome a <> [] /\ passed a checks /\ inserted a ans r).
Proof.
  destruct checks_are_no_insert as (Hs & He & Hp).
  unfold create_lead.
  destruct (n_nome a) as [|c nome] eqn:En.
  { apply sends_ret. left. by split. }
  apply sends_bind, sends_execute. intros [[|st_row st_rows]|].
  1: apply sends_ret.
  1, 3: left; split; [no_insert|done].
  set (x1 := (Statement status_check [PText (n_status_codigo a)],
              Ok (st_row :: st_rows)) : exchange).
  pose proof (found_none_no_insert (given (n_email a)) email_check
                (opt_param (n_email a)) He) as Hc2.
  set (c2 := found_none (given (n_email a)) email_check
                        (opt_param (n_email a))) in *.
  apply sends_bind, taken_sends.
  2: { intros _ row rows. apply sends_ret. left. split; [no_insert|done]. }
  2: { intros _. left. split; [no_insert|done]. }
  cbv iota.
  set (p3 := PText (normalize_phone
                      (match n_telefone a with Some t => t | None => [] end))).
  pose proof (found_none_no_insert (given (n_telefone a)) phone_check p3 Hp)
    as Hc3.
  set (c3 := found_none (given (n_telefone a)) phone_check p3) in *.
  apply sends_bind, taken_sends.
  2: { intros _ row rows. apply sends_ret. left. split; [no_insert|done]. }
  2: { intros _. left. split; [no_insert|done]. }
  cbv iota.
  apply sends_bind, sends_execute. intros ans.
  match goal with
  | |- context [Statement insert_lead ?ps] =>
      set (ins := Statement insert_lead ps)
  end.
  assert (Hins : ins = lead_insert a)
    by (unfold ins, lead_insert; by rewrite En).
  assert (Hgo : forall r,
            inserted a ans r ->
            (Forall (fun x : exchange => sql (fst x) <> insert_lead)
                    ([x1] ++ c2 ++ c3 ++ [(ins, ans)])
             /\ refused r)
            \/ exists checks ans0,
                 [x1] ++ c2 ++ c3 ++ [(ins, ans)]
                 = checks ++ [(lead_insert a, ans0)]
                 /\ c :: nome <> [] /\ passed a checks /\ inserted a ans0 r).
  { intros r Hr. right. exists ([x1] ++ c2 ++ c3), ans. rewrite Hins.
    split; [by rewrite <- !app_assoc|]. split; [done|]. split; [|done].
    by exists st_row, st_rows. }
  clearbody ins.
  destruct ans as [[|[|v r4] rows4]|].
  - apply sends_raise. rewrite app_nil_r. by apply Hgo.
  - apply sends_raise. rewrite app_nil_r. by apply Hgo.
  - apply sends_bind, sends_ret, sends_ret. rewrite !app_nil_r.
    apply Hgo. simpl. by eexists.
  - by apply Hgo.
Qed.

(** X20 -- whatever the database answers, [create_lead] sends its insert
    at most once and as its last statement, and only for a lead with a name,
    after the database has confirmed the status code and has found no lead
    with the given e-mail address and none with the given telephone number;
    the result is a success exactly with the identifier of the inserted
    row. *)
Theorem create_lead_inserts_after_checks (a : new_lead)
    (e : env (list exchange) N) :
  exists new,
    world (snd (create_lead_ a e)) = world e ++ new /\
    ((Forall (fun x => sql (fst x) <> insert_lead) new /\
      refused (fst (create_lead_ a e)))
     \/
     exists checks ans,
       new = checks ++ [(lead_insert a, ans)] /\
       n_nome a <> [] /\ passed a checks /\
       match ans with
       | Ok ((lead_id :: _) :: _) =>
           exists data,
             fst (create_lead_ a e) = Ok (ToolOk (of_string "Lead criado") data)
             /\ dget data "lead_id" = lead_id
       | _ => fst (create_lead_ a e) = Raise
       end).
Proof. exact (create_lead_sends a e). Qed.

Lemma update_lead_sends (lead_id : text) (u : lead_changes) :
  sends (update_lead_ lead_id u)
        (fun new r =>
           (Forall (fun x => is_update (fst x) = false) new /\ refused r)
           \/
           exists checks ans,
             new = checks ++ [(lead_update lead_id u, ans)] /\
             is_uuid lead_id = true /\ fst (update_sets u) <> [] /\
             confirmed u checks /\
             updated ans not_found
               (ToolOk (of_string "Lead atualizado")
                       [ ("lead_id", VStr (to_string lead_id)) ]) r).
Proof.
  unfold update_lead, lead_update, confirmed.
  destruct (is_uuid lead_id) eqn:Eid; simpl.
  2: { apply sends_ret. left. by split. }
  destruct (update_sets u) as [sets vals] eqn:Eu. simpl.
  destruct sets as [|s0 sets].
  { apply sends_ret. left. by split. }
  set (q := update_statement _ _ _).
  assert (Hlast : forall checks ans r,
            match c_status_codigo u with
            | Some st =>
                exists st_row st_rows,
                  checks = [ (Statement status_check [PText st],
                              Ok (st_row :: st_rows)) ]
            | None => checks = []
            end ->
            updated ans not_found
              (ToolOk (of_string "Lead atualizado")
                      [ ("lead_id", VStr (to_string lead_id)) ]) r ->
            (Forall (fun x : exchange => is_update (fst x) = false)
                    (checks ++ [(q, ans)] ++ []) /\ refused r)
            \/ exists checks0 ans0,
                 checks ++ [(q, ans)] ++ [] = checks0 ++ [(q, ans0)] /\
                 true = true /\ s0 :: sets <> [] /\
                 match c_status_codigo u with
                 | Some st =>
                     exists st_row st_rows,
                       checks0 = [ (Statement status_check [PText st],
                                    Ok (st_row :: st_rows)) ]
                 | None => checks0 = []
                 end /\
                 updated ans0 not_found
                   (ToolOk (of_string "Lead atualizado")
                           [ ("lead_id", VStr (to_string lead_id)) ]) r).
  { intros checks ans r Hc Hr. right. exists checks, ans.
    by rewrite app_nil_r. }
  assert (Hupd : forall checks,
            match c_status_codigo u with
            | Some st =>
                exists st_row st_rows,
                  checks = [ (Statement status_check [PText st],
                              Ok (st_row :: st_rows)) ]
            | None => checks = []
            end ->
            sends (let* rows := execute_ (sql q) (params q) in
                   match rows with
                   | [] => ret (ToolError not_found [])
                   | _ :: _ =>
                       ret (ToolOk (of_string "Lead atualizado")
                              [ ("lead_id", VStr (to_string lead_id)) ])
                   end)%eff
                  (fun new2 r2 =>
                     (Forall (fun x : exchange => is_update (fst x) = false)
                             (checks ++ new2) /\ refused r2)
                     \/ exists checks0 ans0,
                          checks ++ new2 = checks0 ++ [(q, ans0)] /\
                          true = true /\ s0 :: sets <> [] /\
                          match c_status_codigo u with
                          | Some st =>
                              exists st_row st_rows,
                                checks0 = [ (Statement status_check [PText st],
                                             Ok (st_row :: st_rows)) ]
                          | None => checks0 = []
                          end /\
                          updated ans0 not_found
                            (ToolOk (of_string "Lead atualizado")
                                    [ ("lead_id", VStr (to_string lead_id)) ])
                            r2)).
  { intros checks Hc. apply sends_bind, sends_execute.
    intros [[|row rows]|]; [apply sends_ret| apply sends_ret|];
      by apply Hlast. }
  apply sends_bind.
  destruct (c_status_codigo u) as [st|] eqn:Est.
  - apply sends_bind, sends_execute. intros [[|st_row st_rows]|].
    + apply sends_ret. apply sends_ret. left. by split; [repeat constructor|].
    + apply sends_ret. rewrite app_nil_r. apply Hupd. by exists st_row, st_rows.
    + left. by split; [repeat constructor|].
  - apply sends_ret. by apply (Hupd []).
Qed.

Lemma complete_task_sends (tarefa_id : text) :
  sends (complete_task_ tarefa_id)
        (fun new r =>
           (new = [] /\ is_uuid tarefa_id = false /\ refused r)
           \/
           exists ans,
             new = [(Statement close_task [PText tarefa_id], ans)] /\
             is_uuid tarefa_id = true /\
             updated ans
               (of_string "Tarefa n" ++ [ascii_of_nat 227]
                ++ of_string "o encontrada")
               (ToolOk (of_string "Tarefa conclu" ++ [ascii_of_nat 237]
                        ++ of_string "da")
                       [ ("tarefa_id", VStr (to_string tarefa_id));
                         ("status", VStr "concluida") ]) r).
Proof.
  unfold complete_task. destruct (is_uuid tarefa_id); simpl.
  2: { apply sends_ret. by left. }
  apply sends_bind, sends_execute. intros [[|row rows]|].
  1, 2: apply sends_ret.
  all: right; eexists; by rewrite ?app_nil_r.
Qed.

(** X21 -- whatever the database answers, [update_lead] sends its update at
    most once and as its last statement, and only for an identifier of the
    shape of a UUID and at least one field to change, after the database has
    confirmed the status code when one is given; [complete_task] sends
    nothing for an identifier of another shape and one update otherwise.
    Both succeed exactly when the update returned a row. *)
Theorem updates_after_validation (lead_id tarefa_id : text) (u : lead_changes)
    (e : env (list exchange) N) :
  (exists new,
     world (snd (update_lead_ lead_id u e)) = world e ++ new /\
     ((Forall (fun x => is_update (fst x) = false) new /\
       refused (fst (update_lead_ lead_id u e)))
      \/
      exists checks ans,
        new = checks ++ [(lead_update lead_id u, ans)] /\
        is_uuid lead_id = true /\ fst (update_sets u) <> [] /\
        confirmed u checks /\
        updated ans not_found
          (ToolOk (of_string "Lead atualizado")
                  [ ("lead_id", VStr (to_string lead_id)) ])
          (fst (update_lead_ lead_id u e)))) /\
  (exists new,
     world (snd (complete_task_ tarefa_id e)) = world e ++ new /\
     ((new = [] /\ is_uuid tarefa_id = false /\
       refused (fst (complete_task_ tarefa_id e)))
      \/
      exists ans,
        new = [(Statement close_task [PText tarefa_id], ans)] /\
        is_uuid tarefa_id = true /\
        updated ans
          (of_string "Tarefa n" ++ [ascii_of_nat 227]
           ++ of_string "o encontrada")
          (ToolOk (of_string "Tarefa conclu" ++ [ascii_of_nat 237]
                   ++ of_string "da")
                  [ ("tarefa_id", VStr (to_string tarefa_id));
                    ("status", VStr "concluida") ])
          (fst (complete_task_ tarefa_id e)))).
Proof.
  split; [exact (update_lead_sends lead_id u e)
         |exact (complete_task_sends tarefa_id e)].
Qed.

(** the lead a reference resolves to in the database as it is *)
Definition resolved_id (ref : text) (e : env (list exchange) N) : option value :=
  match fst (lookup_ ref e) with
  | Ok (lead, _) => found lead
  | Raise => None
  end.

(** a statement that inserts a note or a task *)
Definition inserts (q : statement) : Prop :=
  sql q = insert_note \/ sql q = insert_task.

Lemma asked_inserts_nothing ref h :
  Forall (fun x => ~ inserts (fst x)) (asked ref h).
Proof.
  unfold asked. destruct (lookup_query ref) as [q|]; [|constructor].
  apply Forall_singleton. unfold inserts. simpl.
  destruct q; simpl; intros [H|H]; discriminate H.
Qed.

Lemma add_note_to_lead_sends ref texto (e : env (list exchange) N) :
  exists new,
    world (snd (add_note_to_lead_ ref texto e)) = world e ++ new /\
    match texto, resolved_id ref e with
    | [], _ => new = [] /\ refused (fst (add_note_to_lead_ ref texto e))
    | _ :: _, None =>
        new = asked ref (world e) /\
        refused (fst (add_note_to_lead_ ref texto e))
    | _ :: _, Some lead_id =>
        exists ans,
          new = asked ref (world e)
                ++ [(Statement insert_note [PValue lead_id; PText texto], ans)] /\
          written ans (of_string "Nota adicionada") "note_id" lead_id
                  (fst (add_note_to_lead_ ref texto e))
    end.
Proof.
  unfold resolved_id.
  pose proof (lookup_world ref e) as Hw.
  remember (add_note_to_lead_ ref texto e) as out eqn:Hout.
  unfold add_note_to_lead in Hout.
  destruct texto as [|c texto].
  { subst out. exists []. simpl. by rewrite app_nil_r. }
  unfold bind, execute, call, recorded_execute in Hout.
  destruct (lookup_ ref e) as [[[lead ms]|] e1]; simpl in *.
  2: { subst out. eexists. split; [exact Hw|]. by split. }
  destruct (found lead) as [lead_id|].
  2: { subst out. eexists. simpl. split; [exact Hw|]. split; [done|].
       by destruct ms. }
  rewrite Hw in Hout.
  destruct (answer _ _) as [[|[|v r] rows]|] eqn:Ea; subst out; simpl;
    eexists; (split; [by rewrite <- app_assoc|]); eexists; (split; [done|]);
    done.
Qed.

Lemma create_task_sends ref titulo data_limite tipo
    (e : env (list exchange) N) :
  exists new,
    world (snd (create_task_ ref titulo data_limite tipo e)) = world e ++ new /\
    match titulo, valid_tipo tipo, resolved_id ref e with
    | _ :: _, true, Some lead_id =>
        exists ans,
          new = asked ref (world e)
                ++ [(Statement insert_task
                       [ PValue lead_id; PText tipo; PText titulo;
                         opt_param data_limite ], ans)] /\
          written ans (of_string "Tarefa criada") "tarefa_id" lead_id
                  (fst (create_task_ ref titulo data_limite tipo e))
    | _ :: _, true, None =>
        new = asked ref (world e) /\
        refused (fst (create_task_ ref titulo data_limite tipo e))
    | _, _, _ =>
        new = [] /\ refused (fst (create_task_ ref titulo data_limite tipo e))
    end.
Proof.
  unfold resolved_id.
  pose proof (lookup_world ref e) as Hw.
  remember (create_task_ ref titulo data_limite tipo e) as out eqn:Hout.
  unfold create_task in Hout.
  destruct titulo as [|c titulo].
  { subst out. exists []. simpl. by rewrite app_nil_r. }
  destruct (valid_tipo tipo); simpl in Hout.
  2: { subst out. exists []. simpl. by rewrite app_nil_r. }
  unfold bind, execute, call, recorded_execute in Hout.
  destruct (lookup_ ref e) as [[[lead ms]|] e1]; simpl in *.
  2: { subst out. eexists. split; [exact Hw|]. by split. }
  destruct (found lead) as [lead_id|].
  2: { subst out. eexists. simpl. split; [exact Hw|]. split; [done|].
       by destruct ms. }
  rewrite Hw in Hout.
  destruct (answer _ _) as [[|[|v r] rows]|] eqn:Ea; subst out; simpl;
    eexists; (split; [by rewrite <- app_assoc|]); eexists; (split; [done|]);
    done.
Qed.

(** X22 -- whatever the database answers, [add_note_to_lead] and
    [create_task] send nothing and do not succeed when the text or the title
    is empty or the kind of task is not a known one; otherwise they send the
    lookup of their reference, which is at most one statement and inserts
    nothing; when the reference resolves to no lead or to several, or the
    lookup raises, they send nothing more and do not succeed; when it
    resolves to one lead they send one statement more, the insert of one row
    for that lead, and succeed exactly when that insert returned a row. *)
Theorem writes_need_one_lead (ref texto titulo tipo : text)
    (data_limite : option text) (e : env (list exchange) N) :
  (length (asked ref (world e)) <= 1 /\
   Forall (fun x => ~ inserts (fst x)) (asked ref (world e)) /\
   world (snd (lookup_ ref e)) = world e ++ asked ref (world e)) /\
  (exists new,
     world (snd (add_note_to_lead_ ref texto e)) = world e ++ new /\
     match texto, resolved_id ref e with
     | [], _ => new = [] /\ refused (fst (add_note_to_lead_ ref texto e))
     | _ :: _, None =>
         new = asked ref (world e) /\
         refused (fst (add_note_to_lead_ ref texto e))
     | _ :: _, Some lead_id =>
         exists ans,
           new = asked ref (world e)
                 ++ [(Statement insert_note [PValue lead_id; PText texto], ans)] /\
           written ans (of_string "Nota adicionada") "note_id" lead_id
                   (fst (add_note_to_lead_ ref texto e))
     end) /\
  (exists new,
     world (snd (create_task_ ref titulo data_limite tipo e)) = world e ++ new /\
     match titulo, valid_tipo tipo, resolved_id ref e with
     | _ :: _, true, Some lead_id =>
         exists ans,
           new = asked ref (world e)
                 ++ [(Statement insert_task
                        [ PValue lead_id; PText tipo; PText titulo;
                          opt_param data_limite ], ans)] /\
           written ans (of_string "Tarefa criada") "tarefa_id" lead_id
                   (fst (create_task_ ref titulo data_limite tipo e))
     | _ :: _, true, None =>
         new = asked ref (world e) /\
         refused (fst (create_task_ ref titulo data_limite tipo e))
     | _, _, _ =>
         new = [] /\ refused (fst (create_task_ ref titulo data_limite tipo e))
     end).
Proof.
  split; [|split; [exact (add_note_to_lead_sends ref texto e)
                  |exact (create_task_sends ref titulo data_limite tipo e)]].
  split; [|split; [apply asked_inserts_nothing|apply lookup_world]].
  unfold asked. destruct (lookup_query ref); simpl; lia.
Qed.

End Recorded.
End CrmFacts.

(** ** Planning and the final answer: what they leave as it was *)

Module OutcomeFacts.
Import PyStr Py Eff EffFacts Tools State Queue Helpers Workflow DictFacts
  SchedulerFacts.

Lemma pop_lead_criar_split q x rest :
  pop_lead_criar q = Some (x, rest) ->
  exists before after,
    q = before ++ x :: after /\ rest = before ++ after /\
    a_intent x = "lead_criar"%string /\
    Forall (fun a => a_intent a <> "lead_criar"%string) before.
Proof.
  revert x rest. induction q as [|a q IH]; intros x rest H; [done|].
  simpl in H. destruct (String.eqb (a_intent a) "lead_criar") eqn:E.
  - inversion H; subst. apply String.eqb_eq in E. by exists [], rest.
  - apply String.eqb_neq in E.
    destruct (pop_lead_criar q) as [[y rest']|]; [|done].
    inversion H; subst.
    destruct (IH _ _ eq_refl) as (before & after & -> & -> & Hy & Hb).
    exists (a :: before), after. repeat split; try done. by constructor.
Qed.

(** a segment the final answer has nothing to say about *)
Definition blank (g : segment) : Prop := strip (seg_text g) = [].

Lemma segment_texts_blank ok l : Forall blank l -> segment_texts ok l = [].
Proof.
  unfold segment_texts. induction 1 as [|g l Hg Hl IH]; [done|].
  simpl. unfold blank in Hg. by rewrite Hg.
Qed.

Section Planning.
Variable W : Type.
Variable py_str : value -> string.
Variable json_loads : text -> option value.
Variable PLAN_SYSTEM_PROMPT : text.
Variable plan_llm : W -> list message -> res (list plan_action) * W.

#[local] Abbreviation prepare_plan_ :=
  (prepare_plan W py_str json_loads PLAN_SYSTEM_PROMPT plan_llm).

(** X24 -- [prepare_plan] never raises, whatever the planner does, and
    never drops a queued action: the queue it leaves is the queue it found
    with new actions appended, and either the intent and the slots are as
    they were, or the first [lead_criar] of that queue has been taken out
    and made the intent.  When the planner fails nothing is appended and the
    failure is flagged.  The messages, the lead and the errors stay. *)
Theorem prepare_plan_keeps_queue (s : state) (e : env W node) :
  exists s' added,
    fst (prepare_plan_ s e) = Ok s' /\
    messages s' = messages s /\ lead_atual s' = lead_atual s /\
    errors s' = errors s /\
    ((intent s' = intent s /\ slots s' = slots s /\
      pending_actions (context s') = pending_actions (context s) ++ added)
     \/
     exists before x after,
       pending_actions (context s) ++ added = before ++ x :: after /\
       a_intent x = "lead_criar"%string /\
       Forall (fun a => a_intent a <> "lead_criar"%string) before /\
       pending_actions (context s') = before ++ after /\
       intent s' = Some "lead_criar"%string /\ slots s' = a_slots x) /\
    (fst (plan_llm (world e) (system PLAN_SYSTEM_PROMPT :: messages s)) = Raise ->
     added = [] /\ planner_error (context s') = true).
Proof.
  assert (Hgo : forall c pending added (e' : env W node),
            pending = pending_actions (context s) ++ added ->
            pending_actions c = pending ->
            exists s',
              fst (((if needs_lead s then
                      match pop_lead_criar pending with
                      | Some (lead_action, rest) =>
                          ret (with_slots
                                 (with_intent (with_context s (set_pending c rest))
                                              (Some "lead_criar"%string))
                                 (a_slots lead_action))
                      | None => ret (with_context s c)
                      end
                    else ret (with_context s c)) : M W node state) e')
              = Ok s' /\
              messages s' = messages s /\ lead_atual s' = lead_atual s /\
              errors s' = errors s /\
              planner_error (context s') = planner_error c /\
              ((intent s' = intent s /\ slots s' = slots s /\
                pending_actions (context s')
                = pending_actions (context s) ++ added)
               \/
               exists before x after,
                 pending_actions (context s) ++ added = before ++ x :: after /\
                 a_intent x = "lead_criar"%string /\
                 Forall (fun a => a_intent a <> "lead_criar"%string) before /\
                 pending_actions (context s') = before ++ after /\
                 intent s' = Some "lead_criar"%string /\ slots s' = a_slots x)).
  { intros c pending added e' Hp Hc.
    destruct (needs_lead s).
    - destruct (pop_lead_criar pending) as [[x rest]|] eqn:Epop.
      + destruct (pop_lead_criar_split _ _ _ Epop)
          as (before & after & Hq & -> & Hx & Hb).
        eexists. split; [reflexivity|]. simpl. repeat split.
        right. exists before, x, after. by rewrite <- Hp.
      + eexists. split; [reflexivity|]. simpl. repeat split.
        left. by rewrite Hc.
    - eexists. split; [reflexivity|]. simpl. repeat split.
      left. by rewrite Hc. }
  unfold prepare_plan, plan_and_merge, ensure_context, bind, emit, try_, call,
    ret.
  simpl.
  destruct (plan_llm (world e) _) as [[plan|] w]; simpl.
  - destruct (PlanningFacts.merge_appends
                (pending_actions (context s))
                (plan_new_actions py_str json_loads (intent s) (lead_atual s)
                   plan)) as (added & Hm & _).
    destruct (merge_actions _ _) as [pending completed]. simpl in Hm.
    edestruct (Hgo (match pending with
                    | [] => if completed
                            then set_planner_debug (context s) (map debug_entry plan)
                            else set_planner_error
                                   (set_planner_debug (context s) (map debug_entry plan))
                    | _ :: _ =>
                        set_pending
                          (if completed
                           then set_planner_debug (context s) (map debug_entry plan)
                           else set_planner_error
                                  (set_planner_debug (context s) (map debug_entry plan)))
                          pending
                    end) pending added)
      as (s' & Hs' & Hrest); [exact Hm| |].
    { destruct pending, completed; simpl; try done;
        destruct (pending_actions (context s)); by simpl in *. }
    exists s', added. split; [exact Hs'|].
    destruct Hrest as (? & ? & ? & _ & ?). by repeat split.
  - edestruct (Hgo (match pending_actions (context s) with
                    | [] => set_planner_error (context s)
                    | _ :: _ =>
                        set_pending (set_planner_error (context s))
                                    (pending_actions (context s))
                    end) (pending_actions (context s)) [])
      as (s' & Hs' & Hrest); [by rewrite app_nil_r| |].
    { destruct (pending_actions (context s)) eqn:Eq; simpl; by rewrite ?Eq. }
    exists s', []. split; [exact Hs'|].
    destruct Hrest as (? & ? & ? & Herr & ?). repeat split; try done.
    rewrite Herr. by destruct (pending_actions (context s)) eqn:Eq.
Qed.

End Planning.

Section Answer.
Variable W : Type.
Variable py_str : value -> string.
Variable FINALIZER_SYSTEM_PROMPT : text.
Variable finalizer_model : W -> list message -> res message * W.
Variable tool_invoke : W -> tool_name -> dict -> res tool_result * W.

#[local] Abbreviation respond_final_ :=
  (respond_final W py_str FINALIZER_SYSTEM_PROMPT finalizer_model tool_invoke).

(** X23 -- [respond_final] answers with exactly one assistant message, put
    after the messages of the state, and leaves the intent, the slots, the
    lead and the errors as they were.  The answer to [listar_status_lead]
    never raises, also when the tool does.  When no segment has any text,
    the answer is the text of the last message and the finalizer model is
    not called. *)
Theorem respond_final_answers (s : state) (e : env W node) :
  match fst (respond_final_ s e) with
  | Ok s' =>
      exists t,
        messages s' = messages s ++ [ai t] /\ intent s' = intent s /\
        slots s' = slots s /\ lead_atual s' = lead_atual s /\
        errors s' = errors s
  | Raise => intent_is (intent s) "listar_status_lead" = false
  end /\
  (intent_is (intent s) "listar_status_lead" = false ->
   Forall blank (ai_responses (context s)) ->
   snd (respond_final_ s e) = e /\
   fst (respond_final_ s e)
   = match last_message (messages s) with
     | Some m => Ok (say s (extract_text_content m))
     | None => Raise
     end).
Proof.
  unfold respond_final, respond_status, ensure_context, invoke, report, say.
  split.
  - destruct (intent_is (intent s) "listar_status_lead").
    + unfold bind, try_, call, ret.
      destruct (tool_invoke _ _ _) as [[[m data|msg ms]|] w]; simpl.
      * destruct (codes_of _ _); simpl; by eexists.
      * by eexists.
      * by eexists.
    + destruct (segment_texts true _) as [|x xs];
        [destruct (segment_texts false _) as [|y ys]|].
      * destruct (last_message (messages s)); simpl; [by eexists|done].
      * unfold bind, call, ret.
        destruct (finalizer_model _ _) as [[m|] w]; simpl; [by eexists|done].
      * unfold bind, call, ret.
        destruct (finalizer_model _ _) as [[m|] w]; simpl; [by eexists|done].
  - intros -> Hb. rewrite !(segment_texts_blank _ _ Hb).
    destruct (last_message (messages s)); simpl; [|done].
    split; [done|]. by destruct s.
Qed.

End Answer.
End OutcomeFacts.

(** ** Consolidation on a sample conversation *)

Module ConsolidationSample.
Import PyStr Py Eff EffFacts Tools State Queue Helpers Workflow
  ConsolidationFacts.

(** a conversation in which the leads agent has created a lead and has
    recalculated the totals of a proposal *)
Definition created_state : state :=
  St [ human (of_string "criar lead Maria e recalcular a proposta");
       Message ToolMsg
         (CDict [ ("message", VStr "Lead criado");
                  ("data", VDict [ ("lead_id", VStr "L1");
                                   ("nome", VStr "Maria") ]) ])
         (of_string "create_lead");
       Message ToolMsg
         (CDict [ ("message", VStr "Totais atualizados");
                  ("data", VDict [ ("proposta_id", VStr "P1");
                                   ("subtotal", VInt 10);
                                   ("total", VInt 9) ]) ])
         (of_string "calculate_proposal_totals") ]
     (Some "lead_criar"%string) [ ("nome", VStr "Maria") ] None [] empty_ctx
     true.

Definition sample_update_context (s : state) : res state * env unit node :=
  update_context unit GraphFacts.sample_str GraphFacts.no_parse
    GraphFacts.no_parse [] GraphFacts.empty_planner GraphFacts.empty_db s
    (Env tt []).

(** the state after one consolidation *)
Definition consolidated_state : state :=
  Eval vm_compute in
    match fst (sample_update_context created_state) with
    | Ok s => s
    | Raise => created_state
    end.

Lemma created_state_totals :
  totals_identified GraphFacts.no_parse (messages created_state).
Proof.
  intros m d Hin [Hk Hd] Hname _. simpl in Hin.
  destruct Hin as [<-|[<-|[<-|[]]]]; try discriminate.
  vm_compute in Hd. by injection Hd as <-.
Qed.

Lemma consolidation_records_once_witness :
  totals_identified GraphFacts.no_parse (messages created_state) /\
  length (ai_responses (context consolidated_state)) = 2 /\
  exists s2,
    fst (sample_update_context consolidated_state) = Ok s2 /\
    ai_responses (context s2) = ai_responses (context consolidated_state).
Proof.
  split; [exact created_state_totals|]. split; [reflexivity|].
  apply (consolidation_records_once unit GraphFacts.sample_str
           GraphFacts.no_parse GraphFacts.no_parse [] GraphFacts.empty_planner
           GraphFacts.empty_db created_state consolidated_state
           (Env tt []) (Env tt [EvPlanner Replan]) (Env tt [])).
  - exact created_state_totals.
  - vm_compute. reflexivity.
Defined.

End ConsolidationSample.

(** ** The supplementary planning: what it queues *)

Module ReplanFacts.
Import PyStr Py Eff EffFacts Tools State Queue Helpers Workflow DictFacts
  NodeFacts PlanningFacts.

(** the merge of the supplementary planning appends only new actions whose
    intent is not among the executed ones *)
Lemma merge_loop_executed_added executed new_actions :
  forall keys pending,
    exists added,
      fst (merge_loop_executed executed keys pending new_actions)
      = pending ++ added /\
      Forall (fun a => in_list (a_intent a) executed = false /\
                       In a new_actions) added.
Proof.
  induction new_actions as [|act rest IH]; intros keys pending; simpl.
  { exists []. by rewrite app_nil_r. }
  assert (Hrest : forall keys pending,
            exists added,
              fst (merge_loop_executed executed keys pending rest)
              = pending ++ added /\
              Forall (fun a => in_list (a_intent a) executed = false /\
                               (act = a \/ In a rest)) added).
  { intros keys0 pending0. destruct (IH keys0 pending0) as (added & H & F).
    exists added. split; [done|]. eapply Forall_impl; [exact F|].
    intros a [? ?]. auto. }
  destruct (in_list (a_intent act) executed) eqn:Ex; [apply Hrest|].
  destruct (dedup_key act) as [k|].
  - destruct (bool_decide (k ∈ keys)); [apply Hrest|].
    destruct (Hrest (k :: keys) (pending ++ [act])) as (added & H & F).
    exists (act :: added). rewrite H, <- app_assoc. split; [done|].
    constructor; [|done]. auto.
  - exists []. by rewrite app_nil_r.
Qed.

Lemma merge_actions_executed_added executed pending new_actions :
  exists added,
    fst (merge_actions_executed executed pending new_actions)
    = pending ++ added /\
    Forall (fun a => in_list (a_intent a) executed = false /\
                     In a new_actions) added.
Proof.
  unfold merge_actions_executed. destruct (queue_keys pending) as [keys|].
  - apply merge_loop_executed_added.
  - exists []. by rewrite app_nil_r.
Qed.

Section Replan.
Variable W : Type.
Variable py_str : value -> string.
Variable json_loads : text -> option value.
Variable literal_eval : text -> option value.
Variable PLAN_SYSTEM_PROMPT : text.
Variable plan_llm : W -> list message -> res (list plan_action) * W.
Variable db_select : W -> query -> res (list lead_row) * W.

#[local] Abbreviation update_context_ :=
  (update_context W py_str json_loads literal_eval PLAN_SYSTEM_PROMPT plan_llm
     db_select).
#[local] Abbreviation replan_ :=
  (replan W py_str json_loads PLAN_SYSTEM_PROMPT plan_llm).

(** an action the supplementary planning may queue, given the intent under
    execution, the lead and the segments recorded so far *)
Definition fresh_action (s : state) (lead : option lead_ctx) (c : ctx)
    (a : action) : Prop :=
  in_list (a_intent a) (executed_intents c) = false /\
  same_as_primary (intent s) (a_intent a) = false /\
  (has_lead lead = true -> a_intent a <> "lead_criar"%string).

Lemma replan_queue s c new_lead :
  spec (replan_ s c new_lead)
       (fun evs r =>
          exists c',
            r = Ok c' /\ ai_responses c' = ai_responses c /\
            (c' = c \/
             (pending_actions c = [] /\ replanned c = false /\
              replanned c' = true /\
              Forall (fresh_action s
                        (match new_lead with
                         | Some l => Some l
                         | None => lead_atual s
                         end) c)
                     (pending_actions c')))).
Proof.
  unfold replan.
  destruct (pending_actions c) as [|a q] eqn:Hp;
    [|apply spec_ret; exists c; auto].
  destruct (replanned c) eqn:Hr; [apply spec_ret; exists c; auto|].
  apply spec_bind, spec_emit. apply spec_bind, spec_try, spec_call.
  intros r. destruct r as [plan|]; simpl; [|apply spec_ret; exists c; auto].
  set (lead := match new_lead with Some l => Some l | None => lead_atual s end).
  destruct (merge_actions_executed_added (executed_intents c) []
              (plan_new_actions py_str json_loads (intent s) lead plan))
    as (added & Hq & Hadded).
  destruct (planned_actions_shape py_str json_loads (intent s) lead plan)
    as [_ Hshape].
  destruct (merge_actions_executed _ _ _) as [q completed]. simpl in Hq.
  destruct completed; apply spec_ret; [|exists c; auto].
  eexists. split; [reflexivity|]. split; [done|]. right.
  split; [done|]. split; [done|]. split; [done|]. simpl. subst q.
  apply Forall_forall. intros a Ha.
  rewrite Forall_forall in Hadded. destruct (Hadded a Ha) as [Hex Hin].
  rewrite List.Forall_forall in Hshape.
  destruct (Hshape a Hin) as (Hprim & Hcriar & _).
  by repeat split.
Qed.

Lemma update_context_replans s :
  spec (update_context_ s)
       (fun evs r =>
          match r with
          | Ok s' =>
              replanned (context s) = false -> replanned (context s') = true ->
              Forall (fun a =>
                        in_list (a_intent a) (executed_intents (context s'))
                        = false /\
                        same_as_primary (intent s) (a_intent a) = false /\
                        (has_lead (lead_atual s') = true ->
                         a_intent a <> "lead_criar"%string))
                     (pending_actions (context s'))
          | Raise => True
          end).
Proof.
  unfold update_context, ensure_context. apply spec_bind.
  eapply spec_conseq; [apply scan_messages_spec|].
  intros evs r (-> & a & -> & Happ). simpl in Happ.
  destruct (appended_fields _ _ Happ) as (_ & _ & _ & Hrp & _).
  apply spec_bind.
  assert (Hgo : forall new_lead,
            spec (let c := sc_ctx a in
                  let c := match new_lead with
                           | Some l => set_pending c (map (inject_lead py_str l)
                                                        (pending_actions c))
                           | None => c
                           end in
                  let* c := replan_ s c new_lead in
                  let s0 := with_context (with_slots s (sc_slots a)) c in
                  ret (match new_lead with
                       | Some l => with_lead s0 l
                       | None => s0
                       end))%eff
                 (fun evs2 r2 =>
                    match r2 with
                    | Ok s' =>
                        replanned (context s) = false ->
                        replanned (context s') = true ->
                        Forall (fun a =>
                                  in_list (a_intent a)
                                          (executed_intents (context s')) = false /\
                                  same_as_primary (intent s) (a_intent a) = false /\
                                  (has_lead (lead_atual s') = true ->
                                   a_intent a <> "lead_criar"%string))
                               (pending_actions (context s'))
                    | Raise => True
                    end)).
  { intros new_lead. cbv zeta. apply spec_bind.
    eapply spec_conseq; [apply replan_queue|].
    intros evs r (c' & -> & Hai & Hcase). apply spec_ret.
    set (s' := match new_lead with
               | Some l => with_lead (with_context (with_slots s (sc_slots a)) c') l
               | None => with_context (with_slots s (sc_slots a)) c'
               end).
    assert (Hfr : context s' = c' /\
                  lead_atual s' = match new_lead with
                                  | Some l => Some l
                                  | None => lead_atual s
                                  end)
      by (unfold s'; by destruct new_lead).
    destruct Hfr as [Hc Hl]. clearbody s'. rewrite Hc, Hl.
    intros Hs Hs'. destruct Hcase as [->|(_ & _ & _ & Hall)].
    - exfalso. destruct new_lead; simpl in Hs'; congruence.
    - eapply Forall_impl; [exact Hall|].
      intros x (Hx & Hp & Hcr). split; [|by split].
      unfold executed_intents in *. by rewrite Hai. }
  destruct (sc_lead a) as [l|].
  - apply spec_ret. apply (Hgo (Some l)).
  - destruct (truthy _).
    + eapply spec_conseq; [apply (get_lead_context_total W py_str db_select)|].
      intros evs r (-> & o & ->). apply (Hgo o).
    + apply spec_ret. apply (Hgo None).
Qed.

(** X25 -- the supplementary planning of [update_context] queues nothing
    that was done already: when [update_context] sets [replanned], every
    action of the queue it leaves has an intent that no recorded segment
    carries and that is not the intent under execution, and it is no
    [lead_criar] when the state has a lead with an identifier. *)
Theorem replan_skips_executed (s : state) (e : env W node) :
  match fst (update_context_ s e) with
  | Ok s' =>
      replanned (context s) = false -> replanned (context s') = true ->
      Forall (fun a =>
                in_list (a_intent a) (executed_intents (context s')) = false /\
                same_as_primary (intent s) (a_intent a) = false /\
                (has_lead (lead_atual s') = true ->
                 a_intent a <> "lead_criar"%string))
             (pending_actions (context s'))
  | Raise => True
  end.
Proof. destruct (update_context_replans s e) as (evs & _ & H). exact H. Qed.

End Replan.
End ReplanFacts.
